(** * Character-card codec: a shallow embedding and its properties

    The development follows the card import/export service of the
    repository (the second document of [src/unnamed/part_000]):
    [buildCharacter], [buildExportData], [parseCharacterCard],
    [parseQrFile]/[exportQrData], [createTavernPng], the quick-reply
    objects written by [exportCharacterData] and [exportBulkCharacters],
    and the [crc32] utility.

    Modelling conventions.
    - A JavaScript value is a [value]; objects are finite maps from
      property names to values (own enumerable string-keyed properties).
    - A JavaScript string is a [string] whose characters stand for code
      units below 256; numbers are the integers.
    - A [Uint8Array] is a [list byte].
    - A JavaScript call that may throw returns an [option] or a sum; the
      platform primitives the service calls but does not define
      ([TextDecoder], [atob], [JSON.parse], [DecompressionStream]) are
      section variables, so every theorem holds for any behaviour of
      theirs; closed examples instantiate them. *)

From stdpp Require Import gmap strings list fin_maps pretty.
From Stdlib Require Import ZArith Lia Ascii.
From Stdlib.Strings Require Import Byte.

#[local] Set Warnings "-register-all".

(** ** JavaScript values *)

Module JS.

Inductive value : Type :=
| VUndef
| VNull
| VBool (b : bool)
| VNum (n : Z)
| VStr (s : string)
| VArr (l : list value)
| VObj (m : gmap string value)
| VFun.

(** [!!v], the truthiness of a value. *)
Definition truthy (v : value) : bool :=
  match v with
  | VUndef | VNull => false
  | VBool b => b
  | VNum n => negb (n =? 0)%Z
  | VStr s => negb (String.eqb s "")
  | VArr _ | VObj _ | VFun => true
  end.

(** [a || b] on already evaluated operands. *)
Definition or_else (a b : value) : value := if truthy a then a else b.

Definition isArray (v : value) : bool :=
  match v with VArr _ => true | _ => false end.

Definition isString (v : value) : bool :=
  match v with VStr _ => true | _ => false end.

(** Of the property names the service reads, [Array.prototype] defines
    [entries] and [keys] (both functions); no other prototype defines any
    of them.  *)
Definition array_method (k : string) : bool :=
  String.eqb k "entries" || String.eqb k "keys".

(** [o.k]: [None] is the TypeError raised for a [null] or [undefined]
    receiver.  The names read by the service are never array indices,
    [length], or properties of functions. *)
Definition get (o : value) (k : string) : option value :=
  match o with
  | VUndef | VNull => None
  | VObj m => Some (default VUndef (m !! k))
  | VArr _ => Some (if array_method k then VFun else VUndef)
  | VBool _ | VNum _ | VStr _ | VFun => Some VUndef
  end.

(** [o?.k] *)
Definition get_opt (o : value) (k : string) : value :=
  default VUndef (get o k).

(** Own enumerable properties copied by [{...v}]. *)
Definition index_map {A} (l : list A) : gmap string A :=
  list_to_map (imap (fun i x => (pretty i, x)) l).

Definition chars (s : string) : list value :=
  (fun a => VStr (String a EmptyString)) <$> String.list_ascii_of_string s.

Definition spread (v : value) : gmap string value :=
  match v with
  | VObj m => m
  | VArr l => index_map l
  | VStr s => index_map (chars s)
  | _ => ∅
  end.

(** *** Strings *)

(** White space and line terminators among the code units below 256. *)
Definition is_ws (a : ascii) : bool :=
  let n := nat_of_ascii a in
  (((9 <=? n) && (n <=? 13)) || (n =? 32) || (n =? 160))%nat.

Fixpoint trim_start (s : string) : string :=
  match s with
  | String a s' => if is_ws a then trim_start s' else s
  | EmptyString => EmptyString
  end.

Fixpoint trim_end (s : string) : string :=
  match s with
  | String a s' =>
      match trim_end s' with
      | EmptyString => if is_ws a then EmptyString else String a EmptyString
      | r => String a r
      end
  | EmptyString => EmptyString
  end.

(** [s.trim()] *)
Definition trim (s : string) : string := trim_end (trim_start s).

(** [s.replace(/\s/g, "")] *)
Fixpoint remove_ws (s : string) : string :=
  match s with
  | String a s' => if is_ws a then remove_ws s' else String a (remove_ws s')
  | EmptyString => EmptyString
  end.

(** [s.startsWith(p)] *)
Definition startsWith (s p : string) : bool := String.prefix p s.

(** [s.split(",")] *)
Fixpoint split_comma_aux (cur : string) (s : string) : list string :=
  match s with
  | EmptyString => [String.rev cur]
  | String a s' =>
      if Ascii.eqb a ","%char then String.rev cur :: split_comma_aux "" s'
      else split_comma_aux (String a cur) s'
  end.

Definition split_comma (s : string) : list string := split_comma_aux "" s.

Fixpoint join_with (sep : string) (l : list string) : string :=
  match l with
  | [] => ""
  | [x] => x
  | x :: l' => x +:+ sep +:+ join_with sep l'
  end.

Definition lower_ascii (a : ascii) : ascii :=
  let n := nat_of_ascii a in
  if (((65 <=? n) && (n <=? 90))
      || ((192 <=? n) && (n <=? 222) && negb (n =? 215)))%nat
  then ascii_of_nat (n + 32) else a.

(** [s.toLowerCase()] on code units below 256. *)
Fixpoint toLowerCase (s : string) : string :=
  match s with
  | String a s' => String (lower_ascii a) (toLowerCase s')
  | EmptyString => EmptyString
  end.

(** [String(v)] and the element conversion of [Array.prototype.join]:
    [None] is the TypeError raised for an object whose own [toString]
    property is not callable (no value of the model is callable).  A number
    prints in decimal, which is what [String] gives for an integer below
    10^21 in absolute value. *)
Fixpoint to_string (v : value) : option string :=
  match v with
  | VUndef => Some "undefined"
  | VNull => Some "null"
  | VBool b => Some (if b then "true" else "false")
  | VNum n => Some (pretty n)
  | VStr s => Some s
  | VArr l =>
      join_with "," <$>
        (fix elems (l : list value) : option (list string) :=
           match l with
           | [] => Some []
           | x :: l' =>
               s ← match x with
                   | VUndef | VNull => Some ""
                   | _ => to_string x
                   end;
               r ← elems l'; Some (s :: r)
           end) l
  | VObj m => if decide (is_Some (m !! "toString")) then None
              else Some "[object Object]"
  | VFun => Some "function () { [native code] }"
  end.

Definition join_elem (x : value) : option string :=
  match x with
  | VUndef | VNull => Some ""
  | _ => to_string x
  end.

(** [l.join(sep)] *)
Definition join (sep : string) (l : list value) : option string :=
  join_with sep <$> mapM join_elem l.

(** [xs.map(f)] for a callback that may throw. *)
Definition map_throw {A B} (f : A → option B) (l : list A) : option (list B) :=
  mapM f l.

(** [x.map(f)] on an arbitrary receiver: only arrays have a callable
    [map]. *)
Definition call_map (x : value) (f : value → option value) : option value :=
  match x with
  | VArr l => VArr <$> mapM f l
  | _ => None
  end.

(** Decimal numerals consist of digits, so no property name the service
    reads is an array index. *)
Definition is_digit (a : ascii) : bool :=
  let n := nat_of_ascii a in ((48 <=? n) && (n <=? 57))%nat.

Fixpoint all_digits (s : string) : bool :=
  match s with
  | EmptyString => true
  | String a s' => is_digit a && all_digits s'
  end.

(** A string that does not begin with white space. *)
Definition starts_clean (s : string) : Prop :=
  match s with String a _ => is_ws a = false | EmptyString => True end.

End JS.

(** ** Card normalisation: [buildCharacter] and [buildExportData] *)

Module Card.
Import JS.

Inductive format := FmtPng | FmtJson.

(** The [Character] record as [buildCharacter] fills it.  An absent
    optional field is [VUndef]; fields are dynamically typed, as at run
    time. *)
Record Character : Type := mkCharacter {
  id : string;
  name : value;
  description : value;
  personality : value;
  firstMessage : value;
  alternate_greetings : value;
  scenario : value;
  character_book : value;
  tags : value;
  avatarUrl : string;
  qrList : value;
  originalFilename : string;
  sourceUrl : value;
  creator_notes : value;
  mes_example : value;
  system_prompt : value;
  post_history_instructions : value;
  creator : value;
  character_version : value;
  extensions : value;
  rawData : value;
  importDate : Z;
  extra_qr_data : value;
  importFormat : format;
}.

(** [v === s] for a string literal [s]. *)
Definition str_eq (v : value) (s : string) : bool :=
  match v with VStr s' => String.eqb s' s | _ => false end.

(** The envelope test at the top of [buildCharacter]:
<<
  let d = rawRoot;
  if (rawRoot.spec === "chara_card_v2" && rawRoot.data) d = rawRoot.data;
  else if (!rawRoot.name && rawRoot.data?.name) d = rawRoot.data;
>> *)
Definition unwrap (rawRoot : value) : option value :=
  spec ← get rawRoot "spec";
  data ← get rawRoot "data";
  nm ← get rawRoot "name";
  if str_eq spec "chara_card_v2" && truthy data then Some data
  else if negb (truthy nm) && truthy (get_opt data "name") then Some data
  else Some rawRoot.

Definition nonempty (s : string) : Prop := s ≠ "".

#[global] Instance nonempty_dec s : Decision (nonempty s).
Proof. unfold nonempty. apply _. Defined.

(** [tags]: an array is mapped through [String(t).trim()], a string is
    split at commas; empty results are dropped. *)
Definition tags_of (t : value) : option value :=
  match t with
  | VArr l =>
      ss ← mapM (fun t => trim <$> to_string t) l;
      Some (VArr (VStr <$> filter nonempty ss))
  | VStr s => Some (VArr (VStr <$> filter nonempty (trim <$> split_comma s)))
  | _ => Some (VArr [])
  end.

Definition import_tags (d : value) : option value :=
  t ← get d "tags"; tags_of t.

(** [({ ...e, keysInput: Array.isArray(e.keys) ? e.keys.join(", ") : "" })] *)
Definition add_keysInput (e : value) : option value :=
  keys ← get e "keys";
  ki ← match keys with VArr ks => join ", " ks | _ => Some "" end;
  Some (VObj (<["keysInput" := VStr ki]> (spread e))).

(** The typed [character_book]: fresh copies of the book and of each entry,
    with the editor's [keysInput] helper, when [character_book?.entries]
    is truthy. *)
Definition book_of (cb : value) : option value :=
  if truthy (get_opt cb "entries") then
    es ← call_map (get_opt cb "entries") add_keysInput;
    Some (VObj (<["entries" := es]> (spread cb)))
  else Some cb.

Definition import_book (d : value) : option value :=
  cb ← get d "character_book"; book_of cb.

Definition buildCharacter (rawRoot : value) (fileName avatar ident : string)
    (fmt : format) (now : Z) : option Character :=
  d ← unwrap rawRoot;
  tgs ← import_tags d;
  book ← import_book d;
  d_name ← get d "name";
  d_description ← get d "description";
  d_personality ← get d "personality";
  d_first_mes ← get d "first_mes";
  d_firstMessage ← get d "firstMessage";
  d_intro ← get d "intro";
  d_greeting ← get d "greeting";
  d_alternate_greetings ← get d "alternate_greetings";
  d_alternate_greeting ← get d "alternate_greeting";
  d_scenario ← get d "scenario";
  d_qrList ← get d "qrList";
  d_sourceUrl ← get d "sourceUrl";
  d_creator_notes ← get d "creator_notes";
  d_creatorcomment ← get d "creatorcomment";
  d_mes_example ← get d "mes_example";
  d_system_prompt ← get d "system_prompt";
  d_post_history_instructions ← get d "post_history_instructions";
  d_creator ← get d "creator";
  d_character_version ← get d "character_version";
  d_extensions ← get d "extensions";
  d_extra_qr_data ← get d "extra_qr_data";
  Some {|
    id := ident;
    name := or_else d_name (VStr "Unknown");
    description := or_else d_description (VStr "");
    personality := or_else d_personality (VStr "");
    firstMessage :=
      or_else d_first_mes
        (or_else d_firstMessage
           (or_else d_intro (or_else d_greeting (VStr ""))));
    alternate_greetings :=
      or_else d_alternate_greetings (or_else d_alternate_greeting (VArr []));
    scenario := or_else d_scenario (VStr "");
    character_book := book;
    tags := tgs;
    avatarUrl := avatar;
    qrList := or_else d_qrList (VArr []);
    originalFilename := fileName;
    sourceUrl := or_else d_sourceUrl (VStr "");
    creator_notes := or_else d_creator_notes (or_else d_creatorcomment (VStr ""));
    mes_example := or_else d_mes_example (VStr "");
    system_prompt := or_else d_system_prompt (VStr "");
    post_history_instructions := or_else d_post_history_instructions (VStr "");
    creator := or_else d_creator (VStr "");
    character_version := or_else d_character_version (VStr "");
    extensions := or_else d_extensions (VObj ∅);
    rawData := d;
    importDate := now;
    extra_qr_data := d_extra_qr_data;
    importFormat := fmt;
  |}.

(** The record literal returned by [buildCharacter], as a function of the
    reader [rd] of the body's properties. *)
Definition character_from (rd : string → value) (raw tg bk : value)
    (fileName avatar ident : string) (fmt : format) (now : Z) : Character :=
  {| id := ident;
     name := or_else (rd "name") (VStr "Unknown");
     description := or_else (rd "description") (VStr "");
     personality := or_else (rd "personality") (VStr "");
     firstMessage :=
       or_else (rd "first_mes")
         (or_else (rd "firstMessage")
            (or_else (rd "intro") (or_else (rd "greeting") (VStr ""))));
     alternate_greetings :=
       or_else (rd "alternate_greetings")
         (or_else (rd "alternate_greeting") (VArr []));
     scenario := or_else (rd "scenario") (VStr "");
     character_book := bk;
     tags := tg;
     avatarUrl := avatar;
     qrList := or_else (rd "qrList") (VArr []);
     originalFilename := fileName;
     sourceUrl := or_else (rd "sourceUrl") (VStr "");
     creator_notes :=
       or_else (rd "creator_notes") (or_else (rd "creatorcomment") (VStr ""));
     mes_example := or_else (rd "mes_example") (VStr "");
     system_prompt := or_else (rd "system_prompt") (VStr "");
     post_history_instructions :=
       or_else (rd "post_history_instructions") (VStr "");
     creator := or_else (rd "creator") (VStr "");
     character_version := or_else (rd "character_version") (VStr "");
     extensions := or_else (rd "extensions") (VObj ∅);
     rawData := raw;
     importDate := now;
     extra_qr_data := rd "extra_qr_data";
     importFormat := fmt |}.

(** [m.k] for an object with own properties [m]. *)
Definition fld (m : gmap string value) (k : string) : value :=
  default VUndef (m !! k).

(** The record built from an object body [m]. *)
Definition character_of (m : gmap string value) := character_from (fld m) (VObj m).

(** A tag as an import leaves it: trimmed and not empty. *)
Definition clean_tag (s : string) : Prop := trim s = s ∧ nonempty s.

(** The export envelope [{ spec, spec_version, data }]. *)
Record Envelope : Type := mkEnvelope {
  spec : string;
  spec_version : string;
  data : gmap string value;
}.

(** [const { keysInput, ...rest } = e; return rest;] *)
Definition strip_keysInput (e : value) : option value :=
  match e with
  | VUndef | VNull => None
  | _ => Some (VObj (delete "keysInput" (spread e)))
  end.

(** An entry without the helper, and a book with its entry list
    replaced. *)
Definition stripped (e : value) : value := VObj (delete "keysInput" (spread e)).

Definition with_entries (cb : value) (l : list value) : value :=
  VObj (<["entries" := VArr l]> (spread cb)).

(** The [character_book] entry of [editedFields]: the record's book with
    the helper stripped from every entry, or [base.character_book] when the
    record has none. *)
Definition export_book_of (cb fallback : value) : option value :=
  if truthy cb then
    entries ← get cb "entries";
    es ← call_map (or_else entries (VArr [])) strip_keysInput;
    Some (VObj (<["entries" := es]> (spread cb)))
  else Some fallback.

Definition export_book (c : Character) (base : gmap string value) : option value :=
  export_book_of (character_book c) (default VUndef (base !! "character_book")).

Definition editedFields (c : Character) (book : value) : gmap string value :=
  list_to_map [
    ("name", name c);
    ("description", description c);
    ("personality", personality c);
    ("first_mes", firstMessage c);
    ("alternate_greetings", or_else (alternate_greetings c) (VArr []));
    ("scenario", or_else (scenario c) (VStr ""));
    ("mes_example", or_else (mes_example c) (VStr ""));
    ("system_prompt", or_else (system_prompt c) (VStr ""));
    ("post_history_instructions",
       or_else (post_history_instructions c) (VStr ""));
    ("creator_notes", or_else (creator_notes c) (VStr ""));
    ("creator", or_else (creator c) (VStr ""));
    ("character_version", or_else (character_version c) (VStr ""));
    ("tags", or_else (tags c) (VArr []));
    ("extensions", or_else (extensions c) (VObj ∅));
    ("character_book", book)
  ].

(** The keys of [editedFields]: the typed field set of the export. *)
Definition typed_keys : list string :=
  ["name"; "description"; "personality"; "first_mes"; "alternate_greetings";
   "scenario"; "mes_example"; "system_prompt"; "post_history_instructions";
   "creator_notes"; "creator"; "character_version"; "tags"; "extensions";
   "character_book"].

(** [character.rawData ? { ...character.rawData } : {}] *)
Definition export_base (c : Character) : gmap string value :=
  if truthy (rawData c) then spread (rawData c) else ∅.

(** [{ ...base, ...editedFields }] wrapped in the version-2 envelope. *)
Definition buildExportData (c : Character) : option Envelope :=
  book ← export_book c (export_base c);
  Some {| spec := "chara_card_v2";
          spec_version := "2.0";
          data := editedFields c book ∪ export_base c |}.

(** The envelope as the object a later import receives. *)
Definition envelope_value (e : Envelope) : value :=
  VObj (list_to_map [("spec", VStr (spec e));
                     ("spec_version", VStr (spec_version e));
                     ("data", VObj (data e))]).

(** One export followed by a re-import of the exported object; the file
    name, avatar, identifier and clock of the new import are arbitrary. *)
Inductive cycle (c c' : Character) : Prop :=
| cycle_intro e fileName avatar ident fmt now :
    buildExportData c = Some e →
    buildCharacter (envelope_value e) fileName avatar ident fmt now = Some c' →
    cycle c c'.

(** [base.k] for the shallow copy of the record's [rawData]. *)
Definition raw_field (c : Character) (k : string) : value :=
  default VUndef (export_base c !! k).

(** A record whose typed values are fixed points of the import mapping:
    re-importing its export gives back the same typed values. *)
Record normalised (c : Character) : Prop := mkNormalised {
  norm_name : truthy (name c) = true;
  norm_description : or_else (description c) (VStr "") = description c;
  norm_personality : or_else (personality c) (VStr "") = personality c;
  norm_firstMessage :
    or_else (firstMessage c)
      (or_else (raw_field c "firstMessage")
         (or_else (raw_field c "intro")
            (or_else (raw_field c "greeting") (VStr "")))) = firstMessage c;
  norm_creator_notes :
    truthy (creator_notes c) = true ∨
    truthy (raw_field c "creatorcomment") = false;
  norm_tags :
    tags_of (or_else (tags c) (VArr [])) = Some (or_else (tags c) (VArr []));
  norm_book :
    ∃ b cb, export_book c (export_base c) = Some b ∧
            book_of b = Some cb ∧ export_book_of cb b = Some b;
}.

(** ** Quick-reply objects *)

(** The object literal of [exportQrData] before the current list is put
    in. *)
Definition qr_scaffold : gmap string value :=
  list_to_map [
    ("version", VNum 2); ("name", VStr "QR Export");
    ("disableSend", VBool false); ("placeBeforeInput", VBool false);
    ("injectInput", VBool false);
    ("color", VStr "rgba(0, 0, 0, 0)"); ("onlyBorderColor", VBool false)
  ].

(** [exportQrData(qrList, extraData = {})]: the object that is serialised. *)
Definition exportQrData (qrList extraData : value) : gmap string value :=
  let extra := match extraData with VUndef => VObj ∅ | v => v end in
  <["qrList" := qrList]> (spread extra ∪ qr_scaffold).

(** The quick-reply object written into an archive by
    [exportCharacterData] and by [exportBulkCharacters], under the guard
    [qrList && qrList.length > 0]:
<<
  { version: 2, name: `${character.name} QR`, qrList: character.qrList,
    ...(character.extra_qr_data || {}) }
>> *)
Definition zipQrData (c : Character) : option (gmap string value) :=
  nm ← to_string (name c);
  Some (spread (or_else (extra_qr_data c) (VObj ∅))
        ∪ list_to_map [("version", VNum 2); ("name", VStr (nm +:+ " QR"));
                       ("qrList", qrList c)]).

End Card.

(** ** The PNG container: CRC, chunk construction, splice, chunk walk *)

Module Png.
Import JS.
#[local] Open Scope Z_scope.

(** *** Bytes and typed arrays *)

Definition b2z (b : byte) : Z := Z.of_N (Byte.to_N b).

(** The byte stored by an assignment to a [Uint8Array] element. *)
Definition z2b (z : Z) : byte := default x00 (Byte.of_N (Z.to_N (z mod 256))).

(** The bytes of an ASCII literal ([TextEncoder.encode] on ASCII text). *)
Definition ascii_bytes (s : string) : list byte :=
  byte_of_ascii <$> String.list_ascii_of_string s.

(** [buf.slice(s, e)] for non-negative indices. *)
Definition slice (buf : list byte) (s e : nat) : list byte :=
  take (e - s)%nat (drop s buf).

(** [buf.slice(s, e)] with JavaScript's relative (negative) indices. *)
Definition rel_index (len : nat) (i : Z) : nat :=
  if i <? 0 then Z.to_nat (Z.of_nat len + i) else Nat.min (Z.to_nat i) len.

Definition js_slice (buf : list byte) (s e : Z) : list byte :=
  slice buf (rel_index (length buf) s) (rel_index (length buf) e).

(** [dst.set(src, off)]: [None] is the RangeError for an offset that is
    negative or leaves too little room. *)
Definition ta_set (dst src : list byte) (off : Z) : option (list byte) :=
  if (off <? 0) || (Z.of_nat (length dst) <? off + Z.of_nat (length src))
  then None
  else Some (take (Z.to_nat off) dst ++ src
             ++ drop (Z.to_nat off + length src)%nat dst).

(** Big-endian 32-bit words: [DataView.setUint32] and [getUint32].
    [getUint32] is the value of a read whose four bytes lie inside the
    buffer; [dataView_getUint32] is the call itself, with its RangeError. *)
Definition be32 (v : Z) : list byte :=
  [z2b (v / 2 ^ 24); z2b (v / 2 ^ 16); z2b (v / 2 ^ 8); z2b v].

Definition setUint32 (buf : list byte) (off : Z) (v : Z) : option (list byte) :=
  ta_set buf (be32 (v mod 2 ^ 32)) off.

Definition getUint32 (buf : list byte) (off : nat) : Z :=
  match slice buf off (off + 4)%nat with
  | [b0; b1; b2; b3] =>
      b2z b0 * 2 ^ 24 + b2z b1 * 2 ^ 16 + b2z b2 * 2 ^ 8 + b2z b3
  | _ => 0
  end.

(** [dataView.getUint32(off)]: [None] is the RangeError for a read that
    runs past the end of the buffer. *)
Definition dataView_getUint32 (buf : list byte) (off : nat) : option Z :=
  if (length buf <? off + 4)%nat then None else Some (getUint32 buf off).

(** *** JavaScript's 32-bit integer operators *)

Definition toUint32 (z : Z) : Z := z mod 2 ^ 32.

Definition toInt32 (z : Z) : Z :=
  let u := z mod 2 ^ 32 in if u <? 2 ^ 31 then u else u - 2 ^ 32.

(** [a ^ b], [a & b] and [a >>> n] (for [0 <= n < 32]). *)
Definition js_xor (a b : Z) : Z := toInt32 (Z.lxor (toInt32 a) (toInt32 b)).
Definition js_and (a b : Z) : Z := toInt32 (Z.land (toInt32 a) (toInt32 b)).
Definition js_ushr (a n : Z) : Z := Z.shiftr (toUint32 a) n.

(** *** [crcTable] and [crc32] *)

(** [c = c & 1 ? 0xedb88320 ^ (c >>> 1) : c >>> 1] *)
Definition table_step (c : Z) : Z :=
  if js_and c 1 =? 0 then js_ushr c 1 else js_xor 0xedb88320 (js_ushr c 1).

(** [crcTable[n]]: eight steps from [n], stored in a [Uint32Array]. *)
Definition table_entry (n : Z) : Z := toUint32 (Nat.iter 8 table_step n).

Definition crcTable : list Z := (fun n => table_entry (Z.of_nat n)) <$> seq 0 256.

(** [crc = crcTable[(crc ^ buf[i]) & 0xff] ^ (crc >>> 8)] *)
Definition crc_step (crc : Z) (b : byte) : Z :=
  js_xor (nth (Z.to_nat (js_and (js_xor crc (b2z b)) 0xff)) crcTable 0)
         (js_ushr crc 8).

Definition crc32 (buf : list byte) : Z :=
  js_ushr (js_xor (fold_left crc_step buf 0xffffffff) 0xffffffff) 0.

(** The CRC of the PNG specification, over unsigned 32-bit values: the
    table of the reflected polynomial [0xEDB88320], initial value and final
    exclusive-or [0xFFFFFFFF]. *)
Definition reference_bit (c : Z) : Z :=
  if Z.testbit c 0 then Z.lxor 0xEDB88320 (Z.shiftr c 1) else Z.shiftr c 1.

Definition reference_table (n : Z) : Z := Nat.iter 8 reference_bit n.

Definition reference_update (c : Z) (b : byte) : Z :=
  Z.lxor (reference_table (Z.land (Z.lxor c (b2z b)) 0xFF)) (Z.shiftr c 8).

Definition reference_crc (buf : list byte) : Z :=
  Z.lxor (fold_left reference_update buf 0xFFFFFFFF) 0xFFFFFFFF.

(** The top bytes of the 256 table entries. *)
Definition top_bytes : list Z :=
  (fun n => Z.shiftr (reference_table (Z.of_nat n)) 24) <$> seq 0 256.

(** The same CRC bit by bit, without a table. *)
Definition bitwise_update (c : Z) (b : byte) : Z :=
  Nat.iter 8 reference_bit (Z.lxor c (b2z b)).

Definition bitwise_crc (buf : list byte) : Z :=
  Z.lxor (fold_left bitwise_update buf 0xFFFFFFFF) 0xFFFFFFFF.

(** *** The chunk written by [createTavernPng] *)

Definition tEXt_type : list byte := [x74; x45; x58; x74].

Definition keywordBytes : list byte := ascii_bytes "chara".

(** The chunk buffer, filled in the order of the source: length, type,
    keyword, separator, text, then the CRC of bytes [4 .. 8+chunkLength). *)
Definition tavern_chunk (textBytes : list byte) : option (list byte) :=
  let chunkLength := (length keywordBytes + 1 + length textBytes)%nat in
  let b0 := replicate (4 + 4 + chunkLength + 4)%nat x00 in
  b1 ← setUint32 b0 0 (Z.of_nat chunkLength);
  b2 ← ta_set b1 tEXt_type 4;
  b3 ← ta_set b2 keywordBytes 8;
  b4 ← ta_set b3 [x00] (8 + Z.of_nat (length keywordBytes));
  b5 ← ta_set b4 textBytes (8 + Z.of_nat (length keywordBytes) + 1);
  let crcInput := slice b5 4 (4 + 4 + chunkLength)%nat in
  setUint32 b5 (4 + 4 + Z.of_nat chunkLength) (crc32 crcInput).

(** *** Locating IEND and splicing *)

(** [buf[i] === b]; an index past the end reads [undefined]. *)
Definition byte_is (buf : list byte) (i : nat) (b : byte) : bool :=
  match buf !! i with Some x => Byte.eqb x b | None => false end.

Definition is_iend_at (buf : list byte) (i : nat) : bool :=
  byte_is buf i x49 && byte_is buf (i + 1) x45 &&
  byte_is buf (i + 2) x4e && byte_is buf (i + 3) x44.

(** The search loop, [n] iterations from index [i]; [-1] when it ends
    without a match. *)
Fixpoint scan_iend (buf : list byte) (i n : nat) : Z :=
  match n with
  | O => -1
  | S n' => if is_iend_at buf i then Z.of_nat i - 4
            else scan_iend buf (S i) n'
  end.

(** [for (let i = 0; i < uint8Array.length - 7; i++) ...] *)
Definition iendOffset (buf : list byte) : Z := scan_iend buf 0 (length buf - 7)%nat.

Inductive encode_error := MissingIend | RangeError | TypeError.

(** The tail of [createTavernPng]: the rendered PNG [buf] and the chunk are
    copied into a fresh array. *)
Definition splice (buf chunk : list byte) : encode_error + list byte :=
  let off := iendOffset buf in
  if off =? -1 then inl MissingIend
  else
    let final := replicate (length buf + length chunk)%nat x00 in
    match
      f1 ← ta_set final (js_slice buf 0 off) 0;
      f2 ← ta_set f1 chunk off;
      ta_set f2 (js_slice buf off (Z.of_nat (length buf)))
        (off + Z.of_nat (length chunk))
    with
    | Some out => inr out
    | None => inl RangeError
    end.

Section encode.

(** [TextEncoder.encode(encodeBase64Utf8(JSON.stringify(exportRoot)))] *)
Variable payload : Card.Envelope → list byte.

(** [createTavernPng] after the avatar has been rendered to the PNG bytes
    [buf]. *)
Definition createTavernPng (buf : list byte) (c : Card.Character)
    : encode_error + list byte :=
  match Card.buildExportData c with
  | None => inl TypeError
  | Some exportRoot =>
      match tavern_chunk (payload exportRoot) with
      | None => inl RangeError
      | Some chunk => splice buf chunk
      end
  end.

End encode.

(** *** [parseCharacterCard]: the chunk walk *)

Definition PNG_SIG : list byte := [x89; x50; x4e; x47; x0d; x0a; x1a; x0a].

Definition KNOWN_KEYS : list string :=
  ["chara"; "character"; "tavern"; "sillytavern"; "ccv3"].

(** [KNOWN_KEYS.has(kw)] *)
Definition known (kw : string) : bool := bool_decide (kw ∈ KNOWN_KEYS).

(** [txt.trim().startsWith("{") || txt.trim().startsWith("ey")] *)
Definition is_candidate (txt : string) : bool :=
  startsWith (trim txt) "{" || startsWith (trim txt) "ey".

(** The scanner state: [characterData] (initially [null]) and
    [fallbackChunks]. *)
Record scan_state : Type := mkState {
  characterData : value;
  fallbackChunks : list string;
}.

Definition init_state : scan_state := mkState VNull [].

(** [for (let i = dataStart; i < dataEnd; i++) if (buf[i] === 0) { sep = i; break; }]
    with [n] iterations left. *)
Fixpoint find_nul (buf : list byte) (i n : nat) : option nat :=
  match n with
  | O => None
  | S n' => if byte_is buf i x00 then Some i else find_nul buf (S i) n'
  end.

(** The inner loop of the iTXt branch, [n] iterations left: the position
    after the second NUL at or after [cur]. *)
Fixpoint find_text_start (buf : list byte) (cur n nc : nat) : option nat :=
  match n with
  | O => None
  | S n' =>
      if byte_is buf cur x00 then
        if (nc + 1 =? 2)%nat then Some (cur + 1)%nat
        else find_text_start buf (S cur) n' (nc + 1)
      else find_text_start buf (S cur) n' nc
  end.

Section parse.

(** The platform: [new TextDecoder("utf-8").decode], [atob], [JSON.parse]
    and a [DecompressionStream] of the given format ([true] for
    ["deflate-raw"], [false] for ["deflate"]); [None] is a thrown
    exception or a rejected promise. *)
Variable utf8_decode : list byte → string.
Variable atob : string → option string.
Variable JSON_parse : string → option value.
Variable inflate : bool → list byte → option (list byte).

Definition readText (buf : list byte) (start len : nat) : string :=
  utf8_decode (slice buf start (start + len)).

(** The characters of a binary string as bytes. *)
Definition binary_bytes (bin : string) : list byte :=
  byte_of_ascii <$> String.list_ascii_of_string bin.

Definition decodeBase64Utf8 (base64 : string) : option string :=
  let clean := remove_ws base64 in
  match atob clean with
  | Some bin => Some (utf8_decode (binary_bytes bin))
  | None => if startsWith (trim clean) "{" then Some clean else None
  end.

Definition decompressZlib (data : list byte) : string :=
  match inflate true data with
  | Some out => utf8_decode out
  | None =>
      match inflate false data with
      | Some out => utf8_decode out
      | None =>
          if (6 <? length data)%nat then
            match inflate true (slice data 2 (length data - 4)) with
            | Some out => utf8_decode out
            | None => ""
            end
          else ""
      end
  end.

(** The value assigned by
<<
  try { characterData = JSON.parse(decodeBase64Utf8(txt)); }
  catch { try { characterData = JSON.parse(txt); } catch { } }
>>
    if any. *)
Definition interpret (txt : string) : option value :=
  match decodeBase64Utf8 txt ≫= JSON_parse with
  | Some v => Some v
  | None => JSON_parse txt
  end.

(** The two statements shared by the three branches: the candidate push
    and, under a card keyword, the interpretation. *)
Definition take_text (kw_ok : bool) (txt : string) (st : scan_state) : scan_state :=
  {| characterData :=
       if kw_ok then default (characterData st) (interpret txt)
       else characterData st;
     fallbackChunks :=
       if is_candidate txt then fallbackChunks st ++ [txt]
       else fallbackChunks st |}.

(** The decoded text of the chunk of type [type] with payload
    [buf[dataStart .. dataEnd)], and whether its keyword bears a card. *)
Definition chunk_text (type : string) (buf : list byte) (dataStart dataEnd : nat)
    : option (bool * string) :=
  if String.eqb type "tEXt" then
    sep ← find_nul buf dataStart (dataEnd - dataStart);
    let kw := toLowerCase (readText buf dataStart (sep - dataStart)) in
    let txt := readText buf (sep + 1) (dataEnd - sep - 1) in
    Some (known kw, txt)
  else if String.eqb type "zTXt" then
    sep ← find_nul buf dataStart (dataEnd - dataStart);
    let kw := toLowerCase (readText buf dataStart (sep - dataStart)) in
    let compressed := slice buf (sep + 2) dataEnd in
    let txt := decompressZlib compressed in
    if String.eqb txt "" then None else Some (known kw, txt)
  else if String.eqb type "iTXt" then
    sep ← find_nul buf dataStart (dataEnd - dataStart);
    let kw := toLowerCase (readText buf dataStart (sep - dataStart)) in
    let compressed := byte_is buf (sep + 1) x01 in
    textStart ← find_text_start buf (sep + 3) (dataEnd - (sep + 3)) 0;
    if (textStart <? dataEnd)%nat then
      let raw := slice buf textStart dataEnd in
      let txt := if compressed then decompressZlib raw
                 else readText buf textStart (dataEnd - textStart) in
      if String.eqb txt "" then None
      else Some (known kw || String.eqb kw "", txt)
    else None
  else None.

Definition chunk_step (type : string) (buf : list byte) (dataStart dataEnd : nat)
    (st : scan_state) : scan_state :=
  match chunk_text type buf dataStart dataEnd with
  | Some (kw_ok, txt) => take_text kw_ok txt st
  | None => st
  end.

(** [while (offset < uint8Array.length) { ... }], at most [fuel]
    iterations. *)
Fixpoint walk (fuel : nat) (buf : list byte) (offset : nat) (st : scan_state)
    : scan_state :=
  match fuel with
  | O => st
  | S fuel' =>
      if negb (offset <? length buf)%nat then st
      else if (length buf <? offset + 8)%nat then st
      else
        let len := getUint32 buf offset in
        let type := readText buf (offset + 4) 4 in
        let dataStart := (offset + 8)%nat in
        if Z.of_nat (length buf) <? Z.of_nat dataStart + len then st
        else
          let dataEnd := (dataStart + Z.to_nat len)%nat in
          walk fuel' buf (dataEnd + 4) (chunk_step type buf dataStart dataEnd st)
  end.

(** Every iteration advances by at least twelve bytes, so [length buf]
    iterations are enough. *)
Definition scan (buf : list byte) : scan_state :=
  walk (length buf) buf 8 init_state.

(** The same loop with the exception it could raise: the header read
    [dataView.getUint32(offset)] is the one statement of the body that can
    throw outside a [try] block ([slice], [TextDecoder.decode] and an
    element read past the end do not throw), and [None] is its
    RangeError leaving the loop. *)
Fixpoint walk_checked (fuel : nat) (buf : list byte) (offset : nat)
    (st : scan_state) : option scan_state :=
  match fuel with
  | O => Some st
  | S fuel' =>
      if negb (offset <? length buf)%nat then Some st
      else if (length buf <? offset + 8)%nat then Some st
      else
        len ← dataView_getUint32 buf offset;
        let type := readText buf (offset + 4) 4 in
        let dataStart := (offset + 8)%nat in
        if Z.of_nat (length buf) <? Z.of_nat dataStart + len then Some st
        else
          let dataEnd := (dataStart + Z.to_nat len)%nat in
          walk_checked fuel' buf (dataEnd + 4)
            (chunk_step type buf dataStart dataEnd st)
  end.

Definition scan_checked (buf : list byte) : option scan_state :=
  walk_checked (length buf) buf 8 init_state.

(** [d.name || d.data?.name]; [None] is the TypeError for [d = null]. *)
Definition has_name (d : value) : option bool :=
  nm ← get d "name";
  if truthy nm then Some true
  else dt ← get d "data"; Some (truthy (get_opt dt "name")).

(** One iteration of the fallback loop: the accepted object, if any. *)
Definition fallback_accept (chunk : string) : option value :=
  let raw :=
    match JSON_parse chunk with
    | Some d => if bool_decide (has_name d = Some true) then Some d else None
    | None => None
    end in
  match decodeBase64Utf8 chunk ≫= JSON_parse with
  | Some d =>
      match has_name d with
      | Some true => Some d
      | Some false => None
      | None => raw
      end
  | None => raw
  end.

Fixpoint first_accepted (chunks : list string) : option value :=
  match chunks with
  | [] => None
  | chunk :: rest =>
      match fallback_accept chunk with
      | Some d => Some d
      | None => first_accepted rest
      end
  end.

Inductive parse_error := NotPng | NoCardData.

(** [uint8Array[i] !== PNG_SIG[i]] for no [i] below 8. *)
Definition check_signature (buf : list byte) : bool :=
  forallb (fun i => byte_is buf i (default x00 (PNG_SIG !! i))) (seq 0 8).

(** [characterData] after the fallback block. *)
Definition resolve (st : scan_state) : value :=
  if negb (truthy (characterData st)) && (0 <? length (fallbackChunks st))%nat
  then default (characterData st) (first_accepted (fallbackChunks st))
  else characterData st.

(** [parseCharacterCard] up to the decoded root object handed to
    [buildCharacter]. *)
Definition parseCardData (buf : list byte) : parse_error + value :=
  if negb (check_signature buf) then inl NotPng
  else
    let cd := resolve (scan buf) in
    if truthy cd then inr cd else inl NoCardData.

(** The same with the exceptions of the walk: [None] is an exception other
    than the two errors the function throws itself. *)
Definition parseCardData_checked (buf : list byte)
    : option (parse_error + value) :=
  if negb (check_signature buf) then Some (inl NotPng)
  else
    st ← scan_checked buf;
    let cd := resolve st in
    Some (if truthy cd then inr cd else inl NoCardData).

End parse.

(** *** Chunks as data *)

Record chunk : Type := mkChunk {
  ctype : list byte;
  cdata : list byte;
  ccrc : list byte;
}.

Definition wf_chunk (c : chunk) : Prop :=
  length (ctype c) = 4%nat ∧ length (ccrc c) = 4%nat ∧
  Z.of_nat (length (cdata c)) < 2 ^ 32.

Definition chunk_bytes (c : chunk) : list byte :=
  be32 (Z.of_nat (length (cdata c))) ++ ctype c ++ cdata c ++ ccrc c.

Definition chunks_bytes (cs : list chunk) : list byte :=
  concat (chunk_bytes <$> cs).

(** A tail at which the walk stops: fewer than eight bytes, or a header
    whose declared length runs past the end. *)
Definition truncated (tail : list byte) : Prop :=
  (length tail < 8)%nat ∨
  Z.of_nat (length tail) < 8 + getUint32 tail 0.

Section chunk_semantics.

Variable utf8_decode : list byte → string.
Variable atob : string → option string.
Variable JSON_parse : string → option value.
Variable inflate : bool → list byte → option (list byte).

(** The handling of a chunk, read off its own type and payload. *)
Definition payload_text (c : chunk) : option (bool * string) :=
  chunk_text utf8_decode inflate (utf8_decode (ctype c)) (cdata c)
    0 (length (cdata c)).

Definition payload_step (st : scan_state) (c : chunk) : scan_state :=
  chunk_step utf8_decode atob JSON_parse inflate (utf8_decode (ctype c))
    (cdata c) 0 (length (cdata c)) st.

(** The value a chunk assigns to [characterData], if it assigns one. *)
Definition recorded (c : chunk) : option value :=
  match payload_text c with
  | Some (true, txt) => interpret utf8_decode atob JSON_parse txt
  | _ => None
  end.

(** The text a chunk pushes onto [fallbackChunks], if it pushes one. *)
Definition candidate (c : chunk) : option string :=
  match payload_text c with
  | Some (_, txt) => if is_candidate txt then Some txt else None
  | None => None
  end.

End chunk_semantics.

End Png.

(** ** [buildCharacter] over a store of shared objects

    Objects and arrays live in a store and are referred to by location, so
    that the record's [rawData] and the decoded source are the same object
    and a write to one would be seen through the other.  The store is a
    list; an allocation appends, and nothing else writes. *)

Module Heap.
Import JS.

Abbreviation loc := nat (only parsing).

Inductive hval : Type :=
| HUndef
| HNull
| HBool (b : bool)
| HNum (n : Z)
| HStr (s : string)
| HRef (l : loc)
| HFun.

Inductive hobj : Type :=
| HObject (props : gmap string hval)
| HArray (elems : list hval).

(** A computation that reads and extends the store and may throw. *)
Definition M (A : Type) : Type := list hobj → option (A * list hobj).

#[global] Instance M_ret : MRet M := λ A a h, Some (a, h).

#[global] Instance M_bind : MBind M := λ A B f m h,
  match m h with
  | Some (a, h') => f a h'
  | None => None
  end.

(** A read of the store that may throw. *)
Definition read {A} (f : list hobj → option A) : M A := λ h,
  match f h with
  | Some a => Some (a, h)
  | None => None
  end.

(** An object or array literal, or the result of an array method. *)
Definition alloc (o : hobj) : M hval := λ h, Some (HRef (length h), h ++ [o]).

Definition h_truthy (v : hval) : bool :=
  match v with
  | HUndef | HNull => false
  | HBool b => b
  | HNum n => negb (n =? 0)%Z
  | HStr s => negb (String.eqb s "")
  | HRef _ | HFun => true
  end.

Definition h_or (a b : hval) : hval := if h_truthy a then a else b.

(** [a || literal]: the literal is allocated only when [a] is falsy. *)
Definition or_alloc (a : hval) (o : hobj) : M hval :=
  if h_truthy a then mret a else alloc o.

Definition h_get (h : list hobj) (v : hval) (k : string) : option hval :=
  match v with
  | HUndef | HNull => None
  | HRef l =>
      match h !! l with
      | Some (HObject m) => Some (default HUndef (m !! k))
      | Some (HArray _) => Some (if array_method k then HFun else HUndef)
      | None => Some HUndef
      end
  | HBool _ | HNum _ | HStr _ | HFun => Some HUndef
  end.

Definition h_get_opt (h : list hobj) (v : hval) (k : string) : hval :=
  default HUndef (h_get h v k).

Definition h_chars (s : string) : list hval :=
  (fun a => HStr (String a EmptyString)) <$> String.list_ascii_of_string s.

Definition h_spread (h : list hobj) (v : hval) : gmap string hval :=
  match v with
  | HRef l =>
      match h !! l with
      | Some (HObject m) => m
      | Some (HArray es) => index_map es
      | None => ∅
      end
  | HStr s => index_map (h_chars s)
  | _ => ∅
  end.

(** The elements of an array value; [None] for anything else. *)
Definition h_elems (h : list hobj) (v : hval) : option (list hval) :=
  match v with
  | HRef l => match h !! l with Some (HArray es) => Some es | _ => None end
  | _ => None
  end.

Fixpoint mapM_h {A B} (f : A → M B) (l : list A) : M (list B) :=
  match l with
  | [] => mret []
  | x :: l' => y ← f x; ys ← mapM_h f l'; mret (y :: ys)
  end.

Record CharacterH : Type := mkCharacterH {
  id : string;
  name : hval;
  description : hval;
  personality : hval;
  firstMessage : hval;
  alternate_greetings : hval;
  scenario : hval;
  character_book : hval;
  tags : hval;
  avatarUrl : string;
  qrList : hval;
  originalFilename : string;
  sourceUrl : hval;
  creator_notes : hval;
  mes_example : hval;
  system_prompt : hval;
  post_history_instructions : hval;
  creator : hval;
  character_version : hval;
  extensions : hval;
  rawData : hval;
  importDate : Z;
  extra_qr_data : hval;
  importFormat : Card.format;
}.

Section build.

(** [String(v)], which reads the store and leaves it as it is. *)
Variable to_string_h : list hobj → hval → option string.

Definition h_str_eq (v : hval) (s : string) : bool :=
  match v with HStr s' => String.eqb s' s | _ => false end.

Definition unwrap_h (h : list hobj) (rawRoot : hval) : option hval :=
  spec ← h_get h rawRoot "spec";
  data ← h_get h rawRoot "data";
  nm ← h_get h rawRoot "name";
  if h_str_eq spec "chara_card_v2" && h_truthy data then Some data
  else if negb (h_truthy nm) && h_truthy (h_get_opt h data "name")
       then Some data
  else Some rawRoot.

Definition h_join (h : list hobj) (sep : string) (l : list hval) : option string :=
  join_with sep <$>
    mapM (fun x => match x with
                   | HUndef | HNull => Some ""
                   | _ => to_string_h h x
                   end) l.

(** [tags]: the initial [[]] literal, then [map] and [filter] (and
    [split]) each return a new array. *)
Definition tags_of_h (t : hval) : M hval :=
  empty ← alloc (HArray []);
  match t with
  | HStr s =>
      _ ← alloc (HArray (HStr <$> split_comma s));
      _ ← alloc (HArray (HStr <$> (trim <$> split_comma s)));
      alloc (HArray (HStr <$> filter Card.nonempty (trim <$> split_comma s)))
  | HRef _ =>
      es ← read (fun h => Some (h_elems h t));
      match es with
      | Some ts =>
          ss ← read (fun h => mapM (fun x => trim <$> to_string_h h x) ts);
          _ ← alloc (HArray (HStr <$> ss));
          alloc (HArray (HStr <$> filter Card.nonempty ss))
      | None => mret empty
      end
  | _ => mret empty
  end.

(** [({ ...e, keysInput: ... })]: a new object per entry. *)
Definition add_keysInput_h (e : hval) : M hval :=
  ki ← read (fun h =>
         keys ← h_get h e "keys";
         match h_elems h keys with
         | Some ks => h_join h ", " ks
         | None => Some ""
         end);
  props ← read (fun h => Some (h_spread h e));
  alloc (HObject (<["keysInput" := HStr ki]> props)).

(** The typed book: a new array of new entries in a new book object. *)
Definition book_of_h (cb : hval) : M hval :=
  entries ← read (fun h => Some (h_get_opt h cb "entries"));
  if h_truthy entries then
    es ← read (fun h => h_elems h entries);
    es' ← mapM_h add_keysInput_h es;
    arr ← alloc (HArray es');
    props ← read (fun h => Some (h_spread h cb));
    alloc (HObject (<["entries" := arr]> props))
  else mret cb.

Definition buildCharacter_h (rawRoot : hval) (fileName avatar ident : string)
    (fmt : Card.format) (now : Z) : M CharacterH :=
  d ← read (fun h => unwrap_h h rawRoot);
  d_tags ← read (fun h => h_get h d "tags");
  tgs ← tags_of_h d_tags;
  cb ← read (fun h => h_get h d "character_book");
  book ← book_of_h cb;
  rd ← read (fun h => Some (h_get_opt h d));
  ag ← or_alloc (h_or (rd "alternate_greetings") (rd "alternate_greeting"))
         (HArray []);
  qr ← or_alloc (rd "qrList") (HArray []);
  ext ← or_alloc (rd "extensions") (HObject ∅);
  mret {|
    id := ident;
    name := h_or (rd "name") (HStr "Unknown");
    description := h_or (rd "description") (HStr "");
    personality := h_or (rd "personality") (HStr "");
    firstMessage :=
      h_or (rd "first_mes")
        (h_or (rd "firstMessage") (h_or (rd "intro") (h_or (rd "greeting") (HStr ""))));
    alternate_greetings := ag;
    scenario := h_or (rd "scenario") (HStr "");
    character_book := book;
    tags := tgs;
    avatarUrl := avatar;
    qrList := qr;
    originalFilename := fileName;
    sourceUrl := h_or (rd "sourceUrl") (HStr "");
    creator_notes :=
      h_or (rd "creator_notes") (h_or (rd "creatorcomment") (HStr ""));
    mes_example := h_or (rd "mes_example") (HStr "");
    system_prompt := h_or (rd "system_prompt") (HStr "");
    post_history_instructions := h_or (rd "post_history_instructions") (HStr "");
    creator := h_or (rd "creator") (HStr "");
    character_version := h_or (rd "character_version") (HStr "");
    extensions := ext;
    rawData := d;
    importDate := now;
    extra_qr_data := rd "extra_qr_data";
    importFormat := fmt;
  |}.

End build.

(** A computation under which the store only grows. *)
Definition grows {A} (m : M A) : Prop :=
  ∀ h a h', m h = Some (a, h') → h `prefix_of` h'.

(** An entry built by the import: a new object that carries the helper. *)
Definition helper_entry (h0 h' : list hobj) (e : hval) : Prop :=
  ∃ l m, e = HRef l ∧ length h0 ≤ l ∧ h' !! l = Some (HObject m) ∧
         is_Some (m !! "keysInput").

(** The store only grew: every object it held is still there, unchanged. *)
Definition preserved (h h' : list hobj) : Prop :=
  ∀ l o, h !! l = Some o → h' !! l = Some o.

(** A value that refers to an object allocated after [h]. *)
Definition fresh_in (h : list hobj) (v : hval) : Prop :=
  match v with HRef l => length h ≤ l | _ => False end.

(** A value whose reference, if it is one, is allocated in [h]; a store
    all of whose stored references are allocated. *)
Definition valid (h : list hobj) (v : hval) : Prop :=
  match v with HRef l => l < length h | _ => True end.

Definition valid_obj (h : list hobj) (o : hobj) : Prop :=
  match o with
  | HObject m => map_Forall (fun _ v => valid h v) m
  | HArray es => Forall (valid h) es
  end.

Definition closed (h : list hobj) : Prop := Forall (valid_obj h) h.

#[global] Instance valid_dec h v : Decision (valid h v).
Proof. destruct v; simpl; apply _. Defined.

#[global] Instance valid_obj_dec h o : Decision (valid_obj h o).
Proof. destruct o; simpl; apply _. Defined.

#[global] Instance closed_dec h : Decision (closed h).
Proof. unfold closed. apply _. Defined.

(** The tree a value stands for, read through the store to depth
    [fuel]. *)
Fixpoint reify (fuel : nat) (h : list hobj) (v : hval) : value :=
  match v with
  | HUndef => VUndef
  | HNull => VNull
  | HBool b => VBool b
  | HNum n => VNum n
  | HStr s => VStr s
  | HFun => VFun
  | HRef l =>
      match fuel with
      | O => VUndef
      | S fuel' =>
          match h !! l with
          | Some (HObject m) => VObj (reify fuel' h <$> m)
          | Some (HArray es) => VArr (reify fuel' h <$> es)
          | None => VUndef
          end
      end
  end.

End Heap.

(** ** The image store: [saveImage] and [loadImage]

    The key-value store of the image service ([src/unnamed/part_001]) as a
    finite map from keys to blobs; the store is taken to accept every
    write. *)

Module Images.

Definition store : Type := gmap string (list byte).

(** [`char_image_${id}`] *)
Definition image_key (id : string) : string := "char_image_" +:+ id.

Definition saveImage (id : string) (blob : list byte) (st : store) : store :=
  <[image_key id := blob]> st.

Definition loadImage (id : string) (st : store) : option (list byte) :=
  st !! image_key id.

End Images.

(** ** The two importers: [parseCharacterCard] and [parseCharacterJson] *)

Module Importers.
Import JS Card Png.

Inductive import_error :=
| CardError (e : parse_error)
| InvalidJson
| ImportTypeError.

(** [s.includes(sub)] *)
Fixpoint includes (s sub : string) : bool :=
  String.prefix sub s ||
  match s with
  | String _ s' => includes s' sub
  | EmptyString => false
  end.

Section importers.

Variable utf8_decode : list byte → string.
Variable atob : string → option string.
Variable JSON_parse : string → option value.
Variable inflate : bool → list byte → option (list byte).

(** [parseCharacterCard] on the bytes of the file; [ident] is the fresh
    identifier, [avatar] the object URL made for the file, [now] the
    clock.  The file is stored under the identifier before the record is
    built. *)
Definition parseCharacterCard (buf : list byte) (fileName avatar ident : string)
    (now : Z) (st : Images.store) : (import_error + Character) * Images.store :=
  match parseCardData utf8_decode atob JSON_parse inflate buf with
  | inl e => (inl (CardError e), st)
  | inr characterData =>
      let st' := Images.saveImage ident buf st in
      match buildCharacter characterData fileName avatar ident FmtPng now with
      | Some c => (inr c, st')
      | None => (inl ImportTypeError, st')
      end
  end.

(** [`https://picsum.photos/seed/${id}/400/400`] *)
Definition placeholder_avatar (ident : string) : string :=
  "https://picsum.photos/seed/" +:+ ident +:+ "/400/400".

(** [parseCharacterJson] on the text of the file. *)
Definition parseCharacterJson (text fileName ident : string) (now : Z)
    : import_error + Character :=
  match JSON_parse text with
  | None => inl InvalidJson
  | Some data =>
      match buildCharacter data fileName (placeholder_avatar ident) ident
              FmtJson now with
      | Some c => inr c
      | None => inl ImportTypeError
      end
  end.

End importers.

End Importers.

(** ** Quick-reply files: [parseQrFile] *)

Module Qr.
Import JS Card.

(** The two causes of the error [parseQrFile] throws; both surface with
    the same message prefix, the inner error being caught and wrapped by
    the function's own handler. *)
Inductive qr_error := QrNotJson | QrNoList.

Section parse.

Variable JSON_parse : string → option value.

(** The pair [{ list, raw }]. *)
Definition parseQrFile (text : string) : qr_error + (value * value) :=
  match JSON_parse text with
  | None => inl QrNotJson
  | Some data =>
      if truthy data && isArray (get_opt data "qrList")
      then inr (get_opt data "qrList", data)
      else if truthy data && isArray (get_opt data "quickReplySlots")
      then inr (get_opt data "quickReplySlots", data)
      else if isArray data
      then inr (data, VObj {["qrList" := data]})
      else inl QrNoList
  end.

End parse.

End Qr.

(** ** File names of the exports *)

Module Archive.
Import JS Card Png.

(** A character of the class [[^/.]]. *)
Definition ext_char (a : ascii) : bool :=
  negb (Ascii.eqb a "."%char || Ascii.eqb a "/"%char).

Fixpoint all_ext (s : string) : bool :=
  match s with
  | EmptyString => true
  | String a s' => ext_char a && all_ext s'
  end.

(** [s.replace(/\.[^/.]+$/, "")]: the leftmost dot followed, up to the end
    of the string, by one or more characters other than dot and slash is
    removed together with them. *)
Fixpoint strip_ext (s : string) : string :=
  match s with
  | EmptyString => EmptyString
  | String a s' =>
      if Ascii.eqb a "."%char && negb (String.eqb s' "") && all_ext s'
      then EmptyString
      else String a (strip_ext s')
  end.

Definition ext_of (f : format) : string :=
  match f with FmtJson => "json" | FmtPng => "png" end.

(** The content of a card file before serialisation. *)
Inductive file_data :=
| PngData (bytes : list byte)
| JsonData (e : Envelope).

Section names.

(** [name.replace(/[^a-z0-9\u4e00-\u9fa5]/gi, "_").toLowerCase()], a
    substitution code unit by code unit whose class ranges over code units
    the string model does not hold. *)
Variable safe_name : string → string.

(** [TextEncoder.encode(encodeBase64Utf8(JSON.stringify(exportRoot)))] *)
Variable payload : Envelope → list byte.

(** [base] of [exportCharacterData]; [None] is the TypeError for a name
    without a [replace] method. *)
Definition base_name (c : Character) : option string :=
  if negb (String.eqb (originalFilename c) "")
  then Some (strip_ext (originalFilename c))
  else match name c with
       | VStr s => Some (safe_name s)
       | _ => None
       end.

(** [filename] and [base] of [exportBulkCharacters]. *)
Definition bulk_filename (c : Character) : option string :=
  if negb (String.eqb (originalFilename c) "")
  then Some (originalFilename c)
  else match name c with
       | VStr s => Some (safe_name s +:+ "." +:+ ext_of (importFormat c))
       | _ => None
       end.

Definition bulk_base (c : Character) : option string :=
  strip_ext <$> bulk_filename c.

(** The card file of an archive: the PNG when it is asked for and
    [createTavernPng] succeeds on the rendered avatar [rendered] ([None]
    when the image cannot be loaded or drawn), the JSON export otherwise.
    [None] is the exception of [buildExportData]. *)
Definition card_file (rendered : option (list byte)) (c : Character)
    (base : string) (png : bool) : option (string * file_data) :=
  let json := e ← buildExportData c; Some (base +:+ ".json", JsonData e) in
  if png then
    match rendered with
    | Some buf =>
        match createTavernPng payload buf c with
        | inr out => Some (base +:+ ".png", PngData out)
        | inl _ => json
        end
    | None => json
    end
  else json.

(** The card file written by [exportCharacterData] with [forceZip], and
    by [exportBulkCharacters]. *)
Definition zip_card_file (rendered : option (list byte)) (c : Character)
    (fmt : format) : option (string * file_data) :=
  base ← base_name c;
  card_file rendered c base (match fmt with FmtPng => true | FmtJson => false end).

Definition bulk_card_file (rendered : option (list byte)) (c : Character)
    : option (string * file_data) :=
  base ← bulk_base c;
  card_file rendered c base
    (match importFormat c with FmtJson => false | FmtPng => true end).

End names.

End Archive.

(** ** The editor: handlers of the character form *)

Module Editor.
Import JS Card.

(** [(patch.keysInput || '').split(',').map(k => k.trim()).filter(Boolean)];
    [None] is the TypeError for a truthy value without a [split]
    method. *)
Definition keys_of_input (ki : value) : option value :=
  match or_else ki (VStr "") with
  | VStr s => Some (VArr (VStr <$> filter nonempty (trim <$> split_comma s)))
  | _ => None
  end.

(** A string the comma-separated input can express as one item. *)
Definition comma_free (s : string) : Prop :=
  ","%char ∉ String.list_ascii_of_string s.

(** The entry [{ ...e, ...patch }] of [updateEntry], with [keys] derived
    from [keysInput] when the patch has that property. *)
Definition patched (e : value) (patch : gmap string value) : option value :=
  let updated := patch ∪ spread e in
  if decide (is_Some (patch !! "keysInput")) then
    ks ← keys_of_input (fld patch "keysInput");
    Some (VObj (<["keys" := ks]> updated))
  else Some (VObj updated).

(** [Array.isArray(tags) ? tags : []] *)
Definition tag_list (tags : value) : list value :=
  match tags with VArr l => l | _ => [] end.

(** [tags.includes(val)] for a string [val]. *)
Definition includes_tag (l : list value) (val : string) : bool :=
  existsb (fun t => str_eq t val) l.

(** The [tags] of the form after [handleAddTag] on the input text. *)
Definition handleAddTag (tags : value) (input : string) : value :=
  let val := trim input in
  let l := tag_list tags in
  if negb (String.eqb val "") && negb (includes_tag l val)
  then VArr (l ++ [VStr val])
  else tags.

(** [tags.filter(t => t !== tag)] of [removeTag]. *)
Definition removeTag (tags : value) (tag : string) : value :=
  VArr (filter (fun t => str_eq t tag = false) (tag_list tags)).

(** [[...(alternate_greetings || [])]]: [None] is the TypeError for a
    truthy value that is not iterable. *)
Definition greetings (alts : value) : option (list value) :=
  match or_else alts (VArr []) with
  | VArr l => Some l
  | VStr s => Some (chars s)
  | _ => None
  end.

(** [arr[idx] = v]: an index past the end extends the array, the
    elements in between reading as [undefined]. *)
Definition assign_at (l : list value) (idx : nat) (v : value) : list value :=
  if decide (idx < length l) then <[idx := v]> l
  else l ++ replicate (idx - length l) VUndef ++ [v].

(** The pair [(firstMessage, alternate_greetings)] after [setAsMain]. *)
Definition setAsMain (firstMessage alts : value) (idx : nat)
    : option (value * value) :=
  l ← greetings alts;
  let oldMain := or_else firstMessage (VStr "") in
  let newMain := default VUndef (l !! idx) in
  Some (newMain, VArr (assign_at l idx oldMain)).

(** [getFullCharacter], restricted to the fields [buildCharacter] fills:
    [initialData] is the record the form was opened with, if any,
    [formData] the state of the form, [uuid] and [now] the fresh identifier
    and the clock. *)
Definition getFullCharacter (initialData : option Character)
    (formData : Character) (uuid : string) (now : Z) : Character :=
  {| id := match initialData with
           | Some c0 => if String.eqb (id c0) "" then uuid else id c0
           | None => uuid
           end;
     name := or_else (name formData) (VStr "Unknown");
     description := or_else (description formData) (VStr "");
     personality := or_else (personality formData) (VStr "");
     firstMessage := or_else (firstMessage formData) (VStr "");
     alternate_greetings := or_else (alternate_greetings formData) (VArr []);
     scenario := or_else (scenario formData) (VStr "");
     character_book := character_book formData;
     tags := or_else (tags formData) (VArr []);
     avatarUrl := avatarUrl formData;
     qrList := or_else (qrList formData) (VArr []);
     originalFilename := originalFilename formData;
     sourceUrl := or_else (sourceUrl formData) (VStr "");
     creator_notes := or_else (creator_notes formData) (VStr "");
     mes_example := or_else (mes_example formData) (VStr "");
     system_prompt := or_else (system_prompt formData) (VStr "");
     post_history_instructions :=
       or_else (post_history_instructions formData) (VStr "");
     creator := or_else (creator formData) (VStr "");
     character_version := or_else (character_version formData) (VStr "");
     extensions := or_else (extensions formData) (VObj ∅);
     rawData := or_else (rawData formData)
                  (match initialData with
                   | Some c0 => rawData c0
                   | None => VUndef
                   end);
     importDate := match initialData with
                   | Some c0 => if (importDate c0 =? 0)%Z then now
                                else importDate c0
                   | None => now
                   end;
     extra_qr_data := extra_qr_data formData;
     importFormat := match initialData with
                     | Some c0 => importFormat c0
                     | None => FmtPng
                     end |}.

End Editor.

(** ** A concrete platform for closed examples *)

Module Sample.
Import JS Png.

(** Decoding of ASCII bytes, on which UTF-8 and Latin-1 agree. *)
Definition latin1_decode (l : list byte) : string :=
  String.string_of_list_ascii (ascii_of_byte <$> l).

(** [atob]: the forgiving base64 decoder of the HTML standard. *)
Definition b64_value (a : ascii) : option N :=
  let n := N_of_ascii a in
  if ((65 <=? n) && (n <=? 90))%N then Some (n - 65)%N
  else if ((97 <=? n) && (n <=? 122))%N then Some (n - 71)%N
  else if ((48 <=? n) && (n <=? 57))%N then Some (n + 4)%N
  else if (n =? 43)%N then Some 62%N
  else if (n =? 47)%N then Some 63%N
  else None.

Definition is_ascii_ws (a : ascii) : bool :=
  let n := N_of_ascii a in
  ((n =? 9) || (n =? 10) || (n =? 12) || (n =? 13) || (n =? 32))%N.

Fixpoint b64_groups (l : list N) : list N :=
  match l with
  | a :: b :: c :: d :: rest =>
      let n := (a * 262144 + b * 4096 + c * 64 + d)%N in
      (n / 65536)%N :: ((n / 256) mod 256)%N :: (n mod 256)%N :: b64_groups rest
  | [a; b; c] =>
      let n := (a * 4096 + b * 64 + c)%N in
      [(n / 1024)%N; ((n / 4) mod 256)%N]
  | [a; b] => [((a * 64 + b) / 16)%N]
  | _ => []
  end.

Definition strip_padding (l : list ascii) : list ascii :=
  if (length l mod 4 =? 0)%nat then
    match reverse l with
    | "="%char :: "="%char :: r => reverse r
    | "="%char :: r => reverse r
    | _ => l
    end
  else l.

Definition atob (s : string) : option string :=
  let l := strip_padding (filter (fun a => is_ascii_ws a = false)
                            (String.list_ascii_of_string s)) in
  if (length l mod 4 =? 1)%nat then None
  else
    vs ← mapM b64_value l;
    Some (String.string_of_list_ascii (ascii_of_N <$> b64_groups vs)).

(** No decompression stream is available. *)
Definition inflate (raw : bool) (data : list byte) : option (list byte) := None.

(** A [tEXt] chunk with an ASCII keyword and text, and the PNG frame used
    by the examples. *)
Definition text_chunk (kw txt : string) : chunk :=
  let payload := ascii_bytes kw ++ [x00] ++ ascii_bytes txt in
  mkChunk tEXt_type payload (be32 (crc32 (tEXt_type ++ payload))).

Definition IHDR : chunk :=
  mkChunk (ascii_bytes "IHDR")
    [x00; x00; x00; x01; x00; x00; x00; x01; x08; x06; x00; x00; x00]
    [x1f; x15; xc4; x89].

Definition IEND : chunk := mkChunk (ascii_bytes "IEND") [] [xae; x42; x60; x82].

Definition png_of (cs : list chunk) : list byte :=
  PNG_SIG ++ chunks_bytes (IHDR :: cs ++ [IEND]).

(** JSON text, written with ['] where the text has a double quote. *)
Fixpoint json_text (s : string) : string :=
  match s with
  | EmptyString => EmptyString
  | String a s' =>
      String (if Ascii.eqb a "'"%char then "034"%char else a) (json_text s')
  end.

Definition text_A : string := json_text "{'name':'A'}".
Definition text_B : string := json_text "{'name':'B'}".
Definition text_spaced : string := json_text "{'name':'A B'}".
Definition text_unspaced : string := json_text "{'name':'AB'}".

(** [text_A] laid out on two lines, and its base64 form. *)
Definition text_A_lines : string :=
  String "{"%char (String "010"%char (json_text "'name':'A'}")).
Definition base64_A_lines : string := "ewoibmFtZSI6IkEifQ==".

Definition card (nm : string) : value := VObj {["name" := VStr nm]}.

(** The values of [JSON.parse] on the texts of the examples; every other
    text of the examples is not JSON. *)
Definition JSON_parse (s : string) : option value :=
  if String.eqb s text_A then Some (card "A")
  else if String.eqb s text_B then Some (card "B")
  else if String.eqb s text_A_lines then Some (card "A")
  else if String.eqb s text_spaced then Some (card "A B")
  else if String.eqb s text_unspaced then Some (card "AB")
  else if String.eqb s "false" then Some (VBool false)
  else None.

(** Two card chunks under the primary keyword. *)
Definition two_cards : list chunk :=
  [text_chunk "chara" text_A; text_chunk "chara" text_B].

(** A card chunk, a chunk holding [false], and a chunk cut off after two
    of its hundred declared bytes. *)
Definition overwritten_cards : list chunk :=
  [IHDR; text_chunk "chara" base64_A_lines; text_chunk "chara" "false"].
Definition cut_tail : list byte :=
  be32 100 ++ ascii_bytes "IDAT" ++ [x00; x01].

(** Raw JSON with a space inside a string, under the primary keyword. *)
Definition spaced_card : list chunk := [text_chunk "chara" text_spaced].

(** Cards under a keyword that is not a card keyword. *)
Definition comment_lines : chunk := text_chunk "comment" base64_A_lines.
Definition comment_plain : chunk := text_chunk "comment" text_A.

(** A complete PNG whose image data holds the four bytes 49 45 4E 44. *)
Definition stray_data : chunk :=
  let data := [x78; x9c; x62; x60; x60; x60; x49; x45; x4e; x44; x00; x01] in
  mkChunk (ascii_bytes "IDAT") data (be32 (crc32 (ascii_bytes "IDAT" ++ data))).
Definition stray_png : list byte := png_of [stray_data].

Definition payload (e : Card.Envelope) : list byte := ascii_bytes "e30=".

(** A record whose first message was cleared in the editor while the
    retained body still holds the legacy [intro] key, next to a key the
    typed model does not know. *)
Definition cleared_raw : gmap string value :=
  list_to_map [("name", VStr "A"); ("intro", VStr "hi"); ("custom", VNum 1)].

Definition cleared_greeting : Card.Character :=
  {| Card.id := "1"; Card.name := VStr "A"; Card.description := VStr "";
     Card.personality := VStr ""; Card.firstMessage := VStr "";
     Card.alternate_greetings := VArr []; Card.scenario := VStr "";
     Card.character_book := VUndef; Card.tags := VArr [];
     Card.avatarUrl := "a.png"; Card.qrList := VArr [];
     Card.originalFilename := "a.json"; Card.sourceUrl := VStr "";
     Card.creator_notes := VStr ""; Card.mes_example := VStr "";
     Card.system_prompt := VStr ""; Card.post_history_instructions := VStr "";
     Card.creator := VStr ""; Card.character_version := VStr "";
     Card.extensions := VObj ∅; Card.rawData := VObj cleared_raw;
     Card.importDate := 0; Card.extra_qr_data := VUndef;
     Card.importFormat := Card.FmtJson |}.

(** Its export, the record a re-import of that export gives, and the
    export of that record. *)
Definition cleared_export : Card.Envelope :=
  Card.mkEnvelope "chara_card_v2" "2.0"
    (Card.editedFields cleared_greeting VUndef ∪ cleared_raw).

Definition reimported : Card.Character :=
  Card.character_of (Card.data cleared_export) (VArr []) VUndef
    "a.json" "a.png" "2" Card.FmtJson 0.

Definition reexport : Card.Envelope :=
  Card.mkEnvelope "chara_card_v2" "2.0"
    (Card.editedFields reimported VUndef ∪ Card.data cleared_export).

(** The same body as a fresh import leaves it, and its export. *)
Definition imported : Card.Character :=
  Card.character_of cleared_raw (VArr []) VUndef "a.json" "a.png" "1"
    Card.FmtJson 0.

Definition imported_export : Card.Envelope :=
  Card.mkEnvelope "chara_card_v2" "2.0"
    (Card.editedFields imported VUndef ∪ cleared_raw).

(** A root with an empty [name] next to a nested body. *)
Definition empty_named : gmap string value :=
  list_to_map [("name", VStr ""); ("data", card "A")].

(** A record whose retained quick-reply file still lists the action it
    was imported with, after the list was replaced. *)
Definition qr_item (label : string) : value :=
  VObj (list_to_map [("id", VNum 1); ("label", VStr label);
                     ("message", VStr "Hello!")]).

Definition edited_qr : Card.Character :=
  {| Card.id := "1"; Card.name := VStr "A"; Card.description := VStr "";
     Card.personality := VStr ""; Card.firstMessage := VStr "";
     Card.alternate_greetings := VArr []; Card.scenario := VStr "";
     Card.character_book := VUndef; Card.tags := VArr [];
     Card.avatarUrl := "a.png"; Card.qrList := VArr [qr_item "New"];
     Card.originalFilename := "a.json"; Card.sourceUrl := VStr "";
     Card.creator_notes := VStr ""; Card.mes_example := VStr "";
     Card.system_prompt := VStr ""; Card.post_history_instructions := VStr "";
     Card.creator := VStr ""; Card.character_version := VStr "";
     Card.extensions := VObj ∅; Card.rawData := VObj ∅;
     Card.importDate := 0;
     Card.extra_qr_data := VObj {["qrList" := VArr [qr_item "Old"]]};
     Card.importFormat := Card.FmtJson |}.

(** The quick-reply object an archive export writes for it. *)
Definition archive_qr : gmap string value :=
  {["qrList" := VArr [qr_item "Old"]]}
  ∪ list_to_map [("version", VNum 2); ("name", VStr "A QR");
                 ("qrList", VArr [qr_item "New"])].

(** A decoded card with a one-entry lorebook, as a store: the root, its
    book, the entry array, the entry and its key array. *)
Definition book_store : list Heap.hobj :=
  [Heap.HObject (list_to_map [("name", Heap.HStr "A");
                              ("character_book", Heap.HRef 1)]);
   Heap.HObject {["entries" := Heap.HRef 2]};
   Heap.HArray [Heap.HRef 3];
   Heap.HObject (list_to_map [("keys", Heap.HRef 4);
                              ("content", Heap.HStr "lore")]);
   Heap.HArray [Heap.HStr "k1"; Heap.HStr "k2"]].

Definition to_string_h (h : list Heap.hobj) (v : Heap.hval) : option string :=
  match v with
  | Heap.HStr s => Some s
  | Heap.HNum n => Some (pretty n)
  | Heap.HBool b => Some (if b then "true" else "false")
  | Heap.HUndef => Some "undefined"
  | Heap.HNull => Some "null"
  | Heap.HFun => Some "function () { [native code] }"
  | Heap.HRef l =>
      match h !! l with
      | Some (Heap.HObject m) =>
          if decide (is_Some (m !! "toString")) then None
          else Some "[object Object]"
      | _ => None
      end
  end.

(** The export of [imported] as [JSON.stringify] writes it, its
    base64 form, and the value [JSON.parse] reads from it: the envelope
    without the property whose value is [undefined]. *)
Definition export_json : string :=
  json_text
    ("{'spec':'chara_card_v2','spec_version':'2.0','data':{'name':'A'," +:+
     "'intro':'hi','custom':1,'description':'','personality':''," +:+
     "'first_mes':'hi','alternate_greetings':[],'scenario':''," +:+
     "'mes_example':'','system_prompt':'','post_history_instructions':''," +:+
     "'creator_notes':'','creator':'','character_version':'','tags':[]," +:+
     "'extensions':{}}}").

Definition export_base64 : string :=
  "eyJzcGVjIjoiY2hhcmFfY2FyZF92MiIsInNwZWNfdmVyc2lvbiI6IjIuMCIsImRhdGEiOnsi" +:+
  "bmFtZSI6IkEiLCJpbnRybyI6ImhpIiwiY3VzdG9tIjoxLCJkZXNjcmlwdGlvbiI6IiIsInBl" +:+
  "cnNvbmFsaXR5IjoiIiwiZmlyc3RfbWVzIjoiaGkiLCJhbHRlcm5hdGVfZ3JlZXRpbmdzIjpb" +:+
  "XSwic2NlbmFyaW8iOiIiLCJtZXNfZXhhbXBsZSI6IiIsInN5c3RlbV9wcm9tcHQiOiIiLCJw" +:+
  "b3N0X2hpc3RvcnlfaW5zdHJ1Y3Rpb25zIjoiIiwiY3JlYXRvcl9ub3RlcyI6IiIsImNyZWF0" +:+
  "b3IiOiIiLCJjaGFyYWN0ZXJfdmVyc2lvbiI6IiIsInRhZ3MiOltdLCJleHRlbnNpb25zIjp7" +:+
  "fX19".

Definition export_payload (e : Card.Envelope) : list byte :=
  ascii_bytes export_base64.

Definition export_value : value :=
  VObj (list_to_map [
    ("spec", VStr "chara_card_v2"); ("spec_version", VStr "2.0");
    ("data", VObj (delete "character_book" (Card.data imported_export)))]).

Definition JSON_parse_export (s : string) : option value :=
  if String.eqb s export_json then Some export_value else None.

(** A record with a one-entry lorebook, as an import leaves it, and its
    export. *)
Definition lore_entry : value :=
  VObj (list_to_map [("keys", VArr [VStr "k1"; VStr "k2"]);
                     ("content", VStr "lore")]).

Definition lore_root : gmap string value :=
  list_to_map [("name", VStr "A");
               ("character_book", VObj {["entries" := VArr [lore_entry]]})].

Definition with_book : Card.Character :=
  Card.character_of lore_root (VArr [])
    (VObj {["entries" :=
              VArr [VObj (<["keysInput" := VStr "k1, k2"]> (spread lore_entry))]]})
    "a.json" "a.png" "1" Card.FmtJson 0.

Definition book_export : Card.Envelope :=
  Card.mkEnvelope "chara_card_v2" "2.0"
    (Card.editedFields with_book (VObj {["entries" := VArr [lore_entry]]})
     ∪ lore_root).

(** A quick-reply file with a property of its own, the value
    [JSON.parse] reads from it, the record it is bound to, and the
    quick-reply object an archive export writes for that record. *)
Definition qr_json : string :=
  json_text
    "{'qrList':[{'id':1,'label':'New','message':'Hello!'}],'color':'red'}".

Definition qr_file : gmap string value :=
  list_to_map [("qrList", VArr [qr_item "New"]); ("color", VStr "red")].

Definition JSON_parse_qr (s : string) : option value :=
  if String.eqb s qr_json then Some (VObj qr_file) else None.

Definition bound_qr : Card.Character :=
  Card.character_of
    (list_to_map [("name", VStr "A"); ("qrList", VArr [qr_item "New"]);
                  ("extra_qr_data", VObj qr_file)])
    (VArr []) VUndef "a.json" "a.png" "1" Card.FmtJson 0.

Definition bound_archive : gmap string value :=
  qr_file ∪ list_to_map [("version", VNum 2); ("name", VStr "A QR");
                         ("qrList", VArr [qr_item "New"])].

(** The record of [imported], imported at a later time. *)
Definition imported_later : Card.Character :=
  Card.character_of cleared_raw (VArr []) VUndef "a.json" "a.png" "1"
    Card.FmtJson 1.

End Sample.

(** * Properties *)

Section js_facts.
Import JS Card.

Lemma or_else_truthy x d : truthy x = true → or_else x d = x.
Proof. unfold or_else. by intros ->. Qed.

Lemma or_else_falsy x d : truthy x = false → or_else x d = d.
Proof. unfold or_else. by intros ->. Qed.

Lemma or_else_same x : or_else x x = x.
Proof. unfold or_else. by destruct (truthy x). Qed.

Lemma or_else_idem x d : or_else (or_else x d) d = or_else x d.
Proof.
  destruct (truthy x) eqn:E.
  - rewrite (or_else_truthy x d E). by apply or_else_truthy.
  - rewrite (or_else_falsy x d E). apply or_else_same.
Qed.

Lemma or_else_default_truthy x d : truthy d = true → truthy (or_else x d) = true.
Proof. unfold or_else. by destruct (truthy x) eqn:E. Qed.

Lemma get_Some_opt o k v : get o k = Some v → get_opt o k = v.
Proof. unfold get_opt. by intros ->. Qed.

Lemma truthy_get o : truthy o = true → ∀ k, get o k = Some (get_opt o k).
Proof. by destruct o. Qed.

Lemma get_opt_falsy o k : truthy o = false → get_opt o k = VUndef.
Proof. by destruct o. Qed.

Lemma pretty_N_char_digit x : is_digit (pretty_N_char x) = true.
Proof. unfold pretty_N_char. by repeat case_match. Qed.

Lemma pretty_N_go_digits x s :
  all_digits s = true → all_digits (pretty_N_go x s) = true.
Proof.
  revert s. induction (N.lt_wf_0 x) as [x _ IH]; intros s Hs.
  assert (x = 0 ∨ 0 < x)%N as [->|?] by lia.
  - by rewrite pretty_N_go_0.
  - rewrite pretty_N_go_step by done. apply IH.
    { by apply N.div_lt. }
    simpl. by rewrite pretty_N_char_digit.
Qed.

Lemma pretty_nat_digits (i : nat) : all_digits (pretty i) = true.
Proof.
  unfold pretty, pretty_nat, pretty, pretty_N.
  case_decide; [done|]. by apply pretty_N_go_digits.
Qed.

Lemma index_map_lookup_None {A} (l : list A) k :
  all_digits k = false → index_map l !! k = None.
Proof.
  intros Hk. unfold index_map. apply not_elem_of_list_to_map.
  rewrite fmap_imap. intros Hin.
  apply elem_of_lookup_imap in Hin as (i & x & -> & _). simpl in Hk.
  by rewrite pretty_nat_digits in Hk.
Qed.

(** Reading a named property from the shallow copy agrees with reading it
    from the value itself. *)
Lemma spread_lookup v k :
  all_digits k = false → array_method k = false →
  default VUndef (spread v !! k) = get_opt v k.
Proof.
  intros Hk Hm. destruct v; simpl; try done.
  - by rewrite index_map_lookup_None.
  - unfold get_opt; simpl. by rewrite index_map_lookup_None, Hm.
Qed.

(** [trim] is idempotent. *)
Lemma trim_end_idem s : trim_end (trim_end s) = trim_end s.
Proof.
  induction s as [|a s IH]; [done|]. simpl.
  destruct (trim_end s) as [|b r] eqn:E.
  - destruct (is_ws a) eqn:Ea; simpl; [done|]. by rewrite Ea.
  - simpl in *. rewrite IH. done.
Qed.

Lemma trim_start_clean s : starts_clean (trim_start s).
Proof.
  induction s as [|a s IH]; [done|]. simpl.
  destruct (is_ws a) eqn:E; [done|]. simpl. done.
Qed.

Lemma trim_end_clean s : starts_clean s → starts_clean (trim_end s).
Proof.
  destruct s as [|a s]; [done|]. simpl. intros Ha.
  destruct (trim_end s); simpl; [by rewrite Ha|done].
Qed.

Lemma trim_start_id s : starts_clean s → trim_start s = s.
Proof. destruct s as [|a s]; [done|]. simpl. by intros ->. Qed.

Lemma trim_idem s : trim (trim s) = trim s.
Proof.
  unfold trim.
  rewrite (trim_start_id (trim_end (trim_start s))).
  - apply trim_end_idem.
  - apply trim_end_clean, trim_start_clean.
Qed.

End js_facts.

Section card_facts.
Import JS Card.

Implicit Types (c : Character) (e : Envelope) (m : gmap string value).

Lemma edited_lookup_other c b k :
  k ∉ typed_keys → editedFields c b !! k = None.
Proof. intros H. by apply not_elem_of_list_to_map. Qed.

Lemma edited_lookup_typed c b k :
  k ∈ typed_keys → is_Some (editedFields c b !! k).
Proof.
  intros H. unfold typed_keys in H.
  repeat (apply elem_of_cons in H as [->|H]; [by eexists|]).
  by apply elem_of_nil in H.
Qed.

(** Export: the shape of the result. *)
Lemma buildExportData_Some c e :
  buildExportData c = Some e ↔
  ∃ b, export_book c (export_base c) = Some b ∧
       e = mkEnvelope "chara_card_v2" "2.0" (editedFields c b ∪ export_base c).
Proof.
  unfold buildExportData. split.
  - intros H. destruct (export_book c (export_base c)) as [b|]; [|done].
    simpl in H. injection H as <-. by exists b.
  - intros (b & -> & ->). done.
Qed.

Lemma export_lookup_unknown c e k :
  buildExportData c = Some e → k ∉ typed_keys →
  data e !! k = export_base c !! k.
Proof.
  intros (b & _ & ->)%buildExportData_Some Hk. simpl.
  by rewrite lookup_union_r by by apply edited_lookup_other.
Qed.

Lemma export_lookup_typed c e k v b :
  export_book c (export_base c) = Some b →
  buildExportData c = Some e → editedFields c b !! k = Some v →
  data e !! k = Some v.
Proof.
  intros Hb (b' & Hb' & ->)%buildExportData_Some Hk. simpl.
  rewrite Hb in Hb'. injection Hb' as <-.
  by apply lookup_union_Some_l.
Qed.

(** Re-import: the envelope is unwrapped to its [data] object. *)
Lemma unwrap_envelope c e :
  buildExportData c = Some e → unwrap (envelope_value e) = Some (VObj (data e)).
Proof. by intros (b & _ & ->)%buildExportData_Some. Qed.

Lemma buildCharacter_rawData root fn av i f t c :
  buildCharacter root fn av i f t = Some c → unwrap root = Some (rawData c).
Proof.
  unfold buildCharacter. intros H.
  destruct (unwrap root) as [d|]; [|done]. simpl in H.
  repeat (match type of H with
          | (mbind _ ?x) = _ => destruct x; [|done]; simpl in H
          end).
  by injection H as <-.
Qed.

Lemma cycle_rawData c c' :
  cycle c c' → ∃ e, buildExportData c = Some e ∧ rawData c' = VObj (data e).
Proof.
  intros [e fn av i f t He Hc]. exists e. split; [done|].
  apply buildCharacter_rawData in Hc. rewrite (unwrap_envelope c e He) in Hc.
  by injection Hc.
Qed.

(** An unknown key survives one cycle, hence any number of them. *)
Lemma cycle_base_unknown c c' k :
  cycle c c' → k ∉ typed_keys → export_base c' !! k = export_base c !! k.
Proof.
  intros (e & He & Hr)%cycle_rawData Hk. unfold export_base at 1.
  rewrite Hr. simpl. by apply export_lookup_unknown.
Qed.

Lemma cycles_base_unknown c c' k :
  rtc cycle c c' → k ∉ typed_keys → export_base c' !! k = export_base c !! k.
Proof.
  intros H Hk. induction H as [|c1 c2 c3 H12 _ IH]; [done|].
  rewrite IH. by apply cycle_base_unknown.
Qed.

End card_facts.

Section card_cycle.
Import JS Card.

Implicit Types (c : Character) (e : Envelope) (m : gmap string value).

Lemma buildCharacter_obj root m tg bk fn av i f t :
  unwrap root = Some (VObj m) →
  tags_of (fld m "tags") = Some tg →
  book_of (fld m "character_book") = Some bk →
  buildCharacter root fn av i f t = Some (character_of m tg bk fn av i f t).
Proof.
  intros Hu Ht Hb. unfold buildCharacter, import_tags, import_book.
  rewrite Hu. cbn [mbind option_bind get]. fold (fld m "tags"). rewrite Ht.
  cbn [mbind option_bind]. fold (fld m "character_book"). rewrite Hb.
  reflexivity.
Qed.

Lemma export_base_character_of m tg bk fn av i f t :
  export_base (character_of m tg bk fn av i f t) = m.
Proof. reflexivity. Qed.

Lemma union_absorb (a b : gmap string value) : a ∪ (a ∪ b) = a ∪ b.
Proof. by rewrite (assoc_L (∪)), (idemp_L (∪)). Qed.

(** A normalised record re-exports to the very same envelope after a
    re-import. *)
Lemma normalised_reexport c :
  normalised c →
  ∃ e, buildExportData c = Some e ∧
       ∀ fn av i f t, ∃ c',
         buildCharacter (envelope_value e) fn av i f t = Some c' ∧
         buildExportData c' = Some e.
Proof.
  intros [Hn Hd Hp Hf Hc Ht (b & cb & Hb & Hcb & Hcb')].
  set (e := mkEnvelope "chara_card_v2" "2.0" (editedFields c b ∪ export_base c)).
  assert (He : buildExportData c = Some e).
  { apply buildExportData_Some. by exists b. }
  exists e. split; [done|]. intros fn av i f t.
  assert (Hty : ∀ k v, editedFields c b !! k = Some v → fld (data e) k = v).
  { intros k v Hk. unfold fld. by rewrite (export_lookup_typed c e k v b). }
  assert (Hun : ∀ k, k ∉ typed_keys → fld (data e) k = raw_field c k).
  { intros k Hk. unfold fld, raw_field. by rewrite (export_lookup_unknown c e k). }
  eexists. split.
  { apply buildCharacter_obj.
    - by apply (unwrap_envelope c).
    - rewrite (Hty "tags" _ eq_refl). exact Ht.
    - rewrite (Hty "character_book" _ eq_refl). exact Hcb. }
  apply buildExportData_Some. exists b. split.
  { unfold export_book. rewrite export_base_character_of.
    change (character_book (character_of _ _ cb _ _ _ _ _)) with cb.
    fold (fld (data e) "character_book").
    rewrite (Hty "character_book" _ eq_refl). exact Hcb'. }
  unfold e at 3. f_equal.
  rewrite export_base_character_of.
  replace (editedFields (character_of (data e) _ cb fn av i f t) b)
    with (editedFields c b).
  { symmetry. apply union_absorb. }
  unfold editedFields. cbn [name description personality firstMessage
    alternate_greetings scenario mes_example system_prompt
    post_history_instructions creator_notes creator character_version tags
    extensions character_of character_from].
  rewrite (Hty "name" _ eq_refl), (Hty "description" _ eq_refl),
    (Hty "personality" _ eq_refl), (Hty "first_mes" _ eq_refl),
    (Hty "alternate_greetings" _ eq_refl), (Hty "scenario" _ eq_refl),
    (Hty "mes_example" _ eq_refl), (Hty "system_prompt" _ eq_refl),
    (Hty "post_history_instructions" _ eq_refl),
    (Hty "creator_notes" _ eq_refl), (Hty "creator" _ eq_refl),
    (Hty "character_version" _ eq_refl), (Hty "extensions" _ eq_refl).
  rewrite (Hun "firstMessage"), (Hun "intro"), (Hun "greeting"),
    (Hun "creatorcomment") by (apply (bool_decide_unpack _); by vm_compute).
  cbn [snd].
  rewrite (or_else_truthy _ (VStr "Unknown") Hn), Hd, Hp, Hf.
  rewrite (or_else_truthy (or_else (alternate_greetings c) (VArr [])))
    by by apply or_else_default_truthy.
  rewrite !or_else_idem.
  replace (or_else
             (or_else (or_else (creator_notes c) (VStr ""))
                (or_else (raw_field c "creatorcomment") (VStr ""))) (VStr ""))
    with (or_else (creator_notes c) (VStr "")); [done|].
  destruct Hc as [Hc|Hc].
  - rewrite (or_else_truthy (creator_notes c)) by done.
    by rewrite !(or_else_truthy (creator_notes c)) by done.
  - rewrite (or_else_falsy (raw_field c "creatorcomment")) by done.
    by rewrite !or_else_idem.
Qed.

End card_cycle.

Section import_normalised.
Import JS Card.

Implicit Types (c : Character) (e : Envelope) (m : gmap string value).

Lemma buildCharacter_inv root fn av i f t c :
  buildCharacter root fn av i f t = Some c →
  ∃ d tg bk, unwrap root = Some d ∧ import_tags d = Some tg ∧
             import_book d = Some bk ∧ (∀ k, get d k = Some (get_opt d k)) ∧
             c = character_from (get_opt d) d tg bk fn av i f t.
Proof.
  unfold buildCharacter. intros H.
  destruct (unwrap root) as [d|]; [|done]. cbn [mbind option_bind] in H.
  destruct (import_tags d) as [tg|] eqn:Ht; [|done]. cbn [mbind option_bind] in H.
  destruct (import_book d) as [bk|] eqn:Hb; [|done]. cbn [mbind option_bind] in H.
  exists d, tg, bk.
  assert (Hd : ∀ k, get d k = Some (get_opt d k)).
  { destruct d; try done. }
  repeat split; try done.
  rewrite !Hd in H. cbn [mbind option_bind] in H. by injection H as <-.
Qed.

Lemma raw_field_from d tg bk fn av i f t k :
  all_digits k = false → array_method k = false →
  raw_field (character_from (get_opt d) d tg bk fn av i f t) k = get_opt d k.
Proof.
  intros Hk Hm. unfold raw_field, export_base. cbn [rawData character_from].
  destruct (truthy d) eqn:E.
  - by apply spread_lookup.
  - by rewrite lookup_empty, get_opt_falsy.
Qed.

Lemma tags_of_clean l :
  Forall clean_tag l → tags_of (VArr (VStr <$> l)) = Some (VArr (VStr <$> l)).
Proof.
  intros Hl. unfold tags_of.
  assert (mapM (λ t, trim <$> to_string t) (VStr <$> l) = Some l) as ->.
  { apply mapM_Some. induction Hl as [|s l [Hs _] _ IH]; constructor; [|done].
    simpl. by rewrite Hs. }
  cbn [mbind option_bind]. do 3 f_equal.
  induction Hl as [|s l [_ Hs] _ IH]; [done|].
  rewrite filter_cons_True by done. by f_equal.
Qed.

Lemma filter_trimmed_clean l :
  Forall (λ s, trim s = s) l → Forall clean_tag (filter nonempty l).
Proof.
  intros Hl. apply Forall_forall. intros s [Hs Hin]%list_elem_of_filter.
  split; [|done]. by eapply Forall_forall in Hl.
Qed.

Lemma tags_of_fixed t tg :
  tags_of t = Some tg →
  tags_of (or_else tg (VArr [])) = Some (or_else tg (VArr [])).
Proof.
  unfold tags_of at 1. intros H.
  assert (∃ l, tg = VArr (VStr <$> l) ∧ Forall clean_tag l) as (l & -> & Hl).
  { destruct t; simplify_eq; try (by exists []).
    - eexists; split; [done|]. apply filter_trimmed_clean.
      apply Forall_fmap, Forall_forall. intros ? _. apply trim_idem.
    - destruct (mapM _ l) as [ss|] eqn:E; [|done]. simpl in H.
      injection H as <-. eexists; split; [done|].
      apply filter_trimmed_clean.
      apply mapM_Some in E. clear -E.
      induction E as [|x s l ss Hx _ IH]; constructor; [|done].
      destruct (to_string x); [|done]. simpl in Hx. injection Hx as <-.
      apply trim_idem. }
  rewrite or_else_truthy by done. by apply tags_of_clean.
Qed.

End import_normalised.

Section book_fixed.
Import JS Card.

Implicit Types (c : Character) (e : value) (m : gmap string value).

Lemma stripped_idem e : stripped (stripped e) = stripped e.
Proof. unfold stripped. simpl. by rewrite delete_delete_eq. Qed.

Lemma strip_add e e' :
  add_keysInput e = Some e' → strip_keysInput e' = Some (stripped e).
Proof.
  unfold add_keysInput. intros H.
  destruct (get e "keys") as [ks|]; [|done]. simpl in H.
  destruct (match ks with VArr ks0 => join ", " ks0 | _ => Some "" end);
    [|done]. simpl in H. injection H as <-.
  simpl. unfold stripped. by rewrite delete_insert_eq.
Qed.

Lemma add_stripped e e' :
  add_keysInput e = Some e' → is_Some (add_keysInput (stripped e)).
Proof.
  unfold add_keysInput at 1. intros H.
  destruct (get e "keys") as [ks|] eqn:Hk; [|done]. simpl in H.
  unfold add_keysInput, stripped. cbn [get mbind option_bind].
  rewrite lookup_delete_ne by done.
  destruct e; simpl in *; try done; rewrite ?index_map_lookup_None by done;
    simpl; try done.
  injection Hk as <-.
  destruct (default VUndef (m !! "keys")); simpl in *; try done.
  by destruct (join ", " l).
Qed.

Lemma mapM_strip_add l l' :
  mapM add_keysInput l = Some l' → mapM strip_keysInput l' = Some (stripped <$> l).
Proof.
  intros H%mapM_Some. apply mapM_Some.
  induction H as [|e e' l l' He _ IH]; constructor; [|done].
  by apply strip_add.
Qed.

Lemma mapM_add_stripped l l' :
  mapM add_keysInput l = Some l' →
  ∃ l3, mapM add_keysInput (stripped <$> l) = Some l3 ∧
        mapM strip_keysInput l3 = Some (stripped <$> l).
Proof.
  intros H%mapM_Some.
  induction H as [|e e' l l' He _ (l3 & IH1 & IH2)].
  { by exists []. }
  destruct (add_stripped e e' He) as [e3 He3].
  exists (e3 :: l3). split.
  - apply mapM_Some. constructor; [done|]. by apply mapM_Some.
  - apply mapM_Some. constructor; [|by apply mapM_Some].
    rewrite (strip_add _ _ He3). by rewrite stripped_idem.
Qed.

Lemma call_map_inv x g r :
  call_map x g = Some r → ∃ l l', x = VArr l ∧ mapM g l = Some l' ∧ r = VArr l'.
Proof.
  destruct x; try done. simpl. intros H.
  destruct (mapM g l) as [l'|] eqn:E; [|done]. injection H as <-. eauto.
Qed.

Lemma with_entries_twice cb l1 l2 :
  with_entries (with_entries cb l1) l2 = with_entries cb l2.
Proof. unfold with_entries. simpl. by rewrite insert_insert_eq. Qed.

Lemma book_of_with_entries cb l l' :
  mapM add_keysInput l = Some l' →
  book_of (with_entries cb l) = Some (with_entries cb l').
Proof.
  intros H. unfold book_of, with_entries, get_opt. cbn [get default].
  rewrite lookup_insert_eq. cbn [default from_option Datatypes.id truthy call_map].
  rewrite H. cbn [fmap option_fmap option_map mbind option_bind spread].
  by rewrite insert_insert_eq.
Qed.

Lemma export_book_of_with_entries cb l l' f :
  mapM strip_keysInput l = Some l' →
  export_book_of (with_entries cb l) f = Some (with_entries cb l').
Proof.
  intros H. unfold export_book_of, with_entries. cbn [truthy get].
  rewrite lookup_insert_eq.
  cbn [default from_option Datatypes.id mbind option_bind or_else truthy call_map].
  rewrite H. cbn [fmap option_fmap option_map mbind option_bind spread].
  by rewrite insert_insert_eq.
Qed.

(** The book of an imported record is a fixed point of export followed by
    import; [f] is the [character_book] of the retained body. *)
Lemma book_of_fixed cb0 bk f :
  book_of cb0 = Some bk → (truthy cb0 = false → f = cb0) →
  ∃ b cb, export_book_of bk f = Some b ∧ book_of b = Some cb ∧
          export_book_of cb b = Some b.
Proof.
  unfold book_of at 1. intros H Hf.
  destruct (truthy (get_opt cb0 "entries")) eqn:He.
  - destruct (call_map _ _) as [es|] eqn:Hc; [|done]. simpl in H.
    injection H as <-.
    apply call_map_inv in Hc as (l & l' & Hl & Hm & ->).
    fold (with_entries cb0 l').
    destruct (mapM_add_stripped _ _ Hm) as (l3 & H3 & H3').
    exists (with_entries cb0 (stripped <$> l)), (with_entries cb0 l3).
    split; [|split].
    + apply export_book_of_with_entries. by apply mapM_strip_add.
    + by apply book_of_with_entries.
    + by apply export_book_of_with_entries.
  - injection H as <-.
    destruct (truthy cb0) eqn:Ht.
    + exists (with_entries cb0 []), (with_entries cb0 []).
      split; [|split].
      * unfold export_book_of. rewrite Ht, (truthy_get _ Ht).
        cbn [mbind option_bind]. by rewrite (or_else_falsy _ _ He).
      * by apply book_of_with_entries.
      * by apply export_book_of_with_entries.
    + rewrite (Hf eq_refl). exists cb0, cb0.
      unfold export_book_of, book_of. by rewrite Ht, He.
Qed.

(** Every record that an import produces is normalised. *)
Lemma import_normalised root fn av i f t c :
  buildCharacter root fn av i f t = Some c → normalised c.
Proof.
  intros (d & tg & bk & Hu & Ht & Hb & Hd & ->)%buildCharacter_inv.
  unfold import_tags in Ht. rewrite Hd in Ht. cbn [mbind option_bind] in Ht.
  unfold import_book in Hb. rewrite Hd in Hb. cbn [mbind option_bind] in Hb.
  split; cbn [name description personality firstMessage creator_notes tags
              character_book character_from].
  - by apply or_else_default_truthy.
  - apply or_else_idem.
  - apply or_else_idem.
  - rewrite !raw_field_from by done.
    destruct (truthy (get_opt d "first_mes")) eqn:E.
    + by rewrite !(or_else_truthy (get_opt d "first_mes")) by done.
    + rewrite !(or_else_falsy (get_opt d "first_mes")) by done.
      apply or_else_same.
  - rewrite raw_field_from by done.
    destruct (truthy (get_opt d "creator_notes")) eqn:E1.
    { left. by rewrite or_else_truthy. }
    rewrite (or_else_falsy _ _ E1).
    destruct (truthy (get_opt d "creatorcomment")) eqn:E2; [|by right].
    left. by rewrite or_else_truthy.
  - by eapply tags_of_fixed.
  - unfold export_book. cbn [character_book character_from].
    eapply book_of_fixed; [done|].
    intros Hfalse. fold (raw_field (character_from (get_opt d) d tg bk fn av i f t)
                           "character_book").
    rewrite raw_field_from by done.
    destruct (get_opt d "character_book") eqn:Ecb; simpl in Hfalse; try done;
      unfold book_of in Hb; simpl in Hb; by injection Hb as <-.
Qed.

End book_fixed.

Section crc_facts.
Import JS Png.
#[local] Open Scope Z_scope.

Lemma toUint32_range z : 0 ≤ toUint32 z < 2 ^ 32.
Proof. unfold toUint32. apply Z.mod_pos_bound. lia. Qed.

Lemma toUint32_small z : 0 ≤ z < 2 ^ 32 → toUint32 z = z.
Proof. unfold toUint32. intros. by apply Z.mod_small. Qed.

Lemma toUint32_toInt32 z : toUint32 (toInt32 z) = toUint32 z.
Proof.
  unfold toUint32, toInt32.
  destruct (z mod 2 ^ 32 <? 2 ^ 31).
  - apply Z.mod_mod. lia.
  - rewrite <- (Z.mod_add _ 1) by lia.
    replace (z mod 2 ^ 32 - 2 ^ 32 + 1 * 2 ^ 32) with (z mod 2 ^ 32) by lia.
    apply Z.mod_mod. lia.
Qed.

Lemma toUint32_ones z : toUint32 z = Z.land z (Z.ones 32).
Proof. unfold toUint32. by rewrite Z.land_ones by lia. Qed.

Lemma toUint32_lxor a b :
  toUint32 (Z.lxor a b) = Z.lxor (toUint32 a) (toUint32 b).
Proof.
  rewrite !toUint32_ones. apply Z.bits_inj'. intros n Hn.
  rewrite !Z.lxor_spec, !Z.land_spec, Z.lxor_spec.
  by destruct (Z.testbit a n), (Z.testbit b n), (Z.testbit (Z.ones 32) n).
Qed.

Lemma toUint32_land a b :
  toUint32 (Z.land a b) = Z.land (toUint32 a) (toUint32 b).
Proof.
  rewrite !toUint32_ones. apply Z.bits_inj'. intros n Hn.
  rewrite !Z.land_spec. by destruct (Z.testbit a n), (Z.testbit b n),
    (Z.testbit (Z.ones 32) n).
Qed.

Lemma toUint32_js_xor a b :
  toUint32 (js_xor a b) = Z.lxor (toUint32 a) (toUint32 b).
Proof.
  unfold js_xor. by rewrite toUint32_toInt32, toUint32_lxor, !toUint32_toInt32.
Qed.

Lemma toUint32_js_and a b :
  toUint32 (js_and a b) = Z.land (toUint32 a) (toUint32 b).
Proof.
  unfold js_and. by rewrite toUint32_toInt32, toUint32_land, !toUint32_toInt32.
Qed.

Lemma toInt32_small z : 0 ≤ z < 2 ^ 31 → toInt32 z = z.
Proof.
  intros H. unfold toInt32. rewrite Z.mod_small by lia.
  destruct (Z.ltb_spec z (2 ^ 31)); lia.
Qed.

Lemma land_255_range z : 0 ≤ Z.land z 255 < 256.
Proof.
  change 255 with (Z.ones 8). rewrite Z.land_ones by lia.
  apply Z.mod_pos_bound. lia.
Qed.

Lemma land_255_toUint32 z : Z.land (toUint32 z) 255 = Z.land z 255.
Proof.
  rewrite toUint32_ones, <- Z.land_assoc. f_equal.
Qed.

(** The table index computed with JavaScript's signed operators. *)
Lemma js_index crc v :
  js_and (js_xor crc v) 0xff = Z.land (Z.lxor (toUint32 crc) v) 255.
Proof.
  unfold js_and. change (toInt32 255) with 255.
  rewrite toInt32_small
    by (pose proof (land_255_range (toInt32 (js_xor crc v))); lia).
  rewrite <- (land_255_toUint32 (toInt32 _)), toUint32_toInt32, toUint32_js_xor.
  rewrite <- (land_255_toUint32 (Z.lxor (toUint32 crc) v)), toUint32_lxor.
  by rewrite (toUint32_small (toUint32 crc)) by apply toUint32_range.
Qed.

(** The table built by the loop is the table of the reference. *)
Lemma crcTable_reference :
  crcTable = (fun n => reference_table (Z.of_nat n)) <$> seq 0 256.
Proof. by vm_compute. Qed.

Lemma crcTable_nth i :
  0 ≤ i < 256 → nth (Z.to_nat i) crcTable 0 = reference_table i.
Proof.
  intros Hi. rewrite crcTable_reference.
  rewrite nth_lookup, list_lookup_fmap, lookup_seq_lt by lia.
  simpl. f_equal. lia.
Qed.

Lemma reference_table_range i : 0 ≤ i < 256 → 0 ≤ reference_table i < 2 ^ 32.
Proof.
  intros Hi.
  assert (Forall (fun t => 0 ≤ t < 2 ^ 32) crcTable) as Hall.
  { apply (bool_decide_unpack _). by vm_compute. }
  rewrite <- crcTable_nth by done.
  eapply Forall_forall in Hall; [done|].
  apply list_elem_of_In, nth_In. vm_compute length. lia.
Qed.

Lemma shiftr_range c n : 0 ≤ n → 0 ≤ c < 2 ^ 32 → 0 ≤ Z.shiftr c n < 2 ^ 32.
Proof.
  intros Hn Hc. rewrite Z.shiftr_div_pow2 by done.
  assert (0 < 2 ^ n) by (apply Z.pow_pos_nonneg; lia). split.
  - apply Z.div_pos; lia.
  - apply Z.div_lt_upper_bound; [done|]. nia.
Qed.

Lemma lxor_range a b : 0 ≤ a < 2 ^ 32 → 0 ≤ b < 2 ^ 32 → 0 ≤ Z.lxor a b < 2 ^ 32.
Proof.
  intros Ha Hb. rewrite <- (toUint32_small a), <- (toUint32_small b) by done.
  rewrite <- toUint32_lxor. apply toUint32_range.
Qed.

Lemma reference_update_range c b :
  0 ≤ c < 2 ^ 32 → 0 ≤ reference_update c b < 2 ^ 32.
Proof.
  intros Hc. unfold reference_update. apply lxor_range.
  - apply reference_table_range, land_255_range.
  - by apply shiftr_range.
Qed.

(** One step of the source loop is one step of the reference on the
    unsigned reading of the accumulator. *)
Lemma crc_step_reference crc b :
  toUint32 (crc_step crc b) = reference_update (toUint32 crc) b.
Proof.
  unfold crc_step, reference_update.
  rewrite toUint32_js_xor, js_index.
  rewrite crcTable_nth by apply land_255_range.
  rewrite toUint32_small by apply reference_table_range, land_255_range.
  f_equal. unfold js_ushr.
  apply toUint32_small, shiftr_range; [lia|apply toUint32_range].
Qed.

Lemma fold_left_cons {A B} (f : A → B → A) (x : B) (l : list B) (a : A) :
  fold_left f (x :: l) a = fold_left f l (f a x).
Proof. reflexivity. Qed.

Lemma fold_crc_step_reference buf crc :
  toUint32 (fold_left crc_step buf crc)
  = fold_left reference_update buf (toUint32 crc).
Proof.
  revert crc. induction buf as [|b buf IH]; intros crc; [done|].
  by rewrite !fold_left_cons, IH, crc_step_reference.
Qed.

Lemma fold_reference_range buf c :
  0 ≤ c < 2 ^ 32 → 0 ≤ fold_left reference_update buf c < 2 ^ 32.
Proof.
  revert c. induction buf as [|b buf IH]; intros c Hc; [done|].
  rewrite fold_left_cons. by apply IH, reference_update_range.
Qed.

Lemma crc32_reference buf : crc32 buf = reference_crc buf.
Proof.
  unfold crc32, reference_crc, js_ushr. rewrite Z.shiftr_0_r.
  rewrite toUint32_js_xor, fold_crc_step_reference.
  by rewrite !(toUint32_small 0xffffffff) by lia.
Qed.

Lemma crc32_range buf : 0 ≤ crc32 buf < 2 ^ 32.
Proof.
  rewrite crc32_reference. unfold reference_crc.
  apply lxor_range; [|lia]. apply fold_reference_range. lia.
Qed.

End crc_facts.

Section crc_sensitivity.
Import JS Png.
#[local] Open Scope Z_scope.

Lemma lxor_cancel_l a x y : Z.lxor a x = Z.lxor a y → x = y.
Proof.
  intros H. apply (f_equal (Z.lxor a)) in H.
  by rewrite <- !Z.lxor_assoc, Z.lxor_nilpotent, !Z.lxor_0_l in H.
Qed.

Lemma lxor_cancel_r a x y : Z.lxor x a = Z.lxor y a → x = y.
Proof. rewrite !(Z.lxor_comm _ a). apply lxor_cancel_l. Qed.

Lemma land_lxor_255 a b :
  Z.land (Z.lxor a b) 255 = Z.lxor (Z.land a 255) (Z.land b 255).
Proof.
  apply Z.bits_inj'. intros n Hn.
  rewrite !Z.lxor_spec, !Z.land_spec, Z.lxor_spec.
  by destruct (Z.testbit a n), (Z.testbit b n), (Z.testbit 255 n).
Qed.

Lemma b2z_range b : 0 ≤ b2z b < 256.
Proof. unfold b2z. pose proof (Byte.to_N_bounded b). lia. Qed.

Lemma b2z_inj b b' : b2z b = b2z b' → b = b'.
Proof.
  unfold b2z. intros H%(inj Z.of_N).
  apply (f_equal Byte.of_N) in H. rewrite !Byte.of_to_N in H. by injection H.
Qed.

Lemma land_255_small z : 0 ≤ z < 256 → Z.land z 255 = z.
Proof.
  intros Hz. change 255 with (Z.ones 8). rewrite Z.land_ones by lia.
  by apply Z.mod_small.
Qed.

Lemma top_bytes_NoDup : NoDup top_bytes.
Proof. apply (bool_decide_unpack _). by vm_compute. Qed.

Lemma top_bytes_lookup i :
  0 ≤ i < 256 →
  top_bytes !! Z.to_nat i = Some (Z.shiftr (reference_table i) 24).
Proof.
  intros Hi. unfold top_bytes.
  rewrite list_lookup_fmap, lookup_seq_lt by lia. simpl. do 3 f_equal. lia.
Qed.

Lemma reference_table_top_inj i j :
  0 ≤ i < 256 → 0 ≤ j < 256 →
  Z.shiftr (reference_table i) 24 = Z.shiftr (reference_table j) 24 → i = j.
Proof.
  intros Hi Hj H.
  pose proof (top_bytes_lookup i Hi) as H1.
  pose proof (top_bytes_lookup j Hj) as H2. rewrite <- H in H2.
  pose proof (NoDup_lookup _ _ _ _ top_bytes_NoDup H1 H2). lia.
Qed.

Lemma shiftr_8_24 s : 0 ≤ s < 2 ^ 32 → Z.shiftr (Z.shiftr s 8) 24 = 0.
Proof.
  intros Hs. rewrite Z.shiftr_shiftr by lia. simpl.
  rewrite Z.shiftr_div_pow2 by lia. by apply Z.div_small.
Qed.

Lemma split_low_byte s : s = 256 * Z.shiftr s 8 + Z.land s 255.
Proof.
  rewrite Z.shiftr_div_pow2 by lia. change 255 with (Z.ones 8).
  rewrite Z.land_ones by lia. change (2 ^ 8) with 256.
  apply Z.div_mod. lia.
Qed.

(** For a fixed byte the update is injective on 32-bit accumulators. *)
Lemma reference_update_inj_state s s' b :
  0 ≤ s < 2 ^ 32 → 0 ≤ s' < 2 ^ 32 →
  reference_update s b = reference_update s' b → s = s'.
Proof.
  unfold reference_update. intros Hs Hs' H.
  set (i := Z.land (Z.lxor s (b2z b)) 255) in *.
  set (j := Z.land (Z.lxor s' (b2z b)) 255) in *.
  assert (i = j) as Hij.
  { apply reference_table_top_inj; [apply land_255_range..|].
    apply (f_equal (fun z => Z.shiftr z 24)) in H.
    by rewrite !Z.shiftr_lxor, !shiftr_8_24, !Z.lxor_0_r in H. }
  rewrite Hij in H. apply lxor_cancel_l in H.
  unfold i, j in Hij. rewrite !land_lxor_255 in Hij.
  apply lxor_cancel_r in Hij.
  rewrite (split_low_byte s), (split_low_byte s'). by rewrite H, Hij.
Qed.

(** For a fixed accumulator the update is injective in the byte. *)
Lemma reference_update_inj_byte s b b' :
  reference_update s b = reference_update s b' → b = b'.
Proof.
  unfold reference_update. intros H. apply lxor_cancel_r in H.
  assert (Z.land (Z.lxor s (b2z b)) 255 = Z.land (Z.lxor s (b2z b')) 255) as Hi.
  { apply reference_table_top_inj; [apply land_255_range..|]. by rewrite H. }
  rewrite !land_lxor_255 in Hi. apply lxor_cancel_l in Hi.
  rewrite !land_255_small in Hi by apply b2z_range.
  by apply b2z_inj.
Qed.

Lemma fold_reference_inj buf s s' :
  0 ≤ s < 2 ^ 32 → 0 ≤ s' < 2 ^ 32 →
  fold_left reference_update buf s = fold_left reference_update buf s' → s = s'.
Proof.
  revert s s'. induction buf as [|b buf IH]; intros s s' Hs Hs' H; [done|].
  rewrite !fold_left_cons in H.
  apply IH in H; [|by apply reference_update_range..].
  by eapply reference_update_inj_state.
Qed.

(** Replacing one byte of a buffer changes its CRC. *)
Lemma reference_crc_single_byte pre b b' post :
  b ≠ b' → reference_crc (pre ++ b :: post) ≠ reference_crc (pre ++ b' :: post).
Proof.
  intros Hb H. unfold reference_crc in H. apply lxor_cancel_r in H.
  rewrite !fold_left_app, !fold_left_cons in H.
  assert (0 ≤ fold_left reference_update pre 4294967295 < 2 ^ 32) as Hr
    by (apply fold_reference_range; lia).
  apply fold_reference_inj in H; [|by apply reference_update_range..].
  by apply reference_update_inj_byte in H.
Qed.

(** *** The bit-by-bit reading of the same CRC *)

Lemma reference_bit_lxor a b :
  reference_bit (Z.lxor a b) = Z.lxor (reference_bit a) (reference_bit b).
Proof.
  unfold reference_bit. rewrite Z.lxor_spec, Z.shiftr_lxor.
  destruct (Z.testbit a 0), (Z.testbit b 0); simpl;
    apply Z.bits_inj'; intros n Hn; rewrite !Z.lxor_spec;
    by destruct (Z.testbit 3988292384 n), (Z.testbit (Z.shiftr a 1) n),
      (Z.testbit (Z.shiftr b 1) n).
Qed.

Lemma iter_reference_bit_lxor k a b :
  Nat.iter k reference_bit (Z.lxor a b)
  = Z.lxor (Nat.iter k reference_bit a) (Nat.iter k reference_bit b).
Proof.
  induction k as [|k IH]; [done|]. simpl. by rewrite IH, reference_bit_lxor.
Qed.

Lemma iter_reference_bit_shifted k x :
  Nat.iter k reference_bit (Z.shiftl x (Z.of_nat k)) = x.
Proof.
  induction k as [|k IH]. { simpl. apply Z.shiftl_0_r. }
  rewrite Nat.iter_succ_r. unfold reference_bit at 2.
  rewrite Z.shiftl_spec_low by lia.
  rewrite Z.shiftr_shiftl_l by lia.
  replace (Z.of_nat (S k) - 1) with (Z.of_nat k) by lia. done.
Qed.

Lemma split_low_byte_lxor s :
  s = Z.lxor (Z.land s 255) (Z.shiftl (Z.shiftr s 8) 8).
Proof.
  apply Z.bits_inj'. intros n Hn.
  rewrite Z.lxor_spec, Z.land_spec.
  destruct (Z.lt_ge_cases n 8).
  - rewrite Z.shiftl_spec_low by done.
    change 255 with (Z.ones 8). rewrite Z.ones_spec_low by lia.
    by destruct (Z.testbit s n).
  - rewrite Z.shiftl_spec, Z.shiftr_spec by lia.
    change 255 with (Z.ones 8). rewrite Z.ones_spec_high by lia.
    replace (n - 8 + 8) with n by lia. by destruct (Z.testbit s n).
Qed.

Lemma shiftr_8_byte c b : Z.shiftr (Z.lxor c (b2z b)) 8 = Z.shiftr c 8.
Proof.
  rewrite Z.shiftr_lxor. pose proof (b2z_range b).
  rewrite (Z.shiftr_div_pow2 (b2z b)) by lia.
  rewrite (Z.div_small (b2z b)) by (change (2 ^ 8) with 256; lia).
  apply Z.lxor_0_r.
Qed.

Lemma reference_update_bitwise c b :
  reference_update c b = bitwise_update c b.
Proof.
  unfold reference_update, bitwise_update, reference_table.
  rewrite (split_low_byte_lxor (Z.lxor c (b2z b))) at 2.
  rewrite iter_reference_bit_lxor. f_equal.
  rewrite shiftr_8_byte. symmetry. apply (iter_reference_bit_shifted 8).
Qed.

Lemma reference_crc_bitwise buf : reference_crc buf = bitwise_crc buf.
Proof.
  unfold reference_crc, bitwise_crc. f_equal.
  generalize 4294967295. induction buf as [|b buf IH]; intros c; [done|].
  by rewrite !fold_left_cons, reference_update_bitwise.
Qed.

End crc_sensitivity.

Section chunk_facts.
Import JS Png.
#[local] Open Scope Z_scope.

Implicit Types (buf chunk src A : list byte).

(** Writing at the end of the filled part of a zero-initialised array. *)
Lemma ta_set_fill A n src off :
  off = Z.of_nat (length A) → (length src ≤ n)%nat →
  ta_set (A ++ replicate n x00) src off
  = Some ((A ++ src) ++ replicate (n - length src) x00).
Proof.
  intros -> Hn. unfold ta_set.
  rewrite length_app, length_replicate.
  destruct (Z.ltb_spec (Z.of_nat (length A)) 0); [lia|].
  destruct (Z.ltb_spec (Z.of_nat (length A + n))
              (Z.of_nat (length A) + Z.of_nat (length src))); [lia|].
  simpl. f_equal. rewrite Nat2Z.id.
  rewrite take_app_length, <- (assoc_L (++)). do 2 f_equal.
  rewrite drop_app_ge by lia. rewrite drop_replicate. f_equal. lia.
Qed.

Lemma ta_set_fill0 n src :
  (length src ≤ n)%nat →
  ta_set (replicate n x00) src 0
  = Some (src ++ replicate (n - length src) x00).
Proof. intros H. by apply (ta_set_fill [] n src 0). Qed.

Lemma length_be32 v : length (be32 v) = 4%nat.
Proof. done. Qed.

(** The chunk is length, type, keyword, separator, text and the CRC of
    everything between the length and the CRC. *)
Lemma tavern_chunk_layout text :
  tavern_chunk text =
  Some (be32 (Z.of_nat (length keywordBytes + 1 + length text) mod 2 ^ 32)
        ++ tEXt_type ++ keywordBytes ++ [x00] ++ text
        ++ be32 (crc32 (tEXt_type ++ keywordBytes ++ [x00] ++ text))).
Proof.
  unfold tavern_chunk, setUint32.
  set (L := (length keywordBytes + 1 + length text)%nat).
  set (l := be32 (Z.of_nat L mod 2 ^ 32)).
  rewrite (ta_set_fill0 _ l) by (simpl; lia).
  cbn [mbind option_bind].
  rewrite (ta_set_fill _ _ tEXt_type 4) by (simpl; lia).
  cbn [mbind option_bind].
  rewrite (ta_set_fill _ _ keywordBytes 8) by (simpl; lia).
  cbn [mbind option_bind].
  rewrite (ta_set_fill _ _ [x00]) by (simpl; lia).
  cbn [mbind option_bind].
  rewrite (ta_set_fill _ _ text) by (rewrite ?length_app; simpl; lia).
  cbn [mbind option_bind].
  set (body := tEXt_type ++ keywordBytes ++ [x00] ++ text).
  assert (Hb : ((((l ++ tEXt_type) ++ keywordBytes) ++ [x00]) ++ text)
               = l ++ body).
  { unfold body. by rewrite <- !(assoc_L (++)). }
  rewrite Hb.
  assert (Hs : slice ((l ++ body) ++ replicate
             (4 + 4 + L + 4 - length l - length tEXt_type - length keywordBytes
              - length [x00] - length text) x00) 4 (4 + 4 + L) = body).
  { unfold slice. rewrite <- (assoc_L (++)).
    rewrite (drop_app_length' l) by done.
    replace (4 + 4 + L - 4)%nat with (length body)
      by (unfold body, L; rewrite !length_app; simpl; lia).
    by rewrite take_app_length. }
  rewrite Hs.
  rewrite (Z.mod_small (crc32 body)) by apply crc32_range.
  rewrite (ta_set_fill (l ++ body) _ (be32 (crc32 body)));
    [|unfold body, L; rewrite !length_app; simpl; lia|simpl; lia].
  f_equal. rewrite <- !(assoc_L (++)). f_equal. unfold body.
  rewrite <- !(assoc_L (++)). do 4 f_equal.
  replace (_ - _)%nat with 0%nat by (simpl; lia). by rewrite app_nil_r.
Qed.

(** *** The search for IEND *)

Lemma scan_iend_found buf i0 n i :
  (i0 ≤ i < i0 + n)%nat → is_iend_at buf i = true →
  (∀ j, (i0 ≤ j < i)%nat → is_iend_at buf j = false) →
  scan_iend buf i0 n = Z.of_nat i - 4.
Proof.
  revert i0. induction n as [|n IH]; intros i0 Hi Hat Hbefore; [lia|].
  simpl. destruct (decide (i0 = i)) as [->|Hne].
  - by rewrite Hat.
  - rewrite Hbefore by lia. apply IH; [lia|done|]. intros j Hj. apply Hbefore. lia.
Qed.

Lemma scan_iend_none buf i0 n :
  (∀ j, (i0 ≤ j < i0 + n)%nat → is_iend_at buf j = false) →
  scan_iend buf i0 n = -1.
Proof.
  revert i0. induction n as [|n IH]; intros i0 H; [done|].
  simpl. rewrite H by lia. apply IH. intros j Hj. apply H. lia.
Qed.

(** The loop returns [-1], or the position four bytes before the first
    match below [length - 7]. *)
Lemma scan_iend_cases buf i0 n :
  (scan_iend buf i0 n = -1 ∧
     ∀ j, (i0 ≤ j < i0 + n)%nat → is_iend_at buf j = false)
  ∨ ∃ i, (i0 ≤ i < i0 + n)%nat ∧ is_iend_at buf i = true ∧
         (∀ j, (i0 ≤ j < i)%nat → is_iend_at buf j = false) ∧
         scan_iend buf i0 n = Z.of_nat i - 4.
Proof.
  revert i0. induction n as [|n IH]; intros i0.
  { left. split; [done|]. intros; lia. }
  simpl. destruct (is_iend_at buf i0) eqn:E.
  - right. exists i0. split; [lia|]. split; [done|]. split; [intros; lia|done].
  - destruct (IH (S i0)) as [[H1 H2]|(i & Hi & Hat & Hb & Hr)].
    + left. split; [done|]. intros j Hj.
      destruct (decide (j = i0)) as [->|]; [done|]. apply H2. lia.
    + right. exists i. split; [lia|]. split; [done|]. split; [|done].
      intros j Hj.
      destruct (decide (j = i0)) as [->|]; [done|]. apply Hb. lia.
Qed.

Lemma js_slice_prefix buf (n : nat) :
  (n ≤ length buf)%nat → js_slice buf 0 (Z.of_nat n) = take n buf.
Proof.
  intros Hn. unfold js_slice, rel_index, slice.
  destruct (Z.ltb_spec (Z.of_nat n) 0); [lia|]. simpl.
  rewrite Nat2Z.id, Nat.min_l by lia. rewrite drop_0. f_equal. lia.
Qed.

Lemma js_slice_suffix buf (n : nat) :
  (n ≤ length buf)%nat →
  js_slice buf (Z.of_nat n) (Z.of_nat (length buf)) = drop n buf.
Proof.
  intros Hn. unfold js_slice, rel_index, slice.
  destruct (Z.ltb_spec (Z.of_nat n) 0); [lia|].
  destruct (Z.ltb_spec (Z.of_nat (length buf)) 0); [lia|].
  rewrite !Nat2Z.id. rewrite (Nat.min_l n) by lia. rewrite Nat.min_id.
  apply take_ge. rewrite length_drop. lia.
Qed.

(** The splice, when the search ended at offset [n]. *)
Lemma splice_at buf chunk (n : nat) :
  iendOffset buf = Z.of_nat n → (n ≤ length buf)%nat →
  splice buf chunk = inr (take n buf ++ chunk ++ drop n buf).
Proof.
  intros Hoff Hn. unfold splice. rewrite Hoff.
  destruct (Z.eqb_spec (Z.of_nat n) (-1)); [lia|].
  rewrite js_slice_prefix, js_slice_suffix by done.
  rewrite (ta_set_fill0 _ (take n buf)) by (rewrite length_take; lia).
  cbn [mbind option_bind].
  rewrite (ta_set_fill _ _ chunk);
    [|simpl; rewrite length_take; lia|rewrite length_take; lia].
  cbn [mbind option_bind].
  rewrite ta_set_fill;
    [|rewrite !length_app, length_take; simpl; lia
     |rewrite length_take, length_drop; lia].
  replace (_ - _)%nat with 0%nat by (rewrite length_take, length_drop; lia).
  simpl. by rewrite app_nil_r, <- (assoc_L (++)).
Qed.

Lemma splice_missing buf chunk :
  iendOffset buf = -1 → splice buf chunk = inl MissingIend.
Proof. unfold splice. by intros ->. Qed.

End chunk_facts.

Section locality.
Import JS Png.
#[local] Open Scope Z_scope.

Implicit Types (buf data A B pre rest tail : list byte).

Lemma b2z_z2b z : b2z (z2b z) = z mod 256.
Proof.
  unfold b2z, z2b.
  assert (0 ≤ z mod 256 < 256) as Hr by (apply Z.mod_pos_bound; lia).
  destruct (Byte.of_N (Z.to_N (z mod 256))) as [b|] eqn:E.
  - apply Byte.to_of_N in E. simpl. rewrite E. lia.
  - apply Byte.of_N_None_iff in E. lia.
Qed.

Lemma slice_middle A data B (s e : nat) :
  (e ≤ length data)%nat →
  slice (A ++ data ++ B) (length A + s) (length A + e) = slice data s e.
Proof.
  intros He. unfold slice.
  rewrite drop_app_ge, drop_app by lia.
  replace (length A + s - length A)%nat with s by lia.
  replace (length A + e - (length A + s))%nat with (e - s)%nat by lia.
  rewrite take_app_le; [done|]. rewrite length_drop. lia.
Qed.

Lemma lookup_middle A data B (i : nat) :
  (i < length data)%nat → (A ++ data ++ B) !! (length A + i)%nat = data !! i.
Proof.
  intros Hi. rewrite lookup_app_r by lia.
  replace (length A + i - length A)%nat with i by lia.
  by rewrite lookup_app_l.
Qed.

Lemma byte_is_middle A data B (i : nat) b :
  (i < length data)%nat →
  byte_is (A ++ data ++ B) (length A + i) b = byte_is data i b.
Proof. intros Hi. unfold byte_is. by rewrite lookup_middle. Qed.

Lemma find_nul_middle A data B (i n : nat) :
  (i + n ≤ length data)%nat →
  find_nul (A ++ data ++ B) (length A + i) n
  = (fun k => (length A + k)%nat) <$> find_nul data i n.
Proof.
  revert i. induction n as [|n IH]; intros i Hn; [done|].
  simpl. rewrite byte_is_middle by lia.
  destruct (byte_is data i x00); [done|].
  rewrite <- IH by lia. f_equal. lia.
Qed.

Lemma find_text_start_middle A data B (cur n nc : nat) :
  (cur + n ≤ length data)%nat →
  find_text_start (A ++ data ++ B) (length A + cur) n nc
  = (fun k => (length A + k)%nat) <$> find_text_start data cur n nc.
Proof.
  revert cur nc. induction n as [|n IH]; intros cur nc Hn; [done|].
  simpl. rewrite byte_is_middle by lia.
  replace (S (length A + cur)) with (length A + S cur)%nat by lia.
  destruct (byte_is data cur x00).
  - destruct (nc + 1 =? 2)%nat.
    + simpl. f_equal. lia.
    + by apply IH; lia.
  - by apply IH; lia.
Qed.

Lemma find_nul_bound data i n k :
  find_nul data i n = Some k → (i ≤ k < i + n)%nat.
Proof.
  revert i. induction n as [|n IH]; intros i H; [done|].
  simpl in H. destruct (byte_is data i x00).
  - injection H as <-. lia.
  - apply IH in H. lia.
Qed.

Lemma find_text_start_bound data cur n nc k :
  find_text_start data cur n nc = Some k → (cur < k ≤ cur + n)%nat.
Proof.
  revert cur nc. induction n as [|n IH]; intros cur nc H; [done|].
  simpl in H. destruct (byte_is data cur x00).
  - destruct (nc + 1 =? 2)%nat.
    + injection H as <-. lia.
    + apply IH in H. lia.
  - apply IH in H. lia.
Qed.

Section with_platform.

Variable utf8_decode : list byte → string.
Variable atob : string → option string.
Variable JSON_parse : string → option value.
Variable inflate : bool → list byte → option (list byte).

#[local] Abbreviation readText := (readText utf8_decode).
#[local] Abbreviation chunk_text := (chunk_text utf8_decode inflate).
#[local] Abbreviation chunk_step := (chunk_step utf8_decode atob JSON_parse inflate).
#[local] Abbreviation walk := (walk utf8_decode atob JSON_parse inflate).

Lemma readText_middle A data B (s n : nat) :
  (s + n ≤ length data)%nat →
  readText (A ++ data ++ B) (length A + s) n = readText data s n.
Proof.
  intros H. unfold Png.readText.
  replace (length A + s + n)%nat with (length A + (s + n))%nat by lia.
  by rewrite slice_middle.
Qed.

(** The handling of a chunk depends on its payload only. *)
Lemma chunk_text_middle type A data B :
  chunk_text type (A ++ data ++ B) (length A) (length A + length data)
  = chunk_text type data 0 (length data).
Proof.
  unfold Png.chunk_text.
  replace (length A + length data - length A)%nat with (length data) by lia.
  replace (length data - 0)%nat with (length data) by lia.
  pose proof (find_nul_middle A data B 0 (length data)) as Hf.
  rewrite Nat.add_0_r in Hf. rewrite Hf by lia. clear Hf.
  destruct (find_nul data 0 (length data)) as [sep|] eqn:Hsep; simpl;
    [|by repeat case_match].
  apply find_nul_bound in Hsep.
  replace (length A + sep - length A)%nat with sep by lia.
  replace (sep - 0)%nat with sep by lia.
  pose proof (readText_middle A data B 0 sep) as Hkw.
  rewrite Nat.add_0_r in Hkw. rewrite Hkw by lia. clear Hkw.
  replace (length A + length data - (length A + sep) - 1)%nat
    with (length data - sep - 1)%nat by lia.
  replace (length A + sep + 1)%nat with (length A + (sep + 1))%nat by lia.
  rewrite readText_middle by lia.
  replace (length A + sep + 2)%nat with (length A + (sep + 2))%nat by lia.
  rewrite slice_middle by lia.
  replace (length A + sep + 3)%nat with (length A + (sep + 3))%nat by lia.
  replace (length A + length data - (length A + (sep + 3)))%nat
    with (length data - (sep + 3))%nat by lia.
  destruct (String.eqb type "tEXt"); [done|].
  destruct (String.eqb type "zTXt"); [done|].
  destruct (String.eqb type "iTXt"); [|done].
  destruct (le_lt_dec (length data) (sep + 3)) as [Hle|Hlt].
  { replace (length data - (sep + 3))%nat with 0%nat by lia. done. }
  rewrite find_text_start_middle by lia.
  destruct (find_text_start data (sep + 3) _ 0) as [ts|] eqn:Hts; [|done].
  apply find_text_start_bound in Hts. simpl.
  destruct (Nat.ltb_spec ts (length data)) as [H1|H1];
    destruct (Nat.ltb_spec (length A + ts) (length A + length data)) as [H2|H2];
    try lia; [|done].
  rewrite byte_is_middle by lia.
  rewrite slice_middle by lia.
  replace (length A + length data - (length A + ts))%nat
    with (length data - ts)%nat by lia.
  by rewrite readText_middle by lia.
Qed.

Lemma chunk_step_middle type A data B st :
  chunk_step type (A ++ data ++ B) (length A) (length A + length data) st
  = chunk_step type data 0 (length data) st.
Proof. unfold Png.chunk_step. by rewrite chunk_text_middle. Qed.

End with_platform.

End locality.

Section walk_facts.
Import JS Png.
#[local] Open Scope Z_scope.

Implicit Types (buf data A B pre rest tail : list byte) (c : chunk).

Lemma be32_value v :
  0 ≤ v < 2 ^ 32 →
  b2z (z2b (v / 2 ^ 24)) * 2 ^ 24 + b2z (z2b (v / 2 ^ 16)) * 2 ^ 16
  + b2z (z2b (v / 2 ^ 8)) * 2 ^ 8 + b2z (z2b v) = v.
Proof.
  intros Hv. rewrite !b2z_z2b.
  change (2 ^ 24) with 16777216. change (2 ^ 16) with 65536.
  change (2 ^ 8) with 256. change (2 ^ 32) with 4294967296 in Hv.
  Z.div_mod_to_equations. lia.
Qed.

Lemma getUint32_be32 pre v rest :
  0 ≤ v < 2 ^ 32 → getUint32 (pre ++ be32 v ++ rest) (length pre) = v.
Proof.
  intros Hv. unfold getUint32.
  pose proof (slice_middle pre (be32 v) rest 0 4) as Hs.
  rewrite Nat.add_0_r in Hs. rewrite Hs by done.
  unfold slice, be32. simpl. by apply be32_value.
Qed.

Lemma getUint32_prefix pre tail :
  (8 ≤ length tail)%nat → getUint32 (pre ++ tail) (length pre) = getUint32 tail 0.
Proof.
  intros H. unfold getUint32.
  pose proof (slice_middle pre tail [] 0 4) as Hs.
  rewrite Nat.add_0_r, app_nil_r in Hs. by rewrite Hs by lia.
Qed.

Lemma length_chunk_bytes c :
  wf_chunk c → length (chunk_bytes c) = (12 + length (cdata c))%nat.
Proof.
  intros (Ht & Hc & _). unfold chunk_bytes. rewrite !length_app, Ht, Hc.
  simpl. lia.
Qed.

Lemma chunks_bytes_cons c cs :
  chunks_bytes (c :: cs) = chunk_bytes c ++ chunks_bytes cs.
Proof. done. Qed.

Section with_platform.

Variable utf8_decode : list byte → string.
Variable atob : string → option string.
Variable JSON_parse : string → option value.
Variable inflate : bool → list byte → option (list byte).

#[local] Abbreviation walk := (walk utf8_decode atob JSON_parse inflate).
#[local] Abbreviation scan := (scan utf8_decode atob JSON_parse inflate).
#[local] Abbreviation payload_step :=
  (payload_step utf8_decode atob JSON_parse inflate).
#[local] Abbreviation recorded := (recorded utf8_decode atob JSON_parse inflate).
#[local] Abbreviation candidate := (candidate utf8_decode inflate).

(** One iteration over a complete chunk. *)
Lemma walk_chunk fuel pre c rest st :
  wf_chunk c →
  walk (S fuel) (pre ++ chunk_bytes c ++ rest) (length pre) st
  = walk fuel (pre ++ chunk_bytes c ++ rest)
      (length pre + length (chunk_bytes c)) (payload_step st c).
Proof.
  intros Hwf. pose proof (length_chunk_bytes c Hwf) as Hlen.
  destruct Hwf as (Ht & Hc & Hd).
  set (buf := pre ++ chunk_bytes c ++ rest).
  assert (Hbl : length buf = (length pre + (12 + length (cdata c)) + length rest)%nat).
  { unfold buf. rewrite !length_app, Hlen. lia. }
  cbn [Png.walk].
  destruct (Nat.ltb_spec (length pre) (length buf)); [|lia]. simpl negb. cbv iota.
  destruct (Nat.ltb_spec (length buf) (length pre + 8)); [lia|].
  assert (Hu : getUint32 buf (length pre) = Z.of_nat (length (cdata c))).
  { unfold buf, chunk_bytes. rewrite <- (assoc_L (++) (be32 _)).
    apply getUint32_be32. lia. }
  rewrite Hu.
  destruct (Z.ltb_spec (Z.of_nat (length buf))
              (Z.of_nat (length pre + 8) + Z.of_nat (length (cdata c)))); [lia|].
  rewrite Nat2Z.id.
  assert (Hbuf : buf = (pre ++ be32 (Z.of_nat (length (cdata c))) ++ ctype c)
                        ++ cdata c ++ (ccrc c ++ rest)).
  { unfold buf, chunk_bytes. by rewrite <- !(assoc_L (++)). }
  assert (HA : length (pre ++ be32 (Z.of_nat (length (cdata c))) ++ ctype c)
               = (length pre + 8)%nat).
  { rewrite !length_app, Ht. simpl. lia. }
  assert (Hty : readText utf8_decode buf (length pre + 4) 4
                = utf8_decode (ctype c)).
  { unfold readText.
    assert (buf = (pre ++ be32 (Z.of_nat (length (cdata c))))
                   ++ ctype c ++ (cdata c ++ ccrc c ++ rest)) as ->.
    { unfold buf, chunk_bytes. by rewrite <- !(assoc_L (++)). }
    pose proof (slice_middle (pre ++ be32 (Z.of_nat (length (cdata c))))
                  (ctype c) (cdata c ++ ccrc c ++ rest) 0 4) as Hs.
    rewrite length_app in Hs. simpl length in Hs.
    rewrite Nat.add_0_r in Hs.
    replace (length pre + 4 + 4)%nat with (length pre + 4 + 4)%nat by lia.
    rewrite Hs by lia. unfold slice. simpl. rewrite drop_0.
    by rewrite take_ge by lia. }
  rewrite Hty. unfold Png.payload_step.
  rewrite <- (chunk_step_middle utf8_decode atob JSON_parse inflate _
                (pre ++ be32 (Z.of_nat (length (cdata c))) ++ ctype c)
                (cdata c) (ccrc c ++ rest)).
  rewrite <- Hbuf, HA. f_equal. lia.
Qed.

(** The walk over complete chunks followed by a truncated tail handles
    exactly the complete chunks, in order. *)
Lemma walk_chunks cs : ∀ fuel pre tail st,
  Forall wf_chunk cs → truncated tail → (length cs < fuel)%nat →
  walk fuel (pre ++ chunks_bytes cs ++ tail) (length pre) st
  = fold_left payload_step cs st.
Proof.
  induction cs as [|c cs IH]; intros fuel pre tail st Hwf Htr Hfuel.
  - destruct fuel as [|fuel]; [lia|]. unfold chunks_bytes. simpl.
    rewrite length_app.
    destruct (Nat.ltb_spec (length pre) (length pre + length tail)); [|done].
    simpl negb. cbv iota.
    destruct (Nat.ltb_spec (length pre + length tail) (length pre + 8)); [done|].
    rewrite getUint32_prefix by lia.
    destruct Htr as [Htr|Htr]; [lia|].
    destruct (Z.ltb_spec (Z.of_nat (length pre + length tail))
                (Z.of_nat (length pre + 8) + getUint32 tail 0)); [done|lia].
  - destruct fuel as [|fuel]; [simpl in Hfuel; lia|].
    apply Forall_cons in Hwf as [Hc Hcs].
    rewrite chunks_bytes_cons, <- (assoc_L (++) (chunk_bytes c)).
    rewrite walk_chunk by done.
    rewrite (assoc_L (++) pre), <- length_app.
    simpl. apply IH; [done..|simpl in Hfuel; lia].
Qed.

Lemma length_chunks_bytes cs :
  Forall wf_chunk cs → (12 * length cs ≤ length (chunks_bytes cs))%nat.
Proof.
  induction 1 as [|c cs Hc _ IH]; [done|].
  rewrite chunks_bytes_cons, length_app, length_chunk_bytes by done.
  simpl length. lia.
Qed.

Lemma scan_chunks cs tail :
  Forall wf_chunk cs → truncated tail →
  scan (PNG_SIG ++ chunks_bytes cs ++ tail) = fold_left payload_step cs init_state.
Proof.
  intros Hwf Htr. unfold Png.scan.
  apply (walk_chunks cs _ PNG_SIG tail init_state Hwf Htr).
  pose proof (length_chunks_bytes cs Hwf). rewrite !length_app. simpl. lia.
Qed.

(** The state after a run of chunks: the last recorded value and the
    candidates in encounter order. *)
Lemma fold_payload_step cs st :
  fold_left payload_step cs st
  = {| characterData := default (characterData st) (last (omap recorded cs));
       fallbackChunks := fallbackChunks st ++ omap candidate cs |}.
Proof.
  revert st. induction cs as [|c cs IH]; intros st.
  { simpl. rewrite app_nil_r. by destruct st. }
  simpl fold_left. rewrite IH. clear IH.
  unfold Png.payload_step, chunk_step, Png.recorded, Png.candidate.
  simpl omap. unfold Png.payload_text.
  destruct (chunk_text _ _ _ _ _ _) as [[ok txt]|]; [|done].
  unfold take_text. cbn [characterData fallbackChunks]. f_equal.
  - destruct ok; [|done].
    destruct (interpret _ _ _ txt) as [v|]; [|done]. simpl.
    rewrite last_cons. by destruct (last _).
  - destruct (is_candidate txt); [|done]. by rewrite <- (assoc_L (++)).
Qed.

End with_platform.

End walk_facts.

Section heap_facts.
Import JS Heap.

Implicit Types (h : list hobj) (v : hval).

Lemma grows_ret {A} (a : A) : grows (mret a).
Proof. intros h a' h' [= _ <-]. done. Qed.

Lemma grows_bind {A B} (m : M A) (f : A → M B) :
  grows m → (∀ a, grows (f a)) → grows (m ≫= f).
Proof.
  intros Hm Hf h b h' H. unfold mbind, M_bind in H.
  destruct (m h) as [[a h1]|] eqn:E; [|done].
  etrans; [by eapply Hm|by eapply Hf].
Qed.

Lemma grows_read {A} (f : list hobj → option A) : grows (read f).
Proof.
  intros h a h' H. unfold read in H. destruct (f h); [|done].
  by injection H as _ <-.
Qed.

Lemma grows_alloc o : grows (alloc o).
Proof. intros h a h' [= _ <-]. by apply prefix_app_r. Qed.

Lemma grows_or_alloc a o : grows (or_alloc a o).
Proof.
  unfold or_alloc. destruct (h_truthy a); [apply grows_ret|apply grows_alloc].
Qed.

Lemma grows_mapM_h {A B} (f : A → M B) l :
  (∀ x, grows (f x)) → grows (mapM_h f l).
Proof.
  intros Hf. induction l as [|x l IH]; simpl; [apply grows_ret|].
  apply grows_bind; [done|]. intros y.
  apply grows_bind; [done|]. intros ys. apply grows_ret.
Qed.

Lemma prefix_preserved h h' : h `prefix_of` h' → preserved h h'.
Proof. intros Hp l o Hl. by eapply prefix_lookup_Some. Qed.

Section with_to_string.

Variable to_string_h : list hobj → hval → option string.

Lemma grows_tags_of_h t : grows (tags_of_h to_string_h t).
Proof.
  unfold tags_of_h. apply grows_bind; [apply grows_alloc|]. intros e.
  destruct t; try apply grows_ret.
  - repeat (apply grows_bind; [apply grows_alloc|]; intros ?).
    apply grows_alloc.
  - apply grows_bind; [apply grows_read|]. intros [ts|]; [|apply grows_ret].
    apply grows_bind; [apply grows_read|]. intros ss.
    apply grows_bind; [apply grows_alloc|]. intros ?. apply grows_alloc.
Qed.

Lemma grows_add_keysInput_h e : grows (add_keysInput_h to_string_h e).
Proof.
  unfold add_keysInput_h.
  apply grows_bind; [apply grows_read|]. intros ki.
  apply grows_bind; [apply grows_read|]. intros props. apply grows_alloc.
Qed.

Lemma grows_book_of_h cb : grows (book_of_h to_string_h cb).
Proof.
  unfold book_of_h. apply grows_bind; [apply grows_read|]. intros entries.
  destruct (h_truthy entries); [|apply grows_ret].
  apply grows_bind; [apply grows_read|]. intros es.
  apply grows_bind; [apply grows_mapM_h, grows_add_keysInput_h|]. intros es'.
  apply grows_bind; [apply grows_alloc|]. intros arr.
  apply grows_bind; [apply grows_read|]. intros props. apply grows_alloc.
Qed.

Lemma grows_buildCharacter_h root fn av i f t :
  grows (buildCharacter_h to_string_h root fn av i f t).
Proof.
  unfold buildCharacter_h.
  apply grows_bind; [apply grows_read|]. intros d.
  apply grows_bind; [apply grows_read|]. intros d_tags.
  apply grows_bind; [apply grows_tags_of_h|]. intros tgs.
  apply grows_bind; [apply grows_read|]. intros cb.
  apply grows_bind; [apply grows_book_of_h|]. intros book.
  apply grows_bind; [apply grows_read|]. intros rd.
  apply grows_bind; [apply grows_or_alloc|]. intros ag.
  apply grows_bind; [apply grows_or_alloc|]. intros qr.
  apply grows_bind; [apply grows_or_alloc|]. intros ext.
  apply grows_ret.
Qed.

End with_to_string.

End heap_facts.

Section heap_import.
Import JS Heap.

Implicit Types (h : list hobj) (v : hval).

Lemma bind_inv {A B} (m : M A) (f : A → M B) h b h' :
  (m ≫= f) h = Some (b, h') → ∃ a h1, m h = Some (a, h1) ∧ f a h1 = Some (b, h').
Proof.
  unfold mbind, M_bind. destruct (m h) as [[a h1]|]; [|done]. eauto.
Qed.

Lemma read_inv {A} (f : list hobj → option A) h a h' :
  read f h = Some (a, h') → f h = Some a ∧ h' = h.
Proof. unfold read. destruct (f h); [|done]. by intros [= -> ->]. Qed.

Lemma alloc_inv o h v h' :
  alloc o h = Some (v, h') → v = HRef (length h) ∧ h' = h ++ [o].
Proof. by intros [= <- <-]. Qed.

Lemma closed_lookup h l o : closed h → h !! l = Some o → valid_obj h o.
Proof. intros Hc Hl. eapply Forall_forall in Hc; [done|]. by eapply list_elem_of_lookup_2. Qed.

Lemma valid_h_get h v k x :
  closed h → h_get h v k = Some x → valid h x.
Proof.
  intros Hc. destruct v; simpl; try by intros [= <-].
  destruct (h !! l) as [[m|es]|] eqn:E; try by intros [= <-].
  - intros [= <-]. apply (closed_lookup _ _ _ Hc) in E. simpl in E.
    destruct (m !! k) as [x|] eqn:Ek; [|done]. simpl.
    by eapply map_Forall_lookup_1 in E.
  - intros [= <-]. by destruct (array_method k).
Qed.

Section with_to_string.

Variable to_string_h : list hobj → hval → option string.

Lemma unwrap_h_valid h root d :
  closed h → valid h root → unwrap_h h root = Some d → valid h d.
Proof.
  intros Hc Hr. unfold unwrap_h. intros H.
  destruct (h_get h root "spec") as [spec|]; [|done]. simpl in H.
  destruct (h_get h root "data") as [data|] eqn:Ed; [|done]. simpl in H.
  destruct (h_get h root "name") as [nm|]; [|done]. simpl in H.
  apply (valid_h_get _ _ _ _ Hc) in Ed.
  repeat case_match; by simplify_eq.
Qed.

(** Reading through a grown store gives the same tree. *)
Lemma reify_preserved n : ∀ h h' v,
  closed h → preserved h h' → valid h v → reify n h' v = reify n h v.
Proof.
  induction n as [|n IH]; intros h h' v Hc Hp Hv; [by destruct v|].
  destruct v; try done. simpl in Hv.
  apply lookup_lt_is_Some_2 in Hv as [o Ho]. cbn [reify].
  rewrite (Hp _ _ Ho), Ho.
  apply (closed_lookup _ _ _ Hc) in Ho. destruct o as [m|es]; simpl in Ho.
  - f_equal. apply map_fmap_ext. intros k x Hk. apply IH; [done..|].
    by eapply map_Forall_lookup_1 in Ho.
  - f_equal. apply Forall_fmap_ext. eapply Forall_impl; [exact Ho|].
    intros x Hx. by apply IH.
Qed.

Lemma add_keysInput_h_fresh e h e' h' :
  add_keysInput_h to_string_h e h = Some (e', h') → helper_entry h h' e'.
Proof.
  unfold add_keysInput_h. intros H.
  apply bind_inv in H as (ki & h1 & (_ & ->)%read_inv & H).
  apply bind_inv in H as (props & h2 & (_ & ->)%read_inv & H).
  apply alloc_inv in H as [-> ->].
  eexists _, _. split; [done|]. split; [done|]. split.
  - by rewrite lookup_app_r, Nat.sub_diag by done.
  - by rewrite lookup_insert_eq.
Qed.

Lemma helper_entry_mono h0 h1 h' h'' e :
  length h0 ≤ length h1 → h' `prefix_of` h'' →
  helper_entry h1 h' e → helper_entry h0 h'' e.
Proof.
  intros Hl Hp (l & m & -> & Hf & Hm & Hk).
  exists l, m. split; [done|]. split; [lia|]. split; [|done].
  by eapply prefix_lookup_Some.
Qed.

Lemma mapM_h_add_fresh es : ∀ h es' h',
  mapM_h (add_keysInput_h to_string_h) es h = Some (es', h') →
  Forall (helper_entry h h') es' ∧ length es' = length es.
Proof.
  induction es as [|e es IH]; intros h es' h' H.
  { injection H as <- <-. by split. }
  simpl in H.
  apply bind_inv in H as (e' & h1 & He & H).
  apply bind_inv in H as (es1 & h2 & Hes & H).
  injection H as <- <-.
  pose proof (grows_add_keysInput_h to_string_h e _ _ _ He) as Hg1.
  pose proof (grows_mapM_h _ es (grows_add_keysInput_h to_string_h) _ _ _ Hes) as Hg2.
  apply IH in Hes as [Hes Hlen]. split; [|simpl; lia].
  constructor.
  - eapply helper_entry_mono; [done|exact Hg2|].
    by apply add_keysInput_h_fresh in He.
  - eapply Forall_impl; [exact Hes|]. intros x Hx.
    apply (helper_entry_mono h h1 h2 h2); [by apply prefix_length|done|exact Hx].
Qed.

(** The typed book: when [character_book?.entries] is truthy it is a new
    object holding a new array of new entries; otherwise it is the source's
    own value. *)
Lemma book_of_h_spec cb h b h' :
  book_of_h to_string_h cb h = Some (b, h') →
  if h_truthy (h_get_opt h cb "entries") then
    ∃ lb la props es es',
      b = HRef lb ∧ length h ≤ lb ∧
      h' !! lb = Some (HObject (<["entries" := HRef la]> props)) ∧
      length h ≤ la ∧ h' !! la = Some (HArray es') ∧
      h_elems h (h_get_opt h cb "entries") = Some es ∧
      length es' = length es ∧ Forall (helper_entry h h') es'
  else b = cb ∧ h' = h.
Proof.
  unfold book_of_h. intros H.
  apply bind_inv in H as (entries & h1 & ([= <-] & ->)%read_inv & H).
  destruct (h_truthy (h_get_opt h cb "entries")); [|by injection H as <- <-].
  apply bind_inv in H as (es & h1 & (Hes & ->)%read_inv & H).
  apply bind_inv in H as (es' & h1 & Hmap & H).
  apply bind_inv in H as (arr & h2 & [-> ->]%alloc_inv & H).
  apply bind_inv in H as (props & h3 & (_ & ->)%read_inv & H).
  apply alloc_inv in H as [-> ->].
  pose proof (grows_mapM_h _ es (grows_add_keysInput_h to_string_h) _ _ _ Hmap)
    as Hg%prefix_length.
  apply mapM_h_add_fresh in Hmap as [Hfresh Hlen].
  exists (length (h1 ++ [HArray es'])), (length h1), props, es, es'.
  split; [done|]. split; [rewrite length_app; simpl; lia|].
  split; [by rewrite lookup_app_r, Nat.sub_diag by done|].
  split; [done|].
  split.
  { rewrite lookup_app_l by (rewrite length_app; simpl; lia).
    by rewrite lookup_app_r, Nat.sub_diag by done. }
  split; [done|]. split; [done|].
  eapply Forall_impl; [exact Hfresh|]. intros x Hx.
  apply (helper_entry_mono h h h1 _); [done| |exact Hx].
  etrans; apply prefix_app_r; done.
Qed.

(** The shape of a successful import. *)
Lemma buildCharacter_h_inv root fn av i f t h c h' :
  buildCharacter_h to_string_h root fn av i f t h = Some (c, h') →
  ∃ h1 h2 cb,
    unwrap_h h root = Some (rawData c) ∧
    h `prefix_of` h1 ∧ h_get h1 (rawData c) "character_book" = Some cb ∧
    book_of_h to_string_h cb h1 = Some (character_book c, h2) ∧
    h2 `prefix_of` h'.
Proof.
  unfold buildCharacter_h. intros H.
  apply bind_inv in H as (d & h0 & (Hd & ->)%read_inv & H).
  apply bind_inv in H as (d_tags & h0 & (_ & ->)%read_inv & H).
  apply bind_inv in H as (tgs & h1 & Htags & H).
  apply bind_inv in H as (cb & h1' & (Hcb & ->)%read_inv & H).
  apply bind_inv in H as (book & h2 & Hbook & H).
  apply bind_inv in H as (rd & h2' & (_ & ->)%read_inv & H).
  apply bind_inv in H as (ag & h3 & Hag & H).
  apply bind_inv in H as (qr & h4 & Hqr & H).
  apply bind_inv in H as (ext & h5 & Hext & H).
  injection H as <- <-. simpl.
  exists h1, h2, cb. split; [done|].
  split; [by eapply grows_tags_of_h|]. split; [done|]. split; [done|].
  etrans; [by eapply grows_or_alloc|].
  etrans; [by eapply grows_or_alloc|]. by eapply grows_or_alloc.
Qed.

End with_to_string.

End heap_import.

Section card_claims.
Import JS Card.

Implicit Types (c : Character) (e : Envelope) (m : gmap string value).

Lemma cycle_export_deterministic c c' e :
  normalised c → cycle c c' → buildExportData c = Some e →
  buildExportData c' = Some e.
Proof.
  intros Hn [e1 fn av i f t He1 Hb] He.
  destruct (normalised_reexport c Hn) as (e0 & He0 & Hre).
  destruct (Hre fn av i f t) as (c'' & Hb' & He'').
  assert (e1 = e0) as -> by congruence.
  assert (e = e0) as -> by congruence.
  congruence.
Qed.

Lemma cycle_normalised c c' : cycle c c' → normalised c'.
Proof. intros [e fn av i f t _ Hb]. by eapply import_normalised. Qed.

(** C1 (as amended): the export envelope is the version-2 envelope whose
    data object keeps every key of rawData outside the typed field set with
    its original value, and maps the typed keys to the record's current
    values: name, description, personality and first_mes exactly, the
    other fields with their empty default in place of a falsy value, and
    character_book to the record's book with the helper stripped (or to
    rawData's book when the record has none); typed values take precedence
    over same-named keys of rawData.  Through any number of export and
    re-import cycles the unknown key keeps its original value.  The data
    object is reproduced exactly by export, re-import, export when the
    record is normalised, as every record produced by an import is; hence
    for any record every export after the first re-import is the same. *)
Theorem C1_export_merge_round_trip c m k v e :
  rawData c = VObj m → m !! k = Some v → k ∉ typed_keys →
  buildExportData c = Some e →
  (spec e = "chara_card_v2" ∧ spec_version e = "2.0") ∧
  data e !! k = Some v ∧
  (data e !! "name" = Some (name c) ∧
   data e !! "description" = Some (description c) ∧
   data e !! "personality" = Some (personality c) ∧
   data e !! "first_mes" = Some (firstMessage c) ∧
   data e !! "alternate_greetings"
     = Some (or_else (alternate_greetings c) (VArr [])) ∧
   data e !! "scenario" = Some (or_else (scenario c) (VStr "")) ∧
   data e !! "mes_example" = Some (or_else (mes_example c) (VStr "")) ∧
   data e !! "system_prompt" = Some (or_else (system_prompt c) (VStr "")) ∧
   data e !! "post_history_instructions"
     = Some (or_else (post_history_instructions c) (VStr "")) ∧
   data e !! "creator_notes" = Some (or_else (creator_notes c) (VStr "")) ∧
   data e !! "creator" = Some (or_else (creator c) (VStr "")) ∧
   data e !! "character_version"
     = Some (or_else (character_version c) (VStr "")) ∧
   data e !! "tags" = Some (or_else (tags c) (VArr [])) ∧
   data e !! "extensions" = Some (or_else (extensions c) (VObj ∅)) ∧
   data e !! "character_book"
     = export_book_of (character_book c) (fld m "character_book")) ∧
  (∀ c' e', rtc cycle c c' → buildExportData c' = Some e' →
            data e' !! k = Some v) ∧
  (∀ c', cycle c c' → rawData c' = VObj (data e)) ∧
  (normalised c →
   ∀ fn av i f t, ∃ c',
     buildCharacter (envelope_value e) fn av i f t = Some c' ∧
     buildExportData c' = Some e) ∧
  (∀ root fn av i f t, buildCharacter root fn av i f t = Some c → normalised c) ∧
  (∀ c1 e1 c2, cycle c c1 → buildExportData c1 = Some e1 → cycle c1 c2 →
               buildExportData c2 = Some e1).
Proof.
  intros Hraw Hk Hnot He.
  assert (Hbase : export_base c = m).
  { unfold export_base. by rewrite Hraw. }
  pose proof He as (b & Hb & ->)%buildExportData_Some.
  set (e := mkEnvelope _ _ _) in *.
  assert (Hty : ∀ k' v', editedFields c b !! k' = Some v' → data e !! k' = Some v').
  { intros. by eapply export_lookup_typed. }
  split; [done|]. split.
  { rewrite (export_lookup_unknown c e k He Hnot). by rewrite Hbase. }
  split.
  { repeat (split; [by apply Hty|]).
    rewrite (Hty "character_book" b eq_refl). rewrite <- Hb.
    unfold export_book. by rewrite Hbase. }
  split.
  { intros c' e' Hcyc He'.
    rewrite (export_lookup_unknown c' e' k He' Hnot).
    rewrite (cycles_base_unknown c c' k Hcyc Hnot). by rewrite Hbase. }
  split.
  { intros c' (e1 & He1 & Hr)%cycle_rawData. congruence. }
  split.
  { intros Hn fn av i f t.
    destruct (normalised_reexport c Hn) as (e0 & He0 & Hre).
    assert (e0 = e) as -> by congruence. apply Hre. }
  split.
  { intros root fn av i f t. apply import_normalised. }
  intros c1 e1 c2 H1 He1 H2.
  eapply cycle_export_deterministic; [|done..]. by eapply cycle_normalised.
Qed.

(** C5 (as amended): for a root object, the body that becomes rawData is
    root.data when root.spec is the string chara_card_v2 and root.data is
    truthy; otherwise root.data when root.name is falsy (absent or empty)
    and root.data.name is truthy; otherwise the root itself. *)
Theorem C5_unwrap_rule m :
  ∃ body,
    unwrap (VObj m) = Some body ∧
    (str_eq (fld m "spec") "chara_card_v2" = true →
     truthy (fld m "data") = true → body = fld m "data") ∧
    (¬ (str_eq (fld m "spec") "chara_card_v2" = true ∧
        truthy (fld m "data") = true) →
     truthy (fld m "name") = false →
     truthy (get_opt (fld m "data") "name") = true → body = fld m "data") ∧
    (¬ (str_eq (fld m "spec") "chara_card_v2" = true ∧
        truthy (fld m "data") = true) →
     ¬ (truthy (fld m "name") = false ∧
        truthy (get_opt (fld m "data") "name") = true) →
     body = VObj m) ∧
    (∀ fn av i f t c,
       buildCharacter (VObj m) fn av i f t = Some c → rawData c = body).
Proof.
  unfold unwrap. cbn [get mbind option_bind]. fold (fld m "spec").
  fold (fld m "data"). fold (fld m "name").
  destruct (str_eq (fld m "spec") "chara_card_v2") eqn:Es;
    destruct (truthy (fld m "data")) eqn:Ed;
    destruct (truthy (fld m "name")) eqn:En;
    destruct (truthy (get_opt (fld m "data") "name")) eqn:Edn;
    cbn [andb negb]; eexists; (split; [reflexivity|]);
    (split; [try done; naive_solver|]);
    (split; [try done; naive_solver|]);
    (split; [try done; naive_solver|]);
    intros fn av i f t c Hc; apply buildCharacter_rawData in Hc;
    unfold unwrap in Hc; cbn [get mbind option_bind] in Hc;
    fold (fld m "spec") in Hc; fold (fld m "data") in Hc;
    fold (fld m "name") in Hc; rewrite Es, Ed, En, ?Edn in Hc;
    cbn [andb negb] in Hc; by injection Hc.
Qed.

Lemma exportQrData_qrList qr extra : exportQrData qr extra !! "qrList" = Some qr.
Proof. unfold exportQrData. apply lookup_insert_eq. Qed.

Lemma exportQrData_other qr extra k :
  k ≠ "qrList" →
  exportQrData qr extra !! k
  = (spread (match extra with VUndef => VObj ∅ | x => x end) ∪ qr_scaffold) !! k.
Proof. intros H. unfold exportQrData. by rewrite lookup_insert_ne. Qed.

Lemma zipQrData_stale c o stale :
  zipQrData c = Some o →
  spread (or_else (extra_qr_data c) (VObj ∅)) !! "qrList" = Some stale →
  o !! "qrList" = Some stale.
Proof.
  unfold zipQrData. intros H Hs. destruct (to_string (name c)); [|done].
  injection H as <-. by apply lookup_union_Some_l.
Qed.

End card_claims.

Section tc1_closed.

Import JS Card.

(** C1, the claim as stated, fails: the record whose first message was
    cleared, over a body that keeps the legacy intro key and an unknown
    key, exports first_mes empty, re-imports the intro as first message and
    exports a different data object. *)
Lemma C1_reexport_changes_data :
  rawData Sample.cleared_greeting = VObj Sample.cleared_raw ∧
  Sample.cleared_raw !! "custom" = Some (VNum 1) ∧
  ("custom" ∉ typed_keys) ∧
  buildExportData Sample.cleared_greeting = Some Sample.cleared_export ∧
  cycle Sample.cleared_greeting Sample.reimported ∧
  buildExportData Sample.reimported = Some Sample.reexport ∧
  data Sample.cleared_export !! "first_mes" = Some (VStr "") ∧
  data Sample.reexport !! "first_mes" = Some (VStr "hi") ∧
  data Sample.reexport ≠ data Sample.cleared_export.
Proof.
  assert (H1 : data Sample.cleared_export !! "first_mes" = Some (VStr ""))
    by (by vm_compute).
  assert (H2 : data Sample.reexport !! "first_mes" = Some (VStr "hi"))
    by (by vm_compute).
  split; [reflexivity|]. split; [by vm_compute|].
  split; [apply (bool_decide_unpack _); by vm_compute|].
  split; [by vm_compute|].
  split.
  { apply (cycle_intro _ _ Sample.cleared_export "a.json" "a.png" "2" FmtJson 0);
      by vm_compute. }
  split; [by vm_compute|]. split; [exact H1|]. split; [exact H2|].
  intros H. rewrite H in H2. rewrite H1 in H2. clear H. discriminate.
Qed.

(** A record to which C1 applies in full: the body of the example as a
    fresh import leaves it. *)
Lemma C1_export_merge_round_trip_witness :
  buildCharacter (VObj Sample.cleared_raw) "a.json" "a.png" "1" FmtJson 0
    = Some Sample.imported ∧
  buildExportData Sample.imported = Some Sample.imported_export ∧
  data Sample.imported_export !! "custom" = Some (VNum 1) ∧
  data Sample.imported_export !! "first_mes" = Some (VStr "hi") ∧
  ∀ c1 e1 c2, cycle Sample.imported c1 → buildExportData c1 = Some e1 →
              cycle c1 c2 → buildExportData c2 = Some e1.
Proof.
  assert (Hnot : "custom" ∉ typed_keys)
    by (apply (bool_decide_unpack _); vm_compute; exact I).
  assert (Hexp : buildExportData Sample.imported = Some Sample.imported_export)
    by (vm_compute; reflexivity).
  pose proof (C1_export_merge_round_trip Sample.imported Sample.cleared_raw
                "custom" (VNum 1) Sample.imported_export
                eq_refl eq_refl Hnot Hexp)
    as (_ & Hk & (_ & _ & _ & Hfm & _) & _ & _ & _ & _ & Hcyc).
  split; [vm_compute; reflexivity|]. split; [exact Hexp|].
  split; [exact Hk|]. split; [exact Hfm|]. exact Hcyc.
Defined.

(** C5, the claim as stated, fails: a root that has a name field, the empty
    string, and no version-2 marker is still unwrapped to its nested
    data. *)
Lemma C5_empty_name_is_unwrapped :
  Sample.empty_named !! "name" = Some (VStr "") ∧
  Sample.empty_named !! "spec" = None ∧
  unwrap (VObj Sample.empty_named) = Some (Sample.card "A") ∧
  unwrap (VObj Sample.empty_named) ≠ Some (VObj Sample.empty_named).
Proof.
  assert (H1 : unwrap (VObj Sample.empty_named) = Some (Sample.card "A"))
    by (by vm_compute).
  split; [by vm_compute|]. split; [by vm_compute|]. split; [exact H1|].
  rewrite H1. intros H.
  assert (H2 : get (VObj Sample.empty_named) "data" = Some (Sample.card "A"))
    by (by vm_compute).
  assert (H3 : get (Sample.card "A") "data" = Some VUndef) by (by vm_compute).
  assert (H4 : Sample.card "A" = VObj Sample.empty_named) by congruence.
  rewrite H4, H2 in H3. discriminate.
Qed.

(** The unwrap rule at the root of the previous example. *)
Lemma C5_unwrap_rule_witness :
  ∃ body, unwrap (VObj Sample.empty_named) = Some body ∧
          body = fld Sample.empty_named "data".
Proof.
  destruct (C5_unwrap_rule Sample.empty_named) as (body & Hu & _ & H2 & _).
  exists body. split; [exact Hu|].
  apply H2; [|reflexivity|reflexivity].
  intros [H _]. vm_compute in H. discriminate.
Defined.

(** C9: the object written by exportQrData always holds the current list
    under qrList, but the quick-reply object written into an archive
    spreads the retained raw object after the current list, so a retained
    qrList replaces it; that object also lacks the feature flags and the
    colour of the scaffold. *)
Theorem C9_archive_quick_reply_keeps_stale_list :
  qrList Sample.edited_qr = VArr [Sample.qr_item "New"] ∧
  exportQrData (qrList Sample.edited_qr) (extra_qr_data Sample.edited_qr)
    !! "qrList" = Some (VArr [Sample.qr_item "New"]) ∧
  zipQrData Sample.edited_qr = Some Sample.archive_qr ∧
  Sample.archive_qr !! "qrList" = Some (VArr [Sample.qr_item "Old"]) ∧
  Sample.archive_qr !! "disableSend" = None ∧
  Sample.archive_qr !! "color" = None.
Proof. repeat split; by vm_compute. Qed.

End tc1_closed.

Section crc_claim.
Import JS Png.
#[local] Open Scope Z_scope.

(** C4: crc32 is the CRC of the PNG specification: it equals the
    table-driven reference over unsigned 32-bit values (reflected polynomial
    0xEDB88320, initial value and final exclusive-or 0xFFFFFFFF), which is
    the bit-by-bit CRC, and its result is an unsigned 32-bit value; the
    trailer of the injected chunk is the big-endian crc32 of the type bytes
    followed by the payload bytes; and replacing any single byte of any
    buffer changes its crc32. *)
Theorem C4_crc32_is_the_png_crc :
  (∀ buf, crc32 buf = reference_crc buf ∧ reference_crc buf = bitwise_crc buf ∧
          0 ≤ crc32 buf < 2 ^ 32) ∧
  crc32 (ascii_bytes "123456789") = 0xCBF43926 ∧
  (∀ text, ∃ len,
     length len = 4%nat ∧
     tavern_chunk text
     = Some (len ++ (tEXt_type ++ keywordBytes ++ [x00] ++ text)
                 ++ be32 (crc32 (tEXt_type ++ keywordBytes ++ [x00] ++ text)))) ∧
  (∀ pre b b' post,
     b ≠ b' → crc32 (pre ++ b :: post) ≠ crc32 (pre ++ b' :: post)).
Proof.
  split; [|split; [|split]].
  - intros buf. split; [apply crc32_reference|].
    split; [apply reference_crc_bitwise|apply crc32_range].
  - by vm_compute.
  - intros text. eexists. split; [|rewrite tavern_chunk_layout].
    + apply length_be32.
    + by rewrite <- !(assoc_L (++)).
  - intros pre b b' post Hb. rewrite !crc32_reference.
    by apply reference_crc_single_byte.
Qed.

End crc_claim.

Section tc2_closed.

Import JS Png.
#[local] Open Scope Z_scope.

(** One byte changed in a two-byte buffer. *)
Lemma C4_crc32_is_the_png_crc_witness :
  crc32 [x00; x01] ≠ crc32 [x00; x02].
Proof.
  destruct C4_crc32_is_the_png_crc as (_ & _ & _ & H).
  apply (H [x00] x01 x02 []). discriminate.
Defined.

End tc2_closed.

Section parse_claims.
Import JS Png.
#[local] Open Scope Z_scope.

Variable utf8_decode : list byte → string.
Variable atob : string → option string.
Variable JSON_parse : string → option value.
Variable inflate : bool → list byte → option (list byte).

#[local] Abbreviation scan := (scan utf8_decode atob JSON_parse inflate).
#[local] Abbreviation recorded := (recorded utf8_decode atob JSON_parse inflate).
#[local] Abbreviation candidate := (candidate utf8_decode inflate).
#[local] Abbreviation payload_text := (payload_text utf8_decode inflate).
#[local] Abbreviation interpret := (interpret utf8_decode atob JSON_parse).
#[local] Abbreviation decodeBase64Utf8 := (decodeBase64Utf8 utf8_decode atob).
#[local] Abbreviation fallback_accept :=
  (fallback_accept utf8_decode atob JSON_parse).
#[local] Abbreviation first_accepted :=
  (first_accepted utf8_decode atob JSON_parse).
#[local] Abbreviation parseCardData :=
  (parseCardData utf8_decode atob JSON_parse inflate).
#[local] Abbreviation walk := (walk utf8_decode atob JSON_parse inflate).
#[local] Abbreviation walk_checked :=
  (walk_checked utf8_decode atob JSON_parse inflate).
#[local] Abbreviation scan_checked :=
  (scan_checked utf8_decode atob JSON_parse inflate).
#[local] Abbreviation parseCardData_checked :=
  (parseCardData_checked utf8_decode atob JSON_parse inflate).

Implicit Types (cs : list chunk) (tail : list byte).

Lemma check_signature_app rest : check_signature (PNG_SIG ++ rest) = true.
Proof. reflexivity. Qed.

Lemma scan_state_chunks cs tail :
  Forall wf_chunk cs → truncated tail →
  scan (PNG_SIG ++ chunks_bytes cs ++ tail)
  = {| characterData := default VNull (last (omap recorded cs));
       fallbackChunks := omap candidate cs |}.
Proof.
  intros Hwf Htr. rewrite scan_chunks by done. by rewrite fold_payload_step.
Qed.

Lemma last_omap_split {A B} (f : A → option B) l1 x l2 y :
  f x = Some y → Forall (fun z => f z = None) l2 →
  last (omap f (l1 ++ x :: l2)) = Some y.
Proof.
  intros Hx Hl2. rewrite omap_app.
  assert (omap f (x :: l2) = [y]) as ->.
  { simpl. rewrite Hx. f_equal.
    induction Hl2 as [|z l Hz _ IH]; [done|]. simpl. by rewrite Hz. }
  by rewrite last_snoc.
Qed.

Lemma omap_single {A B} (f : A → option B) l1 x l2 y :
  f x = Some y → Forall (fun z => f z = None) (l1 ++ l2) →
  omap f (l1 ++ x :: l2) = [y].
Proof.
  intros Hx [H1 H2]%Forall_app.
  assert (Hnil : ∀ l, Forall (fun z => f z = None) l → omap f l = []).
  { induction 1 as [|z l Hz _ IH]; [done|]. simpl. by rewrite Hz. }
  assert (Hc : omap f (x :: l2) = y :: omap f l2) by (simpl; by rewrite Hx).
  by rewrite omap_app, (Hnil l1 H1), Hc, (Hnil l2 H2).
Qed.

Lemma truncated_nil : truncated [].
Proof. left. simpl. lia. Qed.

Lemma has_name_truthy d : has_name d = Some true → truthy d = true.
Proof.
  destruct d; try done; unfold has_name; simpl; by intros [=].
Qed.

Lemma fallback_accept_named txt d :
  fallback_accept txt = Some d →
  has_name d = Some true ∧
  (decodeBase64Utf8 txt ≫= JSON_parse = Some d ∨ JSON_parse txt = Some d).
Proof.
  unfold Png.fallback_accept.
  assert (Hraw : match JSON_parse txt with
                 | Some d0 => if bool_decide (has_name d0 = Some true)
                              then Some d0 else None
                 | None => None
                 end = Some d →
                 has_name d = Some true ∧ JSON_parse txt = Some d).
  { destruct (JSON_parse txt) as [d0|]; [|done].
    case_bool_decide; [|done]. by intros [= <-]. }
  destruct (Png.decodeBase64Utf8 _ _ txt ≫= JSON_parse) as [d0|] eqn:E.
  - destruct (has_name d0) as [[|]|] eqn:Hn; try done.
    + intros [= <-]. auto.
    + intros H. apply Hraw in H as [? ?]. auto.
  - intros H. apply Hraw in H as [? ?]. auto.
Qed.

(** The acceptance rule of the fallback loop, in both directions. *)
Lemma has_name_None d : has_name d = None ↔ d = VNull ∨ d = VUndef.
Proof.
  unfold has_name. split.
  - destruct d as [| | | | |l|m|]; auto; simpl; try done.
    by destruct (truthy (default VUndef (m !! "name"))).
  - by intros [-> | ->].
Qed.

Lemma fallback_accept_iff txt d :
  fallback_accept txt = Some d ↔
  (decodeBase64Utf8 txt ≫= JSON_parse = Some d ∧ has_name d = Some true) ∨
  ((decodeBase64Utf8 txt ≫= JSON_parse = None ∨
    ∃ d0, decodeBase64Utf8 txt ≫= JSON_parse = Some d0 ∧ has_name d0 = None) ∧
   JSON_parse txt = Some d ∧ has_name d = Some true).
Proof.
  unfold Png.fallback_accept.
  assert (Hraw : match JSON_parse txt with
                 | Some d0 => if bool_decide (has_name d0 = Some true)
                              then Some d0 else None
                 | None => None
                 end = Some d ↔
                 JSON_parse txt = Some d ∧ has_name d = Some true).
  { destruct (JSON_parse txt) as [d1|]; [|by split; [|intros [? _]]].
    case_bool_decide as Hn.
    - split; [by intros [= <-]|]. by intros [[= <-] _].
    - split; [done|]. intros [[= <-] ?]. done. }
  destruct (Png.decodeBase64Utf8 _ _ txt ≫= JSON_parse) as [d0|] eqn:E.
  - destruct (has_name d0) as [[|]|] eqn:Hn.
    + split.
      * intros [= <-]. by left.
      * intros [[[= <-] _]|[[?|(d1 & [= <-] & ?)] _]]; [done|done|congruence].
    + split; [done|].
      intros [[[= <-] ?]|[[?|(d1 & [= <-] & ?)] _]]; congruence.
    + rewrite Hraw. split.
      * intros ?. right. split; [|done]. right. by exists d0.
      * intros [[[= <-] ?]|[_ ?]]; [congruence|done].
  - rewrite Hraw. split.
    + intros ?. right. split; [by left|done].
    + intros [[? _]|[_ ?]]; done.
Qed.

Lemma fallback_accept_nameless txt d0 :
  decodeBase64Utf8 txt ≫= JSON_parse = Some d0 → has_name d0 = Some false →
  fallback_accept txt = None.
Proof. unfold Png.fallback_accept. intros -> ->. done. Qed.

Lemma interpret_accept txt d :
  interpret txt = Some d → has_name d = Some true →
  fallback_accept txt = Some d.
Proof.
  unfold Png.interpret, Png.fallback_accept. intros Hi Hn.
  destruct (Png.decodeBase64Utf8 _ _ txt ≫= JSON_parse) as [d0|].
  - injection Hi as ->. by rewrite Hn.
  - rewrite Hi. by rewrite bool_decide_eq_true_2.
Qed.

(** The fallback loop returns the object of the first accepted
    candidate. *)
Lemma first_accepted_Some l d :
  first_accepted l = Some d ↔
  ∃ l1 txt l2, l = l1 ++ txt :: l2 ∧
               Forall (fun t => fallback_accept t = None) l1 ∧
               fallback_accept txt = Some d.
Proof.
  induction l as [|t l IH]; simpl.
  { split; [done|]. intros (l1 & txt & l2 & H & _). by destruct l1. }
  destruct (fallback_accept t) as [d0|] eqn:E.
  - split.
    + intros [= <-]. by exists [], t, l.
    + intros ([|t1 l1] & txt & l2 & H & Hn & Ha); simplify_eq/=; [done|].
      apply Forall_cons in Hn as [Hn _]. congruence.
  - rewrite IH. split.
    + intros (l1 & txt & l2 & -> & Hn & Ha). exists (t :: l1), txt, l2.
      split; [done|]. split; [by constructor|done].
    + intros ([|t1 l1] & txt & l2 & H & Hn & Ha); simplify_eq/=.
      apply Forall_cons in Hn as [_ Hn]. by exists l1, txt, l2.
Qed.

Lemma first_accepted_None l :
  first_accepted l = None ↔ Forall (fun t => fallback_accept t = None) l.
Proof.
  induction l as [|t l IH]; simpl; [done|].
  destruct (fallback_accept t) eqn:E.
  - split; [done|]. intros [H _]%Forall_cons. congruence.
  - rewrite IH. split; [by constructor|]. by intros [_ H]%Forall_cons.
Qed.

Lemma first_accepted_truthy l d : first_accepted l = Some d → truthy d = true.
Proof.
  intros (l1 & txt & l2 & _ & _ & Ha)%first_accepted_Some.
  by apply fallback_accept_named in Ha as [Hn%has_name_truthy _].
Qed.

(** The result of the decoder in terms of the scanner state. *)
Lemma parseCardData_chunks cs tail :
  Forall wf_chunk cs → truncated tail →
  parseCardData (PNG_SIG ++ chunks_bytes cs ++ tail)
  = let cd := default VNull (last (omap recorded cs)) in
    if truthy cd then inr cd
    else match first_accepted (omap candidate cs) with
         | Some d => inr d
         | None => inl NoCardData
         end.
Proof.
  intros Hwf Htr. unfold Png.parseCardData.
  rewrite check_signature_app. cbn [negb]. cbv iota.
  rewrite scan_state_chunks by done. unfold resolve.
  cbn [characterData fallbackChunks].
  destruct (truthy (default VNull (last (omap recorded cs)))) eqn:Et; cbv zeta.
  { cbn [negb andb]. by rewrite Et. }
  cbn [negb andb].
  destruct (omap candidate cs) as [|t l] eqn:El.
  { simpl. by rewrite Et. }
  simpl length. cbn [Nat.ltb Nat.leb].
  destruct (first_accepted (t :: l)) as [d|] eqn:Ef.
  - cbn [default from_option Datatypes.id].
    by rewrite (first_accepted_truthy _ _ Ef).
  - cbn [default from_option Datatypes.id]. by rewrite Et.
Qed.

(** The header read of the loop is always in range: the walk raises no
    exception, whatever the buffer, the offset and the number of
    iterations. *)
Lemma walk_checked_walk fuel : ∀ buf off st,
  walk_checked fuel buf off st = Some (walk fuel buf off st).
Proof.
  induction fuel as [|fuel IH]; intros buf off st; [done|].
  cbn [Png.walk_checked Png.walk].
  destruct (negb _); [done|].
  destruct (Nat.ltb_spec (length buf) (off + 8)) as [|Hge]; [done|].
  unfold dataView_getUint32.
  destruct (Nat.ltb_spec (length buf) (off + 4)); [lia|].
  cbn [mbind option_bind].
  destruct (_ <? _); [done|]. apply IH.
Qed.

Lemma scan_checked_scan buf : scan_checked buf = Some (scan buf).
Proof. apply walk_checked_walk. Qed.

Lemma parseCardData_checked_total buf :
  parseCardData_checked buf = Some (parseCardData buf).
Proof.
  unfold Png.parseCardData_checked, Png.parseCardData.
  destruct (negb _); [done|]. by rewrite scan_checked_scan.
Qed.

(** More fuel than one iteration per twelve bytes changes nothing. *)
Lemma walk_fuel fuel : ∀ k buf off st,
  (length buf ≤ off + 12 * fuel)%nat →
  walk (fuel + k) buf off st = walk fuel buf off st.
Proof.
  induction fuel as [|fuel IH]; intros k buf off st Hlen.
  - cbn [Png.walk]. destruct k; [done|]. cbn [Nat.add Png.walk].
    destruct (Nat.ltb_spec off (length buf)); [lia|done].
  - cbn [Nat.add Png.walk].
    destruct (negb _); [done|]. destruct (_ <? _)%nat; [done|].
    destruct (Z.ltb_spec (Z.of_nat (length buf))
                (Z.of_nat (off + 8) + getUint32 buf off)); [done|].
    apply IH. lia.
Qed.

(** What [decodeBase64Utf8] hands to the parser when the text is no
    base64 but begins like an object. *)
Lemma interpret_raw_object txt v :
  atob (remove_ws txt) = None →
  startsWith (trim (remove_ws txt)) "{" = true →
  JSON_parse (remove_ws txt) = Some v →
  interpret txt = Some v.
Proof.
  intros Ha Hs Hp. unfold Png.interpret, Png.decodeBase64Utf8.
  rewrite Ha, Hs. simpl. by rewrite Hp.
Qed.

(** C2 (as amended): over a buffer that is the signature, complete chunks
    and a truncated (possibly empty) tail, the value the walk records is the
    one parsed from the last chunk, in encounter order, that has a card
    keyword and a parsable payload, and null when there is none; when that
    value is truthy it is the result of the decoder.  With two or more such
    chunks the last one wins, not the first. *)
Theorem C2_last_card_chunk_wins cs tail :
  Forall wf_chunk cs → truncated tail →
  characterData (scan (PNG_SIG ++ chunks_bytes cs ++ tail))
  = default VNull (last (omap recorded cs)) ∧
  (∀ v, last (omap recorded cs) = Some v → truthy v = true →
        parseCardData (PNG_SIG ++ chunks_bytes cs ++ tail) = inr v) ∧
  (∀ cs1 c cs2 v,
     cs = cs1 ++ c :: cs2 → recorded c = Some v →
     Forall (fun c' => recorded c' = None) cs2 →
     characterData (scan (PNG_SIG ++ chunks_bytes cs ++ tail)) = v).
Proof.
  intros Hwf Htr. rewrite scan_state_chunks by done. cbn [characterData].
  split; [done|]. split.
  - intros v Hv Ht. rewrite parseCardData_chunks by done.
    rewrite Hv. simpl. by rewrite Ht.
  - intros cs1 c cs2 v -> Hc Hnone.
    by rewrite (last_omap_split _ cs1 c cs2 v Hc Hnone).
Qed.

(** C6 (as amended): over a buffer with a valid signature, a tail whose
    header or declared length runs past the end ends the walk without an
    exception: the header read, which raises a RangeError when fewer than
    four bytes are left, is never made out of range, the loop has ended
    (further iterations change nothing) and the scanner state is that of
    the complete chunks before the tail.  The decoder then fails with the
    no-card-data error exactly when the value recorded by the last
    parsable card-keyword chunk is absent or falsy and no fallback
    candidate is accepted; otherwise it returns a truthy value, the
    recorded one or the first accepted candidate.  No other exception
    leaves the chunk stage. *)
Theorem C6_truncated_tail_is_end_of_data cs tail :
  Forall wf_chunk cs → truncated tail →
  scan_checked (PNG_SIG ++ chunks_bytes cs ++ tail)
  = Some {| characterData := default VNull (last (omap recorded cs));
            fallbackChunks := omap candidate cs |} ∧
  scan_checked (PNG_SIG ++ chunks_bytes cs ++ tail)
  = scan_checked (PNG_SIG ++ chunks_bytes cs) ∧
  (∀ k, walk_checked (length (PNG_SIG ++ chunks_bytes cs ++ tail) + k)
          (PNG_SIG ++ chunks_bytes cs ++ tail) 8 init_state
        = scan_checked (PNG_SIG ++ chunks_bytes cs ++ tail)) ∧
  ((length tail < 4)%nat →
   dataView_getUint32 (PNG_SIG ++ chunks_bytes cs ++ tail)
     (8 + length (chunks_bytes cs)) = None) ∧
  (∃ r, parseCardData_checked (PNG_SIG ++ chunks_bytes cs ++ tail) = Some r ∧
        r = parseCardData (PNG_SIG ++ chunks_bytes cs ++ tail)) ∧
  scan (PNG_SIG ++ chunks_bytes cs ++ tail) = scan (PNG_SIG ++ chunks_bytes cs) ∧
  scan (PNG_SIG ++ chunks_bytes cs ++ tail)
  = {| characterData := default VNull (last (omap recorded cs));
       fallbackChunks := omap candidate cs |} ∧
  parseCardData (PNG_SIG ++ chunks_bytes cs ++ tail) ≠ inl NotPng ∧
  (parseCardData (PNG_SIG ++ chunks_bytes cs ++ tail) = inl NoCardData ↔
   truthy (default VNull (last (omap recorded cs))) = false ∧
   first_accepted (omap candidate cs) = None) ∧
  (∀ v, parseCardData (PNG_SIG ++ chunks_bytes cs ++ tail) = inr v →
        truthy v = true ∧
        (v = default VNull (last (omap recorded cs)) ∨
         first_accepted (omap candidate cs) = Some v)).
Proof.
  intros Hwf Htr.
  pose proof (scan_state_chunks cs [] Hwf truncated_nil) as H0.
  rewrite app_nil_r in H0.
  assert (Hk : ∀ k, walk_checked (length (PNG_SIG ++ chunks_bytes cs ++ tail) + k)
                      (PNG_SIG ++ chunks_bytes cs ++ tail) 8 init_state
                    = scan_checked (PNG_SIG ++ chunks_bytes cs ++ tail)).
  { intros k. unfold Png.scan_checked. rewrite !walk_checked_walk.
    by rewrite walk_fuel by lia. }
  rewrite !scan_checked_scan.
  rewrite scan_state_chunks, H0 by done. split; [done|]. split; [done|].
  split.
  { intros k. rewrite Hk, scan_checked_scan. by rewrite scan_state_chunks. }
  split.
  { intros Hlt. unfold dataView_getUint32.
    rewrite !length_app. change (length PNG_SIG) with 8%nat.
    destruct (Nat.ltb_spec (8 + (length (chunks_bytes cs) + length tail))
                (8 + length (chunks_bytes cs) + 4)); [done|lia]. }
  split; [eexists; split; [apply parseCardData_checked_total|done]|].
  split; [done|]. split; [done|].
  rewrite parseCardData_chunks by done. cbv zeta.
  destruct (truthy (default VNull (last (omap recorded cs)))) eqn:Et.
  - split; [done|]. split; [split; [done|by intros [? _]]|].
    intros v [= <-]. auto.
  - destruct (first_accepted (omap candidate cs)) as [d|] eqn:Ef.
    + split; [done|]. split; [split; [done|by intros [_ ?]]|].
      intros v [= <-]. split; [by eapply first_accepted_truthy|auto].
    + split; [done|]. split; [done|]. intros v [=].
Qed.

(** C8 (as amended): when the value recorded from the card-keyword chunks
    is absent or falsy, the candidates (the decoded texts, of any keyword,
    whose trimmed form starts with an opening brace or with ey, in
    encounter order) are tried in order and the first accepted one is the
    result; a candidate is accepted exactly when its base64 reading parses
    to an object with a truthy name or data.name, or when that reading
    fails (or is null) and its raw text parses to such an object; the raw
    text of a candidate whose base64 reading parses to a value without
    such a name is not tried.  In particular a
    buffer whose only text chunk has an unrecognised keyword is decoded
    when the text is such a candidate and parses to an object with a truthy
    name. *)
Theorem C8_fallback_candidates cs tail :
  Forall wf_chunk cs → truncated tail →
  truthy (default VNull (last (omap recorded cs))) = false →
  fallbackChunks (scan (PNG_SIG ++ chunks_bytes cs ++ tail)) = omap candidate cs ∧
  parseCardData (PNG_SIG ++ chunks_bytes cs ++ tail)
  = match first_accepted (omap candidate cs) with
    | Some d => inr d
    | None => inl NoCardData
    end ∧
  (∀ d, first_accepted (omap candidate cs) = Some d ↔
        ∃ l1 txt l2, omap candidate cs = l1 ++ txt :: l2 ∧
                     Forall (fun t => fallback_accept t = None) l1 ∧
                     fallback_accept txt = Some d) ∧
  (∀ txt d,
     fallback_accept txt = Some d ↔
     (decodeBase64Utf8 txt ≫= JSON_parse = Some d ∧ has_name d = Some true) ∨
     ((decodeBase64Utf8 txt ≫= JSON_parse = None ∨
       ∃ d0, decodeBase64Utf8 txt ≫= JSON_parse = Some d0 ∧
             has_name d0 = None) ∧
      JSON_parse txt = Some d ∧ has_name d = Some true)) ∧
  (∀ txt d0, decodeBase64Utf8 txt ≫= JSON_parse = Some d0 →
             has_name d0 = Some false → fallback_accept txt = None) ∧
  (∀ d, has_name d = None ↔ d = VNull ∨ d = VUndef) ∧
  (∀ cs1 c cs2 txt d,
     cs = cs1 ++ c :: cs2 →
     Forall (fun c' => payload_text c' = None) (cs1 ++ cs2) →
     payload_text c = Some (false, txt) →
     is_candidate txt = true → interpret txt = Some d →
     has_name d = Some true →
     parseCardData (PNG_SIG ++ chunks_bytes cs ++ tail) = inr d).
Proof.
  intros Hwf Htr Hfalsy. rewrite scan_state_chunks by done.
  split; [done|]. rewrite parseCardData_chunks by done. cbv zeta.
  rewrite Hfalsy. split; [done|]. split; [intros d; apply first_accepted_Some|].
  split; [apply fallback_accept_iff|].
  split; [apply fallback_accept_nameless|]. split; [apply has_name_None|].
  intros cs1 c cs2 txt d -> Hsilent Hp Hc Hi Hn.
  rewrite (omap_single candidate cs1 c cs2 txt).
  - simpl. by rewrite (interpret_accept txt d Hi Hn).
  - unfold Png.candidate. by rewrite Hp, Hc.
  - eapply Forall_impl; [exact Hsilent|]. intros c' Hc'.
    unfold Png.candidate. by rewrite Hc'.
Qed.

End parse_claims.

Section sample_platform.
Import JS Png.
#[local] Open Scope Z_scope.

#[local] Abbreviation parse :=
  (parseCardData Sample.latin1_decode Sample.atob Sample.JSON_parse
     Sample.inflate).
#[local] Abbreviation recorded_s :=
  (recorded Sample.latin1_decode Sample.atob Sample.JSON_parse Sample.inflate).
#[local] Abbreviation text_s :=
  (payload_text Sample.latin1_decode Sample.inflate).
#[local] Abbreviation scan_s :=
  (Png.scan Sample.latin1_decode Sample.atob Sample.JSON_parse Sample.inflate).

Lemma wf_text_chunk kw txt :
  Z.of_nat (length (cdata (Sample.text_chunk kw txt))) < 2 ^ 32 →
  wf_chunk (Sample.text_chunk kw txt).
Proof. by split. Qed.

Lemma wf_frame : wf_chunk Sample.IHDR ∧ wf_chunk Sample.IEND.
Proof. by split. Qed.

Lemma truncated_cut_tail : truncated Sample.cut_tail.
Proof. right. by vm_compute. Qed.

End sample_platform.

Section sample_parse.
Import JS Png.
#[local] Open Scope Z_scope.

#[local] Abbreviation parse :=
  (parseCardData Sample.latin1_decode Sample.atob Sample.JSON_parse
     Sample.inflate).
#[local] Abbreviation recorded_s :=
  (recorded Sample.latin1_decode Sample.atob Sample.JSON_parse Sample.inflate).
#[local] Abbreviation candidate_s :=
  (candidate Sample.latin1_decode Sample.inflate).
#[local] Abbreviation text_s :=
  (payload_text Sample.latin1_decode Sample.inflate).
#[local] Abbreviation scan_s :=
  (Png.scan Sample.latin1_decode Sample.atob Sample.JSON_parse Sample.inflate).
#[local] Abbreviation interpret_s :=
  (interpret Sample.latin1_decode Sample.atob Sample.JSON_parse).

Lemma wf_two_cards :
  Forall wf_chunk (Sample.IHDR :: Sample.two_cards ++ [Sample.IEND]).
Proof. repeat constructor. Qed.

Lemma wf_overwritten_cards : Forall wf_chunk Sample.overwritten_cards.
Proof. repeat constructor. Qed.

Lemma wf_comment_plain :
  Forall wf_chunk ([Sample.IHDR] ++ Sample.comment_plain :: [Sample.IEND]).
Proof. repeat constructor. Qed.

End sample_parse.

Section tc4_closed.

Import JS Png.
#[local] Open Scope Z_scope.

(** C2, the claim as stated, fails: of two chunks under the keyword chara
    whose texts parse to the cards A and B, in that order, the decoder
    returns B. *)
Lemma C2_second_card_chunk_wins :
  payload_text Sample.latin1_decode Sample.inflate <$> Sample.two_cards
    = [Some (true, Sample.text_A); Some (true, Sample.text_B)] ∧
  recorded Sample.latin1_decode Sample.atob Sample.JSON_parse Sample.inflate
    <$> Sample.two_cards
    = [Some (Sample.card "A"); Some (Sample.card "B")] ∧
  parseCardData Sample.latin1_decode Sample.atob Sample.JSON_parse
    Sample.inflate (Sample.png_of Sample.two_cards) = inr (Sample.card "B") ∧
  Sample.card "B" ≠ Sample.card "A".
Proof.
  split; [by vm_compute|]. split; [by vm_compute|]. split; [by vm_compute|].
  intros H. vm_compute in H. discriminate.
Qed.

(** The last card chunk of the previous example wins. *)
Lemma C2_last_card_chunk_wins_witness :
  characterData
    (Png.scan Sample.latin1_decode Sample.atob Sample.JSON_parse Sample.inflate
       (PNG_SIG ++ chunks_bytes (Sample.IHDR :: Sample.two_cards ++ [Sample.IEND])
        ++ []))
  = Sample.card "B".
Proof.
  destruct (C2_last_card_chunk_wins Sample.latin1_decode Sample.atob
              Sample.JSON_parse Sample.inflate
              (Sample.IHDR :: Sample.two_cards ++ [Sample.IEND]) []
              wf_two_cards truncated_nil) as [H _].
  rewrite H. by vm_compute.
Defined.

(** C6, the claim as stated, fails: before the truncated chunk a chunk
    under the keyword chara parses to the card A, but a later chara chunk
    holding false replaces it, no text is a fallback candidate, and the
    decoder fails with the no-card-data error. *)
Lemma C6_card_replaced_by_false :
  truncated Sample.cut_tail ∧
  recorded Sample.latin1_decode Sample.atob Sample.JSON_parse Sample.inflate
    <$> Sample.overwritten_cards
    = [None; Some (Sample.card "A"); Some (VBool false)] ∧
  parseCardData Sample.latin1_decode Sample.atob Sample.JSON_parse
    Sample.inflate
    (PNG_SIG ++ chunks_bytes Sample.overwritten_cards ++ Sample.cut_tail)
  = inl NoCardData.
Proof.
  split; [right; by vm_compute|]. split; by vm_compute.
Qed.

(** The truncated tail of the previous example is ignored: the walk ends
    without an exception in the state of the three complete chunks. *)
Lemma C6_truncated_tail_is_end_of_data_witness :
  Png.scan_checked Sample.latin1_decode Sample.atob Sample.JSON_parse
    Sample.inflate
    (PNG_SIG ++ chunks_bytes Sample.overwritten_cards ++ Sample.cut_tail)
  = Some {| characterData := VBool false; fallbackChunks := [] |}.
Proof.
  assert (Htr : truncated Sample.cut_tail) by (right; by vm_compute).
  rewrite (proj1 (C6_truncated_tail_is_end_of_data Sample.latin1_decode
                    Sample.atob Sample.JSON_parse Sample.inflate
                    Sample.overwritten_cards Sample.cut_tail
                    wf_overwritten_cards Htr)).
  by vm_compute.
Defined.

(** C7: the text of a chara chunk is raw JSON with a space inside a string;
    it is no base64, and JSON.parse of the text gives the name with its
    space, but decodeBase64Utf8 returns the text with all white space
    removed instead of throwing, so the object recorded has lost the
    space. *)
Theorem C7_raw_json_loses_white_space :
  payload_text Sample.latin1_decode Sample.inflate
    (Sample.text_chunk "chara" Sample.text_spaced)
    = Some (true, Sample.text_spaced) ∧
  Sample.atob (remove_ws Sample.text_spaced) = None ∧
  Sample.JSON_parse Sample.text_spaced = Some (Sample.card "A B") ∧
  decodeBase64Utf8 Sample.latin1_decode Sample.atob Sample.text_spaced
    = Some Sample.text_unspaced ∧
  parseCardData Sample.latin1_decode Sample.atob Sample.JSON_parse
    Sample.inflate (Sample.png_of Sample.spaced_card) = inr (Sample.card "AB") ∧
  Sample.card "AB" ≠ Sample.card "A B".
Proof.
  split; [by vm_compute|]. split; [by vm_compute|]. split; [by vm_compute|].
  split; [by vm_compute|]. split; [by vm_compute|].
  intros H. vm_compute in H. discriminate.
Qed.

(** C8, the claim as stated, fails: the only text chunk has the
    unrecognised keyword comment and its text, base64 of JSON laid out on
    two lines, parses to an object with a top-level name; the text starts
    with neither an opening brace nor ey, so it is no candidate and the
    decoder fails. *)
Lemma C8_base64_outside_the_gate :
  payload_text Sample.latin1_decode Sample.inflate Sample.comment_lines
    = Some (false, Sample.base64_A_lines) ∧
  interpret Sample.latin1_decode Sample.atob Sample.JSON_parse
    Sample.base64_A_lines = Some (Sample.card "A") ∧
  get (Sample.card "A") "name" = Some (VStr "A") ∧
  parseCardData Sample.latin1_decode Sample.atob Sample.JSON_parse
    Sample.inflate (Sample.png_of [Sample.comment_lines]) = inl NoCardData.
Proof. repeat split; by vm_compute. Qed.

(** A candidate under the same unrecognised keyword is decoded. *)
Lemma C8_fallback_candidates_witness :
  parseCardData Sample.latin1_decode Sample.atob Sample.JSON_parse
    Sample.inflate
    (PNG_SIG ++ chunks_bytes ([Sample.IHDR] ++ Sample.comment_plain :: [Sample.IEND])
     ++ [])
  = inr (Sample.card "A").
Proof.
  assert (Hf : truthy (default VNull (last (omap
                 (recorded Sample.latin1_decode Sample.atob Sample.JSON_parse
                    Sample.inflate)
                 ([Sample.IHDR] ++ Sample.comment_plain :: [Sample.IEND]))))
               = false) by (by vm_compute).
  destruct (C8_fallback_candidates Sample.latin1_decode Sample.atob
              Sample.JSON_parse Sample.inflate
              ([Sample.IHDR] ++ Sample.comment_plain :: [Sample.IEND]) []
              wf_comment_plain truncated_nil Hf)
    as (_ & _ & _ & _ & _ & _ & H).
  apply (H [Sample.IHDR] Sample.comment_plain [Sample.IEND] Sample.text_A).
  - reflexivity.
  - repeat constructor.
  - by vm_compute.
  - by vm_compute.
  - by vm_compute.
  - by vm_compute.
Defined.

End tc4_closed.

Section heap_claim.
Import JS Png.
#[local] Open Scope Z_scope.

Import Heap.
#[local] Open Scope nat_scope.

Variable to_string_h : list hobj → hval → option string.

(** C10: over a store of shared objects, a successful import retains as
    rawData the very object the envelope rule selects; every object that
    existed before the import is still in the store unchanged, so the tree
    read from rawData, its character_book included, is the one the source
    had; and when character_book?.entries is truthy the typed
    character_book is a new object whose entries are a new array of new
    objects, the only ones that received keysInput (otherwise the typed
    character_book is the source's own value). *)
Theorem C10_rawData_is_left_untouched root fn av i f t h c h' :
  closed h → valid h root →
  buildCharacter_h to_string_h root fn av i f t h = Some (c, h') →
  unwrap_h h root = Some (rawData c) ∧
  preserved h h' ∧
  (∀ n, reify n h' (rawData c) = reify n h (rawData c)) ∧
  (∀ k, h_get h' (rawData c) k = h_get h (rawData c) k) ∧
  ∃ cb, h_get h (rawData c) "character_book" = Some cb ∧
    if h_truthy (h_get_opt h cb "entries") then
      ∃ lb la props es es',
        character_book c = HRef lb ∧ length h ≤ lb ∧
        h' !! lb = Some (HObject (<["entries" := HRef la]> props)) ∧
        length h ≤ la ∧ h' !! la = Some (HArray es') ∧
        h_elems h (h_get_opt h cb "entries") = Some es ∧
        length es' = length es ∧
        Forall (helper_entry h h') es'
    else character_book c = cb.
Proof.
  intros Hcl Hroot Hb.
  pose proof (grows_buildCharacter_h to_string_h root fn av i f t _ _ _ Hb)
    as Hgrow.
  pose proof (prefix_preserved _ _ Hgrow) as Hpres.
  apply buildCharacter_h_inv in Hb as (h1 & h2 & cb & Hu & H01 & Hcb & Hbook & H2).
  pose proof (unwrap_h_valid h root _ Hcl Hroot Hu) as Hd.
  assert (Hget : ∀ h0 k, h `prefix_of` h0 →
                 h_get h0 (rawData c) k = h_get h (rawData c) k).
  { intros h0 k Hp. destruct (rawData c) as [| | | | |l|]; try done.
    simpl in Hd. apply lookup_lt_is_Some_2 in Hd as [o Ho]. simpl.
    by rewrite (prefix_lookup_Some _ _ _ _ Ho Hp), Ho. }
  split; [done|]. split; [done|].
  split; [intros n; by apply reify_preserved|].
  split; [intros k; by apply Hget|].
  exists cb. rewrite (Hget h1) in Hcb by done. split; [done|].
  pose proof (valid_h_get _ _ _ _ Hcl Hcb) as Hvcb.
  assert (Hcbget : ∀ k, h_get h1 cb k = h_get h cb k).
  { intros k. destruct cb as [| | | | |l|]; try done.
    simpl in Hvcb. apply lookup_lt_is_Some_2 in Hvcb as [o Ho]. simpl.
    by rewrite (prefix_lookup_Some _ _ _ _ Ho H01), Ho. }
  apply book_of_h_spec in Hbook. unfold h_get_opt in *.
  rewrite Hcbget in Hbook.
  destruct (h_truthy (default HUndef (h_get h cb "entries"))) eqn:Et.
  - destruct Hbook as (lb & la & props & es & es' & Hb1 & Hb2 & Hb3 & Hb4 & Hb5
                       & Hb6 & Hb7 & Hb8).
    pose proof (prefix_length _ _ H01) as Hlen.
    exists lb, la, props, es, es'.
    split; [done|]. split; [lia|].
    split; [by eapply prefix_lookup_Some|]. split; [lia|].
    split; [by eapply prefix_lookup_Some|].
    split.
    { rewrite <- Hb6. destruct (default HUndef (h_get h cb "entries"))
        as [| | | | |l|] eqn:Ee; try done.
      assert (valid h (HRef l)) as Hv.
      { destruct (h_get h cb "entries") as [x|] eqn:Ex; [|done].
        simpl in Ee. subst x. by eapply valid_h_get. }
      simpl in Hv. apply lookup_lt_is_Some_2 in Hv as [o Ho]. simpl.
      by rewrite (prefix_lookup_Some _ _ _ _ Ho H01), Ho. }
    split; [done|].
    eapply Forall_impl; [exact Hb8|]. intros x Hx.
    by apply (helper_entry_mono h h1 h2 h').
  - by destruct Hbook as [-> _].
Qed.

End heap_claim.

Section tc4_closed2.

Import JS Png.
#[local] Open Scope Z_scope.

(** The import of the one-entry lorebook of the examples leaves the five
    objects of the source as they were. *)
Lemma C10_rawData_is_left_untouched_witness :
  ∃ c h', Heap.buildCharacter_h Sample.to_string_h (Heap.HRef 0) "a.png" "blob:a"
            "1" Card.FmtPng 0 Sample.book_store = Some (c, h') ∧
          Heap.rawData c = Heap.HRef 0 ∧
          Heap.preserved Sample.book_store h' ∧
          Heap.character_book c = Heap.HRef 8.
Proof.
  eexists _, _. split; [vm_compute; reflexivity|].
  split; [reflexivity|]. split; [|reflexivity].
  match goal with
  | |- Heap.preserved _ ?h' =>
      refine (proj1 (proj2 (C10_rawData_is_left_untouched Sample.to_string_h
                (Heap.HRef 0) "a.png" "blob:a" "1" Card.FmtPng 0
                Sample.book_store _ h' _ _ _)))
  end.
  - apply (bool_decide_unpack _). by vm_compute.
  - apply (bool_decide_unpack _). by vm_compute.
  - vm_compute. reflexivity.
Defined.

End tc4_closed2.

Section scan_invariants.
Import JS Png.
#[local] Open Scope Z_scope.

Variable utf8_decode : list byte → string.
Variable atob : string → option string.
Variable JSON_parse : string → option value.
Variable inflate : bool → list byte → option (list byte).

#[local] Abbreviation take_text := (take_text utf8_decode atob JSON_parse).
#[local] Abbreviation chunk_step := (chunk_step utf8_decode atob JSON_parse inflate).
#[local] Abbreviation walk := (walk utf8_decode atob JSON_parse inflate).
#[local] Abbreviation scan := (scan utf8_decode atob JSON_parse inflate).
#[local] Abbreviation interpret := (interpret utf8_decode atob JSON_parse).
#[local] Abbreviation decodeBase64Utf8 := (decodeBase64Utf8 utf8_decode atob).
#[local] Abbreviation fallback_accept :=
  (fallback_accept utf8_decode atob JSON_parse).
#[local] Abbreviation first_accepted :=
  (first_accepted utf8_decode atob JSON_parse).
#[local] Abbreviation resolve := (resolve utf8_decode atob JSON_parse).
#[local] Abbreviation parseCardData :=
  (parseCardData utf8_decode atob JSON_parse inflate).
#[local] Abbreviation payload_step :=
  (payload_step utf8_decode atob JSON_parse inflate).
#[local] Abbreviation payload_text := (payload_text utf8_decode inflate).

(** A property kept by the two shared statements of the three branches is
    kept by the whole walk. *)
Lemma walk_invariant (P : scan_state → Prop) :
  (∀ kw txt st, P st → P (take_text kw txt st)) →
  ∀ fuel buf off st, P st → P (walk fuel buf off st).
Proof.
  intros Hstep. induction fuel as [|fuel IH]; intros buf off st Hst; [done|].
  cbn [Png.walk].
  destruct (negb _); [done|]. destruct (_ <? _)%nat; [done|].
  destruct (_ <? _); [done|].
  apply IH. unfold Png.chunk_step.
  destruct (Png.chunk_text _ _ _ _ _ _) as [[kw txt]|]; auto.
Qed.

Lemma interpret_parsed txt v :
  interpret txt = Some v → ∃ t, JSON_parse t = Some v.
Proof.
  unfold Png.interpret.
  destruct (decodeBase64Utf8 txt) as [t|] eqn:Hd; simpl.
  - destruct (JSON_parse t) eqn:Ht; intros H; simplify_eq; eauto.
  - eauto.
Qed.

Lemma scan_provenance buf :
  Forall (fun t => is_candidate t = true) (fallbackChunks (scan buf)) ∧
  (characterData (scan buf) = VNull ∨
   ∃ t, JSON_parse t = Some (characterData (scan buf))).
Proof.
  unfold Png.scan.
  apply (walk_invariant
           (fun st => Forall (fun t => is_candidate t = true) (fallbackChunks st)
                      ∧ (characterData st = VNull ∨
                         ∃ t, JSON_parse t = Some (characterData st)))).
  - intros kw txt st [Hf Hc]. unfold Png.take_text. cbn. split.
    + destruct (is_candidate txt) eqn:Hcand; [|done].
      apply Forall_app. split; [done|]. by constructor.
    + destruct kw; [|done].
      destruct (interpret txt) as [v|] eqn:Hi; [|done].
      right. by eapply interpret_parsed.
  - split; [constructor | by left].
Qed.

Lemma resolve_provenance st :
  (characterData st = VNull ∨ ∃ t, JSON_parse t = Some (characterData st)) →
  resolve st = VNull ∨ ∃ t, JSON_parse t = Some (resolve st).
Proof.
  intros H. unfold Png.resolve.
  destruct (_ && _); [|done].
  destruct (first_accepted _) as [d|] eqn:Hfa; [|done]. cbn.
  apply first_accepted_Some in Hfa as (l1 & txt & l2 & _ & _ & Hacc).
  apply fallback_accept_named in Hacc as [_ Hd].
  right. destruct Hd as [Hd|Hd]; [|eauto].
  destruct (decodeBase64Utf8 txt); simpl in Hd; [eauto|done].
Qed.

Lemma truthy_unwrap v :
  truthy v = true → ∃ d, Card.unwrap v = Some d ∧ truthy d = true.
Proof.
  intros Hv. unfold Card.unwrap.
  rewrite !(truthy_get v Hv). cbn [mbind option_bind].
  destruct (Card.str_eq _ _ && truthy (get_opt v "data")) eqn:E1.
  { apply andb_true_iff in E1 as [_ E1]. eauto. }
  destruct (negb _ && truthy (get_opt (get_opt v "data") "name")) eqn:E2; [|eauto].
  apply andb_true_iff in E2 as [_ E2].
  eexists; split; [done|].
  destruct (get_opt v "data") as [| | | | |l|m|]; try done.
Qed.

Lemma buildCharacter_closed root d fn av i f t :
  Card.unwrap root = Some d → truthy d = true →
  Card.buildCharacter root fn av i f t
  = match Card.import_tags d, Card.import_book d with
    | Some tg, Some bk =>
        Some (Card.character_from (get_opt d) d tg bk fn av i f t)
    | _, _ => None
    end.
Proof.
  intros Hu Hd. unfold Card.buildCharacter. rewrite Hu.
  cbn [mbind option_bind].
  destruct (Card.import_tags d) as [tg|]; [|done]. cbn [mbind option_bind].
  destruct (Card.import_book d) as [bk|]; [|done]. cbn [mbind option_bind].
  rewrite !(truthy_get d Hd). reflexivity.
Qed.

Lemma parseCardData_inr buf v :
  parseCardData buf = inr v →
  truthy v = true ∧ ∃ t, JSON_parse t = Some v.
Proof.
  unfold Png.parseCardData. destruct (negb _); [done|].
  destruct (truthy (resolve (scan buf))) eqn:Et; [|done].
  intros [= <-]. split; [done|].
  destruct (resolve_provenance (scan buf)) as [Hn|Hp]; [|by rewrite Hn in Et|done].
  apply scan_provenance.
Qed.

Lemma find_nul_None buf i n :
  (∀ j, (i ≤ j < i + n)%nat → byte_is buf j x00 = false) →
  find_nul buf i n = None.
Proof.
  revert i. induction n as [|n IH]; intros i H; [done|]. simpl.
  rewrite H by lia. apply IH. intros j Hj. apply H. lia.
Qed.

Lemma byte_is_not_elem buf j b : b ∉ buf → byte_is buf j b = false.
Proof.
  intros Hb. unfold byte_is. destruct (buf !! j) as [x|] eqn:E; [|done].
  destruct (Byte.eqb x b) eqn:Ex; [|done].
  apply Byte.byte_dec_bl in Ex as ->. by apply list_elem_of_lookup_2 in E.
Qed.

Lemma chunks_bytes_app cs1 cs2 :
  chunks_bytes (cs1 ++ cs2) = chunks_bytes cs1 ++ chunks_bytes cs2.
Proof. unfold chunks_bytes. by rewrite fmap_app, concat_app. Qed.

End scan_invariants.

(** ** The signature test *)

Section signature.
Import JS Png.
#[local] Open Scope Z_scope.

Lemma byte_eqb_eq (a b : byte) : Byte.eqb a b = true ↔ a = b.
Proof. split; [apply Byte.byte_dec_bl | apply Byte.byte_dec_lb]. Qed.

Lemma check_signature_take buf :
  check_signature buf = true ↔ take 8 buf = PNG_SIG.
Proof.
  unfold check_signature, PNG_SIG, byte_is.
  do 8 (destruct buf as [|? buf];
        [simpl; split;
         [intros H; repeat (rewrite ?andb_true_r, ?andb_false_r in H;
                            try discriminate)
         |intros [=]]|]).
  cbn [forallb seq lookup list_lookup default from_option Datatypes.id take].
  rewrite !andb_true_r, !andb_true_iff, !byte_eqb_eq.
  split.
  - intros (-> & -> & -> & -> & -> & -> & -> & ->). done.
  - intros [= -> -> -> -> -> -> -> ->]. done.
Qed.

End signature.

(** ** Import of a PNG file *)

Section png_import.
Import JS Png.
#[local] Open Scope Z_scope.

Variable utf8_decode : list byte → string.
Variable atob : string → option string.
Variable JSON_parse : string → option value.
Variable inflate : bool → list byte → option (list byte).

#[local] Abbreviation walk := (walk utf8_decode atob JSON_parse inflate).
#[local] Abbreviation scan := (scan utf8_decode atob JSON_parse inflate).
#[local] Abbreviation parseCardData :=
  (parseCardData utf8_decode atob JSON_parse inflate).
#[local] Abbreviation payload_step :=
  (payload_step utf8_decode atob JSON_parse inflate).
#[local] Abbreviation parseCharacterCard :=
  (Importers.parseCharacterCard utf8_decode atob JSON_parse inflate).

(** X1: Whatever bytes the file holds, every text [parseCharacterCard]
    collects in [fallbackChunks] passes the candidate test (its trimmed
    form starts with an opening brace or with ey), and [characterData] is
    either still [null] or a value returned by [JSON.parse]. *)
Theorem scan_keeps_candidates_and_parsed_values buf :
  Forall (fun t => is_candidate t = true) (fallbackChunks (scan buf)) ∧
  (characterData (scan buf) = VNull ∨
   ∃ t, JSON_parse t = Some (characterData (scan buf))).
Proof. apply scan_provenance. Qed.


(** X3: [parseCharacterCard] rejects a file as not being a PNG exactly
    when its first eight bytes are not the PNG signature; a file shorter
    than eight bytes is rejected. *)
Theorem signature_is_the_first_eight_bytes buf :
  (parseCardData buf = inl NotPng ↔ take 8 buf ≠ PNG_SIG) ∧
  ((length buf < 8)%nat → parseCardData buf = inl NotPng).
Proof.
  assert (H : parseCardData buf = inl NotPng ↔ take 8 buf ≠ PNG_SIG).
  { unfold Png.parseCardData.
    destruct (check_signature buf) eqn:E; cbn [negb]; cbv iota.
    - apply check_signature_take in E. split; [by destruct (truthy _)|done].
    - split; [|done]. intros _ Ht. apply check_signature_take in Ht. congruence. }
  split; [done|]. intros Hlen. apply H. intros Heq.
  apply (f_equal length) in Heq. rewrite length_take in Heq.
  change (length PNG_SIG) with 8%nat in Heq. lia.
Qed.

(** X4: A chunk whose type is none of tEXt, zTXt and iTXt, and a text
    chunk whose payload has no NUL separator, leave [characterData] and
    [fallbackChunks] as they are. *)
Theorem chunks_without_text_are_skipped st c :
  utf8_decode (ctype c) ∉ ["tEXt"; "zTXt"; "iTXt"]%string ∨ x00 ∉ cdata c →
  payload_step st c = st.
Proof.
  intros H. unfold Png.payload_step, Png.chunk_step, Png.chunk_text.
  destruct H as [H|H].
  - destruct (String.eqb_spec (utf8_decode (ctype c)) "tEXt") as [E|_].
    { exfalso. apply H. rewrite E. set_solver. }
    destruct (String.eqb_spec (utf8_decode (ctype c)) "zTXt") as [E|_].
    { exfalso. apply H. rewrite E. set_solver. }
    destruct (String.eqb_spec (utf8_decode (ctype c)) "iTXt") as [E|_].
    { exfalso. apply H. rewrite E. set_solver. }
    done.
  - rewrite find_nul_None by (intros; by apply byte_is_not_elem).
    cbn [mbind option_bind]. by repeat destruct (String.eqb _ _).
Qed.

(** X5: When the chunk stage of [parseCharacterCard] yields a root, the
    root is truthy and came out of [JSON.parse], so the envelope test never
    reads a property of [null]: the import stores the file and returns the
    record built from the unwrapped body, and a TypeError can only come
    from the conversion of the tags or of the lorebook. *)
Theorem png_import_in_closed_form buf fileName avatar ident now st v :
  parseCardData buf = inr v →
  ∃ d, Card.unwrap v = Some d ∧ truthy d = true ∧
       (∃ t, JSON_parse t = Some v) ∧
       parseCharacterCard buf fileName avatar ident now st
       = (match Card.import_tags d, Card.import_book d with
          | Some tg, Some bk =>
              inr (Card.character_from (get_opt d) d tg bk fileName avatar
                     ident Card.FmtPng now)
          | _, _ => inl Importers.ImportTypeError
          end, Images.saveImage ident buf st).
Proof.
  intros Hp.
  destruct (parseCardData_inr utf8_decode atob JSON_parse inflate _ _ Hp)
    as [Hv Hj].
  destruct (truthy_unwrap v Hv) as (d & Hu & Hd).
  exists d. repeat split; try done.
  unfold Importers.parseCharacterCard. rewrite Hp.
  rewrite (buildCharacter_closed _ _ _ _ _ _ _ Hu Hd).
  destruct (Card.import_tags d); [|done]. by destruct (Card.import_book d).
Qed.

(** X6: [parseCharacterCard] leaves the image store untouched when the
    chunk stage fails; in every other case (also when building the record
    then throws) the file is stored under the new identifier, which is the
    record's [id], and no other identifier's image changes. *)
Theorem import_stores_the_file_before_building buf fileName avatar ident now st :
  let r := parseCharacterCard buf fileName avatar ident now st in
  (∀ e, r.1 = inl (Importers.CardError e) → r.2 = st) ∧
  ((∀ e, r.1 ≠ inl (Importers.CardError e)) →
   Images.loadImage ident r.2 = Some buf ∧
   ∀ other, other ≠ ident → Images.loadImage other r.2 = Images.loadImage other st) ∧
  (∀ c, r.1 = inr c → Card.id c = ident ∧ Images.loadImage (Card.id c) r.2 = Some buf).
Proof.
  cbv zeta. unfold Importers.parseCharacterCard.
  assert (Hinj : ∀ a b, Images.image_key a = Images.image_key b → a = b).
  { unfold Images.image_key. simpl. by intros a b [=]. }
  destruct (parseCardData buf) as [e|v] eqn:Hp.
  { cbn [fst snd]. split; [done|]. split; [|done]. intros H. by destruct (H e). }
  destruct (Card.buildCharacter v fileName avatar ident Card.FmtPng now)
    as [c|] eqn:Hb; cbn [fst snd].
  - split; [done|]. unfold Images.loadImage, Images.saveImage. split.
    + intros _. split; [apply lookup_insert_eq|].
      intros other Ho. apply lookup_insert_ne. intros E. by apply Hinj in E.
    + intros c' [= <-].
      apply buildCharacter_inv in Hb as (d & tg & bk & _ & _ & _ & _ & ->).
      cbn [Card.id Card.character_from]. split; [done|]. apply lookup_insert_eq.
  - split; [done|]. unfold Images.loadImage, Images.saveImage. split; [|done].
    intros _. split; [apply lookup_insert_eq|].
    intros other Ho. apply lookup_insert_ne. intros E. by apply Hinj in E.
Qed.

End png_import.

Section tx1_closed.

Import JS Png.
#[local] Open Scope Z_scope.


(** The header chunk of the frame is skipped. *)
Lemma chunks_without_text_are_skipped_witness :
  Png.payload_step Sample.latin1_decode Sample.atob Sample.JSON_parse
    Sample.inflate init_state Sample.IHDR = init_state.
Proof.
  apply (chunks_without_text_are_skipped Sample.latin1_decode Sample.atob
           Sample.JSON_parse Sample.inflate init_state Sample.IHDR).
  left. apply (bool_decide_unpack _). by vm_compute.
Defined.

(** The PNG with the cards A and B imports as the record built from B. *)
Lemma png_import_in_closed_form_witness :
  ∃ d, Card.unwrap (Sample.card "B") = Some d ∧ truthy d = true ∧
       (∃ t, Sample.JSON_parse t = Some (Sample.card "B")) ∧
       Importers.parseCharacterCard Sample.latin1_decode Sample.atob
         Sample.JSON_parse Sample.inflate (Sample.png_of Sample.two_cards)
         "b.png" "blob:1" "1" 0 ∅
       = (match Card.import_tags d, Card.import_book d with
          | Some tg, Some bk =>
              inr (Card.character_from (get_opt d) d tg bk "b.png" "blob:1"
                     "1" Card.FmtPng 0)
          | _, _ => inl Importers.ImportTypeError
          end, Images.saveImage "1" (Sample.png_of Sample.two_cards) ∅).
Proof.
  apply (png_import_in_closed_form Sample.latin1_decode Sample.atob
           Sample.JSON_parse Sample.inflate (Sample.png_of Sample.two_cards)
           "b.png" "blob:1" "1" 0 ∅ (Sample.card "B")).
  by vm_compute.
Defined.

End tx1_closed.

Section encoder_facts.
Import JS Png.
#[local] Open Scope Z_scope.

(** The PNG signature holds no letter I, so the IEND signature cannot
    start inside it. *)
Lemma no_iend_in_signature rest j :
  (j < 8)%nat → is_iend_at (PNG_SIG ++ rest) j = false.
Proof.
  intros Hj. unfold is_iend_at, byte_is.
  do 8 (destruct j as [|j]; [reflexivity|]). lia.
Qed.

Lemma is_iend_at_middle A B :
  is_iend_at (A ++ ascii_bytes "IEND" ++ B) (length A) = true.
Proof.
  unfold is_iend_at.
  rewrite <- (Nat.add_0_r (length A)) at 1.
  rewrite !byte_is_middle by (simpl; lia). reflexivity.
Qed.

Lemma take_app_length' {A} (l1 l2 : list A) n :
  n = length l1 → take n (l1 ++ l2) = l1.
Proof. intros ->. apply take_app_length. Qed.

Lemma drop_app_length' {A} (l1 l2 : list A) n :
  n = length l1 → drop n (l1 ++ l2) = l2.
Proof. intros ->. apply drop_app_length. Qed.

End encoder_facts.

Section written_card.
Import JS Png.
#[local] Open Scope Z_scope.

Variable payload : Card.Envelope → list byte.
Variable utf8_decode : list byte → string.
Variable atob : string → option string.
Variable JSON_parse : string → option value.
Variable inflate : bool → list byte → option (list byte).

#[local] Abbreviation parseCardData :=
  (parseCardData utf8_decode atob JSON_parse inflate).
#[local] Abbreviation interpret := (interpret utf8_decode atob JSON_parse).
#[local] Abbreviation recorded := (recorded utf8_decode atob JSON_parse inflate).
#[local] Abbreviation payload_text := (payload_text utf8_decode inflate).

(** The chunk [createTavernPng] builds, as a chunk. *)
Lemma tavern_chunk_is_chunk text :
  Z.of_nat (length text) + 6 < 2 ^ 32 →
  tavern_chunk text
  = Some (chunk_bytes
            (mkChunk tEXt_type (keywordBytes ++ [x00] ++ text)
               (be32 (crc32 (tEXt_type ++ keywordBytes ++ [x00] ++ text))))).
Proof.
  intros Hlen. rewrite tavern_chunk_layout. f_equal.
  unfold chunk_bytes. cbn [ctype cdata ccrc].
  rewrite !length_app. cbn [length].
  rewrite Z.mod_small.
  2:{ change (length keywordBytes) with 5%nat. lia. }
  replace (length keywordBytes + 1 + length text)%nat
    with (length keywordBytes + S (length text))%nat by lia.
  by rewrite <- !(assoc_L (++)).
Qed.

(** How the parser reads that chunk back. *)
Lemma tavern_chunk_text text crc :
  utf8_decode tEXt_type = "tEXt"%string →
  utf8_decode keywordBytes = "chara"%string →
  payload_text (mkChunk tEXt_type (keywordBytes ++ [x00] ++ text) crc)
  = Some (true, utf8_decode text).
Proof.
  intros Hty Hkw. unfold Png.payload_text. cbn [ctype cdata].
  rewrite Hty. unfold chunk_text.
  change (String.eqb "tEXt" "tEXt") with true. cbv iota.
  assert (Hk : keywordBytes = [x63; x68; x61; x72; x61]) by reflexivity.
  rewrite Hk in Hkw |- *.
  assert (Hf : find_nul ([x63; x68; x61; x72; x61] ++ [x00] ++ text) 0
                 (length ([x63; x68; x61; x72; x61] ++ [x00] ++ text) - 0)
               = Some 5%nat) by reflexivity.
  rewrite Hf. cbn [mbind option_bind].
  unfold readText, slice. f_equal. f_equal.
  - cbn [Nat.sub Nat.add drop take app]. by rewrite Hkw.
  - f_equal. cbn [Nat.add drop app length Nat.sub].
    rewrite drop_0. apply take_ge. lia.
Qed.

Lemma non_text_chunk_records_nothing c :
  utf8_decode (ctype c) = "IEND"%string → recorded c = None.
Proof.
  intros H. unfold Png.recorded, Png.payload_text, chunk_text. by rewrite H.
Qed.

(** X7: On a buffer that begins with the PNG signature [createTavernPng]
    never raises a RangeError.  It fails with a TypeError exactly when the
    export of the record throws, it reports a missing IEND only when no
    IEND signature starts more than seven bytes before the end, and a
    result is the buffer with the new chunk spliced in four bytes before
    the first IEND signature, which starts at index 8 or later; when it
    starts at index 12 or later the result begins with the PNG signature. *)
Theorem createTavernPng_on_signed_buffer rest c :
  match createTavernPng payload (PNG_SIG ++ rest) c with
  | inl TypeError => Card.buildExportData c = None
  | inl MissingIend =>
      is_Some (Card.buildExportData c) ∧
      ∀ j, (j + 7 < length (PNG_SIG ++ rest))%nat →
           is_iend_at (PNG_SIG ++ rest) j = false
  | inl RangeError => False
  | inr out =>
      ∃ e chunk (i : nat),
        Card.buildExportData c = Some e ∧
        tavern_chunk (payload e) = Some chunk ∧
        (8 ≤ i)%nat ∧ (i + 7 < length (PNG_SIG ++ rest))%nat ∧
        is_iend_at (PNG_SIG ++ rest) i = true ∧
        (∀ j, (j < i)%nat → is_iend_at (PNG_SIG ++ rest) j = false) ∧
        out = take (i - 4) (PNG_SIG ++ rest) ++ chunk
              ++ drop (i - 4) (PNG_SIG ++ rest) ∧
        ((12 ≤ i)%nat → take 8 out = PNG_SIG)
  end.
Proof.
  set (buf := PNG_SIG ++ rest).
  unfold createTavernPng.
  destruct (Card.buildExportData c) as [e|] eqn:He; [|done].
  rewrite tavern_chunk_layout.
  set (chunk := be32 _ ++ _).
  destruct (scan_iend_cases buf 0 (length buf - 7)) as [[Hs Hn]|(i & Hi & Hat & Hfirst & Hs)].
  - rewrite splice_missing by done. split; [done|].
    intros j Hj. apply Hn. lia.
  - assert (8 ≤ i)%nat as Hi8.
    { destruct (decide (i < 8)%nat) as [Hlt|]; [|lia].
      unfold buf in Hat. rewrite no_iend_in_signature in Hat by done. done. }
    assert (Ho : iendOffset buf = Z.of_nat (i - 4)).
    { unfold iendOffset. rewrite Hs. lia. }
    rewrite (splice_at buf chunk (i - 4)) by (done || lia).
    exists e, chunk, i. split; [done|]. split.
    { subst chunk. by rewrite tavern_chunk_layout. }
    repeat split; try done; try lia.
    + intros j Hj. apply Hfirst. lia.
    + intros Hi12. rewrite take_app_le.
      2:{ rewrite length_take. unfold buf in *. rewrite length_app in *.
          change (length PNG_SIG) with 8%nat in *. lia. }
      rewrite take_take. replace (8 `min` (i - 4))%nat with 8%nat by lia.
      unfold buf. by rewrite take_app_length' by done.
Qed.

(** X8: A card written by [createTavernPng] is the card
    [parseCharacterCard] reads: for a PNG made of complete chunks that ends
    with its IEND chunk, and in which the IEND signature does not occur
    before that chunk's type field, the output is the same chunk sequence
    with the new tEXt chunk inserted before IEND, and the chunk stage of
    the parser returns what the platform decodes from the written text,
    whatever card chunks the source held before. *)
Theorem written_card_is_read_back cs iend c e v :
  Forall wf_chunk cs → wf_chunk iend → ctype iend = ascii_bytes "IEND" →
  (∀ j, (j < 8 + length (chunks_bytes cs) + 4)%nat →
        is_iend_at (PNG_SIG ++ chunks_bytes (cs ++ [iend])) j = false) →
  utf8_decode tEXt_type = "tEXt"%string →
  utf8_decode keywordBytes = "chara"%string →
  utf8_decode (ascii_bytes "IEND") = "IEND"%string →
  Z.of_nat (length (payload e)) + 6 < 2 ^ 32 →
  Card.buildExportData c = Some e →
  interpret (utf8_decode (payload e)) = Some v → truthy v = true →
  ∃ out,
    createTavernPng payload (PNG_SIG ++ chunks_bytes (cs ++ [iend])) c = inr out ∧
    out = PNG_SIG ++ chunks_bytes
            (cs ++ [mkChunk tEXt_type (keywordBytes ++ [x00] ++ payload e)
                      (be32 (crc32 (tEXt_type ++ keywordBytes ++ [x00]
                                    ++ payload e)));
                    iend]) ∧
    parseCardData out = inr v.
Proof.
  intros Hcs Hiend Hty Hfirst Htext Hkw Hie Hlen He Hint Hv.
  set (card := mkChunk tEXt_type (keywordBytes ++ [x00] ++ payload e) _).
  set (buf := PNG_SIG ++ chunks_bytes (cs ++ [iend])).
  set (n := (8 + length (chunks_bytes cs))%nat).
  assert (Hbuf : buf = (PNG_SIG ++ chunks_bytes cs) ++ chunk_bytes iend).
  { unfold buf. rewrite chunks_bytes_app, (assoc_L (++)). f_equal.
    unfold chunks_bytes. simpl. by rewrite app_nil_r. }
  assert (Hn : length (PNG_SIG ++ chunks_bytes cs) = n).
  { rewrite length_app. reflexivity. }
  pose proof (length_chunk_bytes iend Hiend) as Hli.
  assert (Hat : is_iend_at buf (n + 4) = true).
  { rewrite Hbuf. unfold chunk_bytes. rewrite Hty.
    rewrite (assoc_L (++) _ (be32 _)).
    replace (n + 4)%nat
      with (length ((PNG_SIG ++ chunks_bytes cs)
                    ++ be32 (Z.of_nat (length (cdata iend))))).
    2:{ rewrite length_app, Hn, length_be32. lia. }
    apply is_iend_at_middle. }
  assert (Ho : iendOffset buf = Z.of_nat n).
  { unfold iendOffset.
    rewrite (scan_iend_found buf 0 _ (n + 4)); [lia| |done|].
    - rewrite Hbuf, length_app, Hn, Hli. lia.
    - intros j Hj. apply Hfirst. fold n. lia. }
  exists (PNG_SIG ++ chunks_bytes (cs ++ [card; iend])).
  assert (Hout : createTavernPng payload buf c
                 = inr (PNG_SIG ++ chunks_bytes (cs ++ [card; iend]))).
  { unfold createTavernPng. rewrite He, (tavern_chunk_is_chunk _ Hlen).
    fold card. rewrite (splice_at buf _ n Ho).
    2:{ rewrite Hbuf, length_app, Hn. lia. }
    f_equal. rewrite Hbuf.
    rewrite take_app_length' by done. rewrite drop_app_length' by done.
    rewrite chunks_bytes_app. rewrite <- !(assoc_L (++)). do 2 f_equal.
    unfold chunks_bytes. simpl. by rewrite app_nil_r. }
  split; [done|]. split; [done|].
  assert (Hwf : Forall wf_chunk (cs ++ [card; iend])).
  { apply Forall_app. split; [done|]. constructor; [|by constructor].
    split; [done|]. split; [apply length_be32|].
    subst card. cbn [cdata]. rewrite !length_app. cbn [length].
    change (length keywordBytes) with 5%nat. lia. }
  rewrite <- (app_nil_r (chunks_bytes _)).
  rewrite (parseCardData_chunks utf8_decode atob JSON_parse inflate _ []
             Hwf (truncated_nil)).
  assert (Hrec : recorded card = Some v).
  { unfold Png.recorded. subst card.
    rewrite (tavern_chunk_text _ _ Htext Hkw). done. }
  rewrite (last_omap_split recorded cs card [iend] v Hrec).
  2:{ constructor; [|done]. apply non_text_chunk_records_nothing.
      by rewrite Hty. }
  cbn [default from_option Datatypes.id]. cbv zeta. by rewrite Hv.
Qed.

End written_card.

Section tx2_closed.

Import JS Png.
#[local] Open Scope Z_scope.

(** The sample record written into the two-chunk PNG frame and read
    back. *)
Lemma written_card_is_read_back_witness :
  ∃ out,
    createTavernPng Sample.export_payload (Sample.png_of []) Sample.imported
      = inr out ∧
    out = PNG_SIG ++ chunks_bytes
            ([Sample.IHDR]
             ++ [mkChunk tEXt_type
                   (keywordBytes ++ [x00]
                    ++ Sample.export_payload Sample.imported_export)
                   (be32 (crc32 (tEXt_type ++ keywordBytes ++ [x00]
                                 ++ Sample.export_payload
                                      Sample.imported_export)));
                 Sample.IEND]) ∧
    parseCardData Sample.latin1_decode Sample.atob Sample.JSON_parse_export
      Sample.inflate out = inr Sample.export_value.
Proof.
  apply (written_card_is_read_back Sample.export_payload Sample.latin1_decode
           Sample.atob Sample.JSON_parse_export Sample.inflate
           [Sample.IHDR] Sample.IEND Sample.imported Sample.imported_export
           Sample.export_value).
  - repeat constructor.
  - repeat constructor.
  - reflexivity.
  - intros j Hj.
    change (8 + length (chunks_bytes [Sample.IHDR]) + 4)%nat with 37%nat in Hj.
    do 37 (destruct j as [|j]; [by vm_compute|]). lia.
  - reflexivity.
  - reflexivity.
  - reflexivity.
  - by vm_compute.
  - by vm_compute.
  - by vm_compute.
  - reflexivity.
Defined.

End tx2_closed.

Section splice_claim.
Import JS Png.
#[local] Open Scope Z_scope.

Variable payload : Card.Envelope → list byte.

Lemma is_iend_at_lookup buf i :
  is_iend_at buf i = true →
  buf !! i = Some x49 ∧ buf !! (i + 1)%nat = Some x45 ∧
  buf !! (i + 2)%nat = Some x4e ∧ buf !! (i + 3)%nat = Some x44.
Proof.
  unfold is_iend_at, byte_is. rewrite !andb_true_iff.
  intros [[[H0 H1] H2] H3].
  destruct (buf !! i) as [b0|]; [|done].
  destruct (buf !! (i + 1)%nat) as [b1|]; [|done].
  destruct (buf !! (i + 2)%nat) as [b2|]; [|done].
  destruct (buf !! (i + 3)%nat) as [b3|]; [|done].
  apply byte_eqb_eq in H0, H1, H2, H3. by subst.
Qed.

(** A complete PNG, split at its IEND chunk. *)
Lemma complete_png_layout cs iend :
  ctype iend = ascii_bytes "IEND" → cdata iend = [] →
  PNG_SIG ++ chunks_bytes (cs ++ [iend])
  = (PNG_SIG ++ chunks_bytes cs)
    ++ [x00; x00; x00; x00] ++ ascii_bytes "IEND" ++ ccrc iend.
Proof.
  intros Hty Hd. rewrite chunks_bytes_app, (assoc_L (++)). f_equal.
  unfold chunks_bytes, chunk_bytes. simpl. by rewrite Hty, Hd, app_nil_r.
Qed.

(** C3: on a PNG made of the signature and complete chunks that ends with
    its IEND chunk, the encoder writes the new tEXt chunk four bytes before
    the first occurrence of the bytes of the IEND signature.  When that
    occurrence is the type field of the IEND chunk, the output is the input
    with the new chunk immediately before the IEND chunk, as the claim
    says.  When the four bytes occur earlier, inside another chunk, the
    splice is made there: the output is not the input with the chunk before
    the IEND chunk; where that has the first of the four stray bytes, the
    output has the first letter of the new chunk's type.  Without any
    occurrence of the signature, encoding fails with the missing-IEND
    error. *)
Theorem C3_stray_iend_bytes_take_the_splice cs iend c e (i : nat) :
  Forall wf_chunk cs → wf_chunk iend →
  ctype iend = ascii_bytes "IEND" → cdata iend = [] →
  Card.buildExportData c = Some e →
  is_iend_at (PNG_SIG ++ chunks_bytes (cs ++ [iend])) i = true →
  (∀ j, (j < i)%nat →
        is_iend_at (PNG_SIG ++ chunks_bytes (cs ++ [iend])) j = false) →
  ∃ chunk,
    tavern_chunk (payload e) = Some chunk ∧
    createTavernPng payload (PNG_SIG ++ chunks_bytes (cs ++ [iend])) c
    = inr (take (i - 4) (PNG_SIG ++ chunks_bytes (cs ++ [iend])) ++ chunk
           ++ drop (i - 4) (PNG_SIG ++ chunks_bytes (cs ++ [iend]))) ∧
    is_iend_at (PNG_SIG ++ chunks_bytes (cs ++ [iend]))
      (8 + length (chunks_bytes cs) + 4) = true ∧
    (i = (8 + length (chunks_bytes cs) + 4)%nat ∨
     (8 ≤ i)%nat ∧ (i + 4 ≤ 8 + length (chunks_bytes cs))%nat) ∧
    (i = (8 + length (chunks_bytes cs) + 4)%nat →
     createTavernPng payload (PNG_SIG ++ chunks_bytes (cs ++ [iend])) c
     = inr (PNG_SIG ++ chunks_bytes cs ++ chunk ++ chunk_bytes iend)) ∧
    (i ≠ (8 + length (chunks_bytes cs) + 4)%nat →
     createTavernPng payload (PNG_SIG ++ chunks_bytes (cs ++ [iend])) c
     ≠ inr (PNG_SIG ++ chunks_bytes cs ++ chunk ++ chunk_bytes iend) ∧
     (take (i - 4) (PNG_SIG ++ chunks_bytes (cs ++ [iend])) ++ chunk
      ++ drop (i - 4) (PNG_SIG ++ chunks_bytes (cs ++ [iend]))) !! i
     = Some x74 ∧
     (PNG_SIG ++ chunks_bytes cs ++ chunk ++ chunk_bytes iend) !! i
     = Some x49) ∧
    (∀ buf, (∀ j, is_iend_at buf j = false) →
            createTavernPng payload buf c = inl MissingIend).
Proof.
  intros Hcs Hiend Hty Hd He Hat Hfirst.
  set (buf := PNG_SIG ++ chunks_bytes (cs ++ [iend])) in *.
  set (n := (8 + length (chunks_bytes cs))%nat).
  set (A := PNG_SIG ++ chunks_bytes cs).
  assert (Hbuf : buf = A ++ [x00; x00; x00; x00] ++ ascii_bytes "IEND"
                         ++ ccrc iend)
    by (by apply complete_png_layout).
  assert (HA : length A = n) by (unfold A; by rewrite length_app).
  assert (Hcrc : length (ccrc iend) = 4%nat) by (by destruct Hiend as (_ & ? & _)).
  assert (Hlen : length buf = (n + 12)%nat).
  { rewrite Hbuf, !length_app, HA, Hcrc. simpl. lia. }
  assert (Hend : is_iend_at buf (n + 4) = true).
  { rewrite Hbuf, (assoc_L (++) A).
    replace (n + 4)%nat with (length (A ++ [x00; x00; x00; x00]))
      by (rewrite length_app, HA; simpl; lia).
    apply is_iend_at_middle. }
  assert (Hi8 : (8 ≤ i)%nat).
  { destruct (decide (i < 8)%nat) as [Hlt|]; [|lia].
    unfold buf in Hat. by rewrite no_iend_in_signature in Hat. }
  assert (Hile : (i ≤ n + 4)%nat).
  { destruct (decide (n + 4 < i)%nat) as [Hlt|]; [|lia].
    by rewrite (Hfirst _ Hlt) in Hend. }
  assert (Hzero : ∀ a, (a < 4)%nat → buf !! (n + a)%nat = Some x00).
  { intros a Ha. rewrite Hbuf, <- HA, lookup_middle by (simpl; lia).
    by do 4 (destruct a as [|a]; [done|]); lia. }
  pose proof (is_iend_at_lookup _ _ Hat) as (Hb0 & Hb1 & Hb2 & Hb3).
  assert (Hcase : i = (n + 4)%nat ∨ (i + 4 ≤ n)%nat).
  { destruct (decide (i = n + 4)%nat) as [|Hne]; [by left|]. right.
    destruct (decide (i + 4 ≤ n)%nat) as [|Hgt]; [done|]. exfalso.
    assert (i + 3 = n + 0 ∨ i + 2 = n + 0 ∨ i + 1 = n + 0 ∨ i = n + 0
            ∨ i = n + 1 ∨ i = n + 2 ∨ i = n + 3)%nat
      as [E|[E|[E|[E|[E|[E|E]]]]]] by lia.
    - rewrite E, Hzero in Hb3 by lia. done.
    - rewrite E, Hzero in Hb2 by lia. done.
    - rewrite E, Hzero in Hb1 by lia. done.
    - rewrite E, Hzero in Hb0 by lia. done.
    - rewrite E, Hzero in Hb0 by lia. done.
    - rewrite E, Hzero in Hb0 by lia. done.
    - rewrite E, Hzero in Hb0 by lia. done. }
  assert (Ho : iendOffset buf = Z.of_nat (i - 4)).
  { unfold iendOffset.
    rewrite (scan_iend_found buf 0 _ i); [lia|lia|done|].
    intros j Hj. apply Hfirst. lia. }
  eexists. split; [apply tavern_chunk_layout|].
  set (chunk := be32 _ ++ _).
  assert (Hout : createTavernPng payload buf c
                 = inr (take (i - 4) buf ++ chunk ++ drop (i - 4) buf)).
  { unfold createTavernPng. rewrite He, tavern_chunk_layout. fold chunk.
    apply splice_at; [done|lia]. }
  split; [done|]. split; [done|].
  split; [destruct Hcase; [by left|right; lia]|].
  assert (Hiend_bytes : chunk_bytes iend
                        = [x00; x00; x00; x00] ++ ascii_bytes "IEND" ++ ccrc iend).
  { unfold chunk_bytes. by rewrite Hty, Hd. }
  split; [|split].
  - intros Hi. rewrite Hout. f_equal. rewrite Hi.
    replace (n + 4 - 4)%nat with n by lia. rewrite Hbuf.
    rewrite take_app_length', drop_app_length' by done.
    unfold A. by rewrite Hiend_bytes, <- !(assoc_L (++)).
  - intros Hi. destruct Hcase as [|Hin]; [done|].
    assert (H1 : (take (i - 4) buf ++ chunk ++ drop (i - 4) buf) !! i
                 = Some x74).
    { rewrite lookup_app_r by (rewrite length_take; lia).
      rewrite length_take.
      replace (i - (i - 4) `min` length buf)%nat with 4%nat by lia.
      rewrite lookup_app_l.
      2:{ unfold chunk. rewrite !length_app, length_be32.
          change (length tEXt_type) with 4%nat. lia. }
      unfold chunk. rewrite lookup_app_r by (rewrite length_be32; lia).
      by rewrite length_be32. }
    assert (H2 : (PNG_SIG ++ chunks_bytes cs ++ chunk ++ chunk_bytes iend) !! i
                 = Some x49).
    { rewrite (assoc_L (++) PNG_SIG). fold A.
      rewrite lookup_app_l by lia.
      rewrite Hbuf in Hb0. rewrite lookup_app_l in Hb0 by lia. done. }
    split; [|done]. rewrite Hout. intros E. congruence.
  - intros buf' Hnone. unfold createTavernPng.
    rewrite He, tavern_chunk_layout. apply splice_missing. unfold iendOffset.
    apply scan_iend_none. intros j _. apply Hnone.
Qed.

End splice_claim.

Section tc5_closed.

Import JS Png.
#[local] Open Scope Z_scope.

(** The failing input: a complete PNG whose image data holds the bytes of
    the IEND signature at index 47, fourteen bytes before the type field of
    the IEND chunk.  The chunk is written at offset 43, inside the image
    data; the decoder finds no card in that output, and finds the card in
    the buffer that has the chunk before the IEND chunk. *)
Lemma C3_stray_iend_bytes_take_the_splice_witness :
  ∃ chunk,
    tavern_chunk (Sample.export_payload Sample.imported_export) = Some chunk ∧
    createTavernPng Sample.export_payload Sample.stray_png Sample.imported
    = inr (take 43 Sample.stray_png ++ chunk ++ drop 43 Sample.stray_png) ∧
    createTavernPng Sample.export_payload Sample.stray_png Sample.imported
    ≠ inr (PNG_SIG ++ chunks_bytes [Sample.IHDR; Sample.stray_data] ++ chunk
           ++ chunk_bytes Sample.IEND) ∧
    parseCardData Sample.latin1_decode Sample.atob Sample.JSON_parse_export
      Sample.inflate
      (take 43 Sample.stray_png ++ chunk ++ drop 43 Sample.stray_png)
    = inl NoCardData ∧
    parseCardData Sample.latin1_decode Sample.atob Sample.JSON_parse_export
      Sample.inflate
      (PNG_SIG ++ chunks_bytes [Sample.IHDR; Sample.stray_data] ++ chunk
       ++ chunk_bytes Sample.IEND)
    = inr Sample.export_value.
Proof.
  destruct (C3_stray_iend_bytes_take_the_splice Sample.export_payload
              [Sample.IHDR; Sample.stray_data] Sample.IEND Sample.imported
              Sample.imported_export 47)
    as (chunk & Hc & Ho & _ & _ & _ & Hne & _).
  - repeat constructor.
  - repeat constructor.
  - reflexivity.
  - reflexivity.
  - by vm_compute.
  - by vm_compute.
  - intros j Hj. do 47 (destruct j as [|j]; [by vm_compute|]). lia.
  - exists chunk. split; [exact Hc|]. split; [exact Ho|].
    split; [apply Hne; vm_compute; lia|].
    vm_compute in Hc. injection Hc as <-. split; by vm_compute.
Defined.

End tc5_closed.

Section card_more.
Import JS Card.

Lemma mapM_None {A B} (f : A → option B) l :
  mapM f l = None ↔ ∃ x, x ∈ l ∧ f x = None.
Proof.
  induction l as [|a l IH]; cbn.
  - split; [done|]. intros (x & Hx & _). by apply elem_of_nil in Hx.
  - destruct (f a) as [y|] eqn:Ha; cbn.
    + destruct (mapM f l) as [k|]; cbn.
      * split; [done|]. intros (x & Hx & Hn).
        apply elem_of_cons in Hx as [->|Hx]; [congruence|].
        assert (Some k = None) by (apply IH; eauto). done.
      * split; [|done]. intros _.
        destruct (proj1 IH eq_refl) as (x & Hx & Hn).
        exists x. split; [by apply elem_of_cons; right|done].
    + split; [|done]. intros _. exists a. split; [apply elem_of_cons; by left|done].
Qed.

Lemma strip_keysInput_None e :
  strip_keysInput e = None ↔ e = VUndef ∨ e = VNull.
Proof.
  destruct e; simpl; split; intros H; try done; auto; by destruct H.
Qed.

Lemma export_book_of_None cb fb :
  export_book_of cb fb = None ↔
  truthy cb = true ∧
  match or_else (get_opt cb "entries") (VArr []) with
  | VArr l => ∃ e, e ∈ l ∧ (e = VUndef ∨ e = VNull)
  | _ => True
  end.
Proof.
  unfold export_book_of. destruct (truthy cb) eqn:Hcb.
  2:{ split; [done|]. by intros [? _]. }
  rewrite (truthy_get cb Hcb). cbn [mbind option_bind].
  destruct (or_else (get_opt cb "entries") (VArr [])) as [| | | | |l| |];
    cbn [call_map mbind option_bind]; try (split; [by intros _|done]).
  destruct (mapM strip_keysInput l) as [l'|] eqn:Hm; cbn.
  - split; [done|]. intros [_ (e & He & Hn)].
    assert (mapM strip_keysInput l = None) as Hno.
    { apply mapM_None. exists e. split; [done|]. by apply strip_keysInput_None. }
    congruence.
  - split; [|done]. intros _. split; [done|].
    apply mapM_None in Hm as (e & He & Hn). exists e. split; [done|].
    by apply strip_keysInput_None.
Qed.

(** The tags an import produces. *)
Lemma tags_of_shape t tg :
  tags_of t = Some tg → ∃ l, tg = VArr (VStr <$> l) ∧ Forall clean_tag l.
Proof.
  unfold tags_of. destruct t as [| | | |s|l| |]; intros H; simplify_eq;
    try (by exists []).
  - eexists. split; [done|]. apply filter_trimmed_clean.
    apply Forall_fmap, Forall_true. intros x. apply trim_idem.
  - destruct (mapM _ l) as [ss|] eqn:Hm; [|done]. cbn in H. simplify_eq.
    eexists. split; [done|]. apply filter_trimmed_clean.
    apply mapM_Some in Hm.
    induction Hm as [|x s l ss Hx _ IH]; constructor; [|done].
    destruct (to_string x); [|done]. cbn in Hx. simplify_eq. apply trim_idem.
Qed.

(** X9: [buildExportData] throws exactly when the record has a truthy
    [character_book] whose [entries] is a truthy value other than an
    array, or an array holding [null] or [undefined]; a record without a
    lorebook always exports. *)
Theorem export_throws_only_on_a_broken_book c :
  buildExportData c = None ↔
  truthy (character_book c) = true ∧
  match or_else (get_opt (character_book c) "entries") (VArr []) with
  | VArr l => ∃ e, e ∈ l ∧ (e = VUndef ∨ e = VNull)
  | _ => True
  end.
Proof.
  rewrite <- (export_book_of_None _
                (default VUndef (export_base c !! "character_book"))).
  unfold buildExportData, export_book.
  destruct (export_book_of _ _); cbn; split; intros; done.
Qed.

(** X10: The record an import returns always exports: [buildExportData]
    does not throw on it, whatever the decoded root was. *)
Theorem imported_record_exports root fileName avatar ident fmt now c :
  buildCharacter root fileName avatar ident fmt now = Some c →
  ∃ e, buildExportData c = Some e ∧ spec e = "chara_card_v2" ∧
       spec_version e = "2.0".
Proof.
  intros H. apply import_normalised in H.
  destruct (norm_book c H) as (b & cb & Hb & _).
  unfold buildExportData. rewrite Hb. cbn. eauto.
Qed.

Lemma buildCharacter_tags_array root fileName avatar ident fmt now c :
  buildCharacter root fileName avatar ident fmt now = Some c →
  truthy (name c) = true ∧ ∃ l, tags c = VArr (VStr <$> l).
Proof.
  intros H.
  apply buildCharacter_inv in H as (d & tg & bk & _ & Ht & _ & _ & ->).
  cbn [name tags character_from]. split; [by apply or_else_default_truthy|].
  unfold import_tags in Ht. destruct (get d "tags") as [t|]; [|done].
  cbn in Ht. apply tags_of_shape in Ht as (l & -> & _). by exists l.
Qed.

(** X11: Every record an import returns has a truthy [name] and a [tags]
    array of strings each of which is trimmed and not empty, whatever the
    source held under [tags]. *)
Theorem imported_tags_are_clean root fileName avatar ident fmt now c :
  buildCharacter root fileName avatar ident fmt now = Some c →
  truthy (name c) = true ∧
  ∃ l, tags c = VArr (VStr <$> l) ∧ Forall clean_tag l.
Proof.
  intros H.
  apply buildCharacter_inv in H as (d & tg & bk & _ & Ht & _ & _ & ->).
  cbn [name tags character_from]. split.
  - by apply or_else_default_truthy.
  - unfold import_tags in Ht.
    destruct (get d "tags") as [t|]; [|done]. cbn in Ht.
    by apply tags_of_shape in Ht.
Qed.

Lemma mapM_strip_shape l l' :
  mapM strip_keysInput l = Some l' →
  Forall (λ x, ∃ mx, x = VObj mx ∧ mx !! "keysInput" = None) l' ∧
  length l' = length l.
Proof.
  intros H. apply mapM_Some in H. induction H as [|x y l l' Hx _ [IH1 IH2]].
  - by split.
  - split; [|by cbn; f_equal]. constructor; [|done].
    destruct x; cbn in Hx; simplify_eq; eexists; (split; [done|]);
      apply lookup_delete_eq.
Qed.

(** X12: When the record has a lorebook, the [character_book] of the
    export is a new object with the properties of the record's book other
    than [entries], and its entries are objects none of which has the
    editor's [keysInput] property, as many as the record's book has. *)
Theorem exported_entries_have_no_keysInput c e :
  buildExportData c = Some e → truthy (character_book c) = true →
  ∃ m l l',
    data e !! "character_book" = Some (VObj m) ∧
    or_else (get_opt (character_book c) "entries") (VArr []) = VArr l ∧
    m !! "entries" = Some (VArr l') ∧ length l' = length l ∧
    Forall (λ x, ∃ mx, x = VObj mx ∧ mx !! "keysInput" = None) l' ∧
    (∀ k, k ≠ "entries" → m !! k = spread (character_book c) !! k).
Proof.
  intros He Hcb.
  pose proof He as Hb. apply buildExportData_Some in Hb as (b & Hb & _).
  assert (Hl : data e !! "character_book" = Some b).
  { eapply export_lookup_typed; [done..|]. reflexivity. }
  unfold export_book, export_book_of in Hb. rewrite Hcb in Hb.
  rewrite (truthy_get _ Hcb) in Hb. cbn [mbind option_bind] in Hb.
  destruct (call_map _ strip_keysInput) as [es|] eqn:Hes; [|done].
  cbn in Hb. injection Hb as <-.
  apply call_map_inv in Hes as (l & l' & Hor & Hm & ->).
  apply mapM_strip_shape in Hm as [Hf Hlen].
  eexists _, l, l'. split; [done|]. split; [done|].
  split; [apply lookup_insert_eq|]. split; [done|]. split; [done|].
  intros k Hk. by rewrite lookup_insert_ne.
Qed.

Lemma or_else_cases x d : or_else x d = d ∨ truthy (or_else x d) = true.
Proof. unfold or_else. destruct (truthy x) eqn:E; auto. Qed.

Lemma or_else_chain x y d :
  y = d ∨ truthy y = true → or_else x y = d ∨ truthy (or_else x y) = true.
Proof. unfold or_else. destruct (truthy x) eqn:E; auto. Qed.

Lemma or_else_absorb v d : v = d ∨ truthy v = true → or_else v d = v.
Proof. intros [->|H]; [apply or_else_same|by apply or_else_truthy]. Qed.

Lemma buildCharacter_defaults root fileName avatar ident fmt now c :
  buildCharacter root fileName avatar ident fmt now = Some c →
  Forall (λ v, v = VStr "" ∨ truthy v = true)
    [description c; personality c; firstMessage c; scenario c; sourceUrl c;
     creator_notes c; mes_example c; system_prompt c;
     post_history_instructions c; creator c; character_version c] ∧
  truthy (alternate_greetings c) = true ∧ truthy (qrList c) = true ∧
  truthy (extensions c) = true.
Proof.
  intros H.
  apply buildCharacter_inv in H as (d & tg & bk & _ & _ & _ & _ & ->).
  cbn [description personality firstMessage scenario sourceUrl
    creator_notes mes_example system_prompt post_history_instructions
    creator character_version alternate_greetings qrList extensions
    character_from].
  split.
  { repeat (apply Forall_cons_2;
              [repeat first [apply or_else_cases | apply or_else_chain]|]).
    apply Forall_nil_2. }
  split; [by do 2 apply or_else_default_truthy|].
  split; by apply or_else_default_truthy.
Qed.

(** X13: An import leaves no typed text field undefined: in the record it
    returns, each of the eleven text fields is the empty string or a
    truthy value, and [alternate_greetings], [qrList] and [extensions] are
    truthy.  So the defaults [buildExportData] applies do nothing to an
    imported record: its export writes the typed values as they are. *)
Theorem imported_fields_are_defaulted root fileName avatar ident fmt now c :
  buildCharacter root fileName avatar ident fmt now = Some c →
  Forall (λ v, v = VStr "" ∨ truthy v = true)
    [description c; personality c; firstMessage c; scenario c; sourceUrl c;
     creator_notes c; mes_example c; system_prompt c;
     post_history_instructions c; creator c; character_version c] ∧
  truthy (alternate_greetings c) = true ∧ truthy (qrList c) = true ∧
  truthy (extensions c) = true ∧
  ∀ b, editedFields c b
       = list_to_map [
           ("name", name c); ("description", description c);
           ("personality", personality c); ("first_mes", firstMessage c);
           ("alternate_greetings", alternate_greetings c);
           ("scenario", scenario c); ("mes_example", mes_example c);
           ("system_prompt", system_prompt c);
           ("post_history_instructions", post_history_instructions c);
           ("creator_notes", creator_notes c); ("creator", creator c);
           ("character_version", character_version c);
           ("tags", tags c); ("extensions", extensions c);
           ("character_book", b)].
Proof.
  intros H.
  pose proof (buildCharacter_tags_array _ _ _ _ _ _ _ H) as (_ & l & Ht).
  pose proof (buildCharacter_defaults _ _ _ _ _ _ _ H)
    as (Hf & Hag & Hqr & Hext).
  split; [done|]. split; [done|]. split; [done|]. split; [done|].
  intros b. unfold editedFields.
  rewrite !Forall_cons in Hf.
  destruct Hf as (H1 & H2 & H3 & H4 & H5 & H6 & H7 & H8 & H9 & H10 & H11 & _).
  rewrite (or_else_absorb _ _ H4), (or_else_absorb _ _ H6),
    (or_else_absorb _ _ H7), (or_else_absorb _ _ H8),
    (or_else_absorb _ _ H9), (or_else_absorb _ _ H10),
    (or_else_absorb _ _ H11).
  rewrite (or_else_truthy (alternate_greetings c)),
    (or_else_truthy (extensions c)) by done.
  rewrite (or_else_truthy (tags c)) by (by rewrite Ht).
  reflexivity.
Qed.

End card_more.

Section json_import.
Import JS Card.

Variable JSON_parse : string → option value.

#[local] Abbreviation parseCharacterJson := (Importers.parseCharacterJson JSON_parse).

(** X14: [parseCharacterJson] reports an invalid file exactly when
    [JSON.parse] throws; the root [null] ends in a TypeError; every other
    root that is not an object (a boolean, a number, a string, an array)
    is imported as a card named Unknown that retains the root as
    [rawData]; and every record it returns is marked as a JSON import,
    carries the given identifier and file name, and has the placeholder
    avatar whose URL includes picsum. *)
Theorem json_import_outcomes text fileName ident now :
  (parseCharacterJson text fileName ident now = inl Importers.InvalidJson
   ↔ JSON_parse text = None) ∧
  (JSON_parse text = Some VNull →
   parseCharacterJson text fileName ident now = inl Importers.ImportTypeError) ∧
  (∀ root, JSON_parse text = Some root →
     match root with
     | VBool _ | VNum _ | VStr _ | VArr _ => True
     | _ => False
     end →
     ∃ c, parseCharacterJson text fileName ident now = inr c ∧
          name c = VStr "Unknown" ∧ rawData c = root ∧ tags c = VArr [] ∧
          character_book c = VUndef) ∧
  (∀ c, parseCharacterJson text fileName ident now = inr c →
        importFormat c = FmtJson ∧ id c = ident ∧
        originalFilename c = fileName ∧
        avatarUrl c = Importers.placeholder_avatar ident ∧
        Importers.includes (avatarUrl c) "picsum" = true).
Proof.
  unfold Importers.parseCharacterJson.
  destruct (JSON_parse text) as [root|] eqn:Hj.
  - split; [|split; [|split]].
    + split; [|done]. by destruct (buildCharacter _ _ _ _ _ _).
    + by intros [= ->].
    + intros ? [= <-] Hr.
      destruct root; try done; eexists; (split; [reflexivity|done]).
    + intros c Hc.
      destruct (buildCharacter _ _ _ _ _ _) as [c'|] eqn:Hb; [|done].
      injection Hc as ->.
      apply buildCharacter_inv in Hb as (d & tg & bk & _ & _ & _ & _ & ->).
      cbn [importFormat id originalFilename avatarUrl character_from].
      repeat split; reflexivity.
  - split; [done|]. split; [done|]. split; [done|]. done.
Qed.

End json_import.

Section tx3_closed.

Import JS Card.

(** An import of a root with tags given as a comma-separated string. *)
Lemma imported_record_exports_witness :
  ∃ e, buildExportData Sample.imported = Some e ∧ spec e = "chara_card_v2" ∧
       spec_version e = "2.0".
Proof.
  apply (imported_record_exports (VObj Sample.cleared_raw) "a.json" "a.png" "1"
           FmtJson 0 Sample.imported).
  by vm_compute.
Defined.

Lemma imported_tags_are_clean_witness :
  truthy (name Sample.imported) = true ∧
  ∃ l, tags Sample.imported = VArr (VStr <$> l) ∧ Forall clean_tag l.
Proof.
  apply (imported_tags_are_clean (VObj Sample.cleared_raw) "a.json" "a.png" "1"
           FmtJson 0 Sample.imported).
  by vm_compute.
Defined.

(** A record with a one-entry lorebook whose entry carries the helper. *)
Lemma exported_entries_have_no_keysInput_witness :
  ∃ m l l',
    data Sample.book_export !! "character_book" = Some (VObj m) ∧
    or_else (get_opt (character_book Sample.with_book) "entries") (VArr [])
      = VArr l ∧
    m !! "entries" = Some (VArr l') ∧ length l' = length l ∧
    Forall (λ x, ∃ mx, x = VObj mx ∧ mx !! "keysInput" = None) l' ∧
    (∀ k, k ≠ "entries" →
          m !! k = spread (character_book Sample.with_book) !! k).
Proof.
  apply (exported_entries_have_no_keysInput Sample.with_book
           Sample.book_export); by vm_compute.
Defined.

Lemma imported_fields_are_defaulted_witness :
  truthy (alternate_greetings Sample.imported) = true ∧
  truthy (qrList Sample.imported) = true ∧
  truthy (extensions Sample.imported) = true.
Proof.
  destruct (imported_fields_are_defaulted (VObj Sample.cleared_raw) "a.json"
              "a.png" "1" FmtJson 0 Sample.imported) as (_ & H1 & H2 & H3 & _).
  - by vm_compute.
  - done.
Defined.

End tx3_closed.

Section qr_files.
Import JS Card.

Variable JSON_parse : string → option value.

#[local] Abbreviation parseQrFile := (Qr.parseQrFile JSON_parse).

Lemma isArray_get_obj data k :
  isArray (get_opt data k) = true →
  ∃ m, data = VObj m ∧ m !! k = Some (get_opt data k).
Proof.
  destruct data as [| | | | |l|m|]; try done.
  - unfold get_opt. simpl. by destruct (array_method k).
  - intros H. exists m. split; [done|]. unfold get_opt in *. simpl in *.
    by destruct (m !! k).
Qed.

Lemma parseQrFile_inv text list raw :
  parseQrFile text = inr (list, raw) →
  isArray list = true ∧
  ((∃ m, raw = VObj m ∧ JSON_parse text = Some raw ∧ m !! "qrList" = Some list)
   ∨ (∃ m, raw = VObj m ∧ JSON_parse text = Some raw ∧
           m !! "quickReplySlots" = Some list ∧
           isArray (fld m "qrList") = false)
   ∨ (raw = VObj {["qrList" := list]} ∧ JSON_parse text = Some list)).
Proof.
  unfold Qr.parseQrFile. destruct (JSON_parse text) as [data|]; [|done].
  destruct (truthy data && isArray (get_opt data "qrList")) eqn:E1.
  { intros [= <- <-]. apply andb_true_iff in E1 as [_ E1]. split; [done|].
    left. apply isArray_get_obj in E1 as (m & -> & Hm). eauto. }
  destruct (truthy data && isArray (get_opt data "quickReplySlots")) eqn:E2.
  { intros [= <- <-]. apply andb_true_iff in E2 as [Ht E2]. split; [done|].
    right; left. rewrite Ht in E1. cbn in E1.
    apply isArray_get_obj in E2 as (m & -> & Hm). exists m.
    repeat split; done. }
  destruct (isArray data) eqn:E3; [|done].
  intros [= <- <-]. split; [done|]. by right; right.
Qed.

(** X15: [parseQrFile] returns a list that is an array and a retained
    object that holds it: the parsed file itself, with the list under
    [qrList] or, when the file has no array there, under
    [quickReplySlots]; or, for a file that is a bare array, a new object
    with the array under [qrList].  It fails on a file that is not JSON,
    and on a JSON value that is neither an array nor an object with an
    array under one of the two keys. *)
Theorem parseQrFile_outcomes text :
  match parseQrFile text with
  | inr (list, raw) =>
      isArray list = true ∧
      ((∃ m, raw = VObj m ∧ JSON_parse text = Some raw ∧
             m !! "qrList" = Some list)
       ∨ (∃ m, raw = VObj m ∧ JSON_parse text = Some raw ∧
               m !! "quickReplySlots" = Some list ∧
               isArray (fld m "qrList") = false)
       ∨ (raw = VObj {["qrList" := list]} ∧ JSON_parse text = Some list))
  | inl Qr.QrNotJson => JSON_parse text = None
  | inl Qr.QrNoList =>
      ∃ data, JSON_parse text = Some data ∧ isArray data = false ∧
              isArray (get_opt data "qrList") = false ∧
              isArray (get_opt data "quickReplySlots") = false
  end.
Proof.
  destruct (parseQrFile text) as [[]|[list raw]] eqn:E.
  - unfold Qr.parseQrFile in E. destruct (JSON_parse text) as [data|]; [|done].
    exfalso.
    destruct (truthy data && isArray (get_opt data "qrList")); [done|].
    destruct (truthy data && isArray (get_opt data "quickReplySlots")); [done|].
    by destruct (isArray data).
  - unfold Qr.parseQrFile in E. destruct (JSON_parse text) as [data|]; [|done].
    exists data. split; [done|].
    destruct (truthy data) eqn:Ht; cbn [andb] in E.
    + destruct (isArray (get_opt data "qrList")); [done|].
      destruct (isArray (get_opt data "quickReplySlots")); [done|].
      by destruct (isArray data).
    + destruct (isArray data) eqn:Ha; [done|].
      rewrite !(get_opt_falsy data) by done. done.
  - by apply parseQrFile_inv.
Qed.

(** X16: A quick-reply file that is imported and exported again by
    [exportQrData] keeps its content: the export holds the imported list
    under [qrList], every other property of the file with its value, and
    the scaffold's defaults exactly for the scaffold keys the file does not
    have. *)
Theorem qr_file_survives_reexport text list raw :
  parseQrFile text = inr (list, raw) →
  exportQrData list raw !! "qrList" = Some list ∧
  (∀ k v, k ≠ "qrList" → spread raw !! k = Some v →
          exportQrData list raw !! k = Some v) ∧
  (∀ k, k ≠ "qrList" → spread raw !! k = None →
        exportQrData list raw !! k = qr_scaffold !! k) ∧
  (∀ m, raw = VObj m → m !! "qrList" = Some list →
        exportQrData list raw = m ∪ qr_scaffold).
Proof.
  intros H. apply parseQrFile_inv in H as [_ Hraw].
  assert (Hobj : ∃ m, raw = VObj m).
  { destruct Hraw as [(m & -> & _)|[(m & -> & _)|[-> _]]]; eauto. }
  destruct Hobj as [m ->]. unfold exportQrData. cbn [spread].
  split; [apply lookup_insert_eq|]. split; [|split].
  - intros k v Hk Hv. rewrite lookup_insert_ne by done.
    by apply lookup_union_Some_l.
  - intros k Hk Hn. rewrite lookup_insert_ne by done.
    by rewrite lookup_union_r.
  - intros m' [= <-] Hm. apply insert_id.
    by apply lookup_union_Some_l.
Qed.

(** X17: Right after a quick-reply file is bound to a record, the object
    an archive export writes holds the bound list under [qrList], unless
    the file itself has a [qrList] property that is not an array, which
    then takes the list's place. *)
Theorem archive_list_right_after_binding text list raw c z :
  parseQrFile text = inr (list, raw) →
  qrList c = list → extra_qr_data c = raw →
  zipQrData c = Some z →
  z !! "qrList" = Some list ∨
  ∃ m v, raw = VObj m ∧ m !! "qrList" = Some v ∧ isArray v = false ∧
         z !! "qrList" = Some v.
Proof.
  intros H Hl Hr Hz. apply parseQrFile_inv in H as [_ Hraw].
  unfold zipQrData in Hz. destruct (to_string (name c)) as [nm|]; [|done].
  cbn in Hz. injection Hz as <-. rewrite Hr, Hl.
  destruct Hraw as [(m & -> & _ & Hm)|[(m & -> & _ & Hm & Hq)|[-> _]]].
  - left. rewrite or_else_truthy by done. cbn [spread].
    by apply lookup_union_Some_l.
  - rewrite or_else_truthy by done. cbn [spread].
    destruct (m !! "qrList") as [v|] eqn:Hv.
    + right. exists m, v. repeat split; try done.
      * unfold fld in Hq. by rewrite Hv in Hq.
      * by apply lookup_union_Some_l.
    + left. rewrite lookup_union_r by done. reflexivity.
  - left. rewrite or_else_truthy by done. cbn [spread].
    apply lookup_union_Some_l. apply lookup_singleton_eq.
Qed.

End qr_files.

Section tx4_closed.

Import JS Card.

(** The sample quick-reply file, imported and exported again, and bound
    to a record that is then archived. *)
Lemma qr_file_survives_reexport_witness :
  exportQrData (VArr [Sample.qr_item "New"]) (VObj Sample.qr_file)
  = Sample.qr_file ∪ qr_scaffold.
Proof.
  destruct (qr_file_survives_reexport Sample.JSON_parse_qr Sample.qr_json
              (VArr [Sample.qr_item "New"]) (VObj Sample.qr_file))
    as (_ & _ & _ & H).
  - by vm_compute.
  - apply H; [done | by vm_compute].
Defined.

Lemma archive_list_right_after_binding_witness :
  Sample.bound_archive !! "qrList" = Some (VArr [Sample.qr_item "New"]) ∨
  ∃ m v, VObj Sample.qr_file = VObj m ∧ m !! "qrList" = Some v ∧
         isArray v = false ∧ Sample.bound_archive !! "qrList" = Some v.
Proof.
  apply (archive_list_right_after_binding Sample.JSON_parse_qr Sample.qr_json
           (VArr [Sample.qr_item "New"]) (VObj Sample.qr_file)
           Sample.bound_qr Sample.bound_archive); by vm_compute.
Defined.

End tx4_closed.

Section file_names.
Import JS Card Png Archive.

Lemma append_cons a s t : String a s +:+ t = String a (s +:+ t).
Proof. reflexivity. Qed.

Lemma append_nil_l t : "" +:+ t = t.
Proof. reflexivity. Qed.

Lemma all_ext_app_dot s t : all_ext (s +:+ "." +:+ t) = false.
Proof.
  induction s as [|a s IH].
  - reflexivity.
  - rewrite append_cons. cbn [all_ext]. rewrite IH. apply andb_false_r.
Qed.

Lemma strip_ext_append s ext :
  ext ≠ "" → all_ext ext = true → strip_ext (s +:+ "." +:+ ext) = s.
Proof.
  intros Hne Hext. induction s as [|a s IH].
  - rewrite append_nil_l, append_cons, append_nil_l. cbn [strip_ext].
    rewrite Hext. destruct (String.eqb_spec ext ""); [done|]. reflexivity.
  - rewrite append_cons. cbn [strip_ext]. rewrite all_ext_app_dot, IH.
    by rewrite andb_false_r.
Qed.

Lemma prefix_cons a s t :
  String.prefix (String a s) (String a t) = String.prefix s t.
Proof. simpl. by destruct (ascii_dec a a). Qed.

Lemma prefix_nil s : String.prefix "" s = true.
Proof. by destruct s. Qed.

(** X18: The extension stripping of the export file names
    ([replace(/\.[^/.]+$/, "")]): a name followed by a dot and a non-empty
    extension without dot or slash gives back the name; the result is
    always a prefix of the input; and the input is either returned as it
    is or is the result followed by a dot and such an extension. *)
Theorem strip_ext_removes_one_extension :
  (∀ s ext, ext ≠ "" → all_ext ext = true →
            strip_ext (s +:+ "." +:+ ext) = s) ∧
  (∀ s, String.prefix (strip_ext s) s = true) ∧
  (∀ s, strip_ext s = s ∨
        ∃ ext, ext ≠ "" ∧ all_ext ext = true ∧
               s = strip_ext s +:+ "." +:+ ext).
Proof.
  split; [apply strip_ext_append|]. split.
  - induction s as [|a s IH]; [done|]. cbn [strip_ext].
    destruct (_ && _); [apply prefix_nil|]. by rewrite prefix_cons.
  - induction s as [|a s IH]; [by left|]. cbn [strip_ext].
    destruct (Ascii.eqb a "." && negb (String.eqb s "") && all_ext s) eqn:E.
    + right. apply andb_true_iff in E as [E E3].
      apply andb_true_iff in E as [E1 E2].
      apply Ascii.eqb_eq in E1 as ->. exists s. split.
      * intros ->. done.
      * split; [done|]. reflexivity.
    + destruct IH as [->|(ext & Hne & Hext & Hs)]; [by left|].
      right. exists ext. split; [done|]. split; [done|].
      rewrite append_cons. by f_equal.
Qed.

Variable safe_name : string → string.
Variable payload : Envelope → list byte.

#[local] Abbreviation base_name := (base_name safe_name).
#[local] Abbreviation bulk_base := (bulk_base safe_name).
#[local] Abbreviation card_file := (card_file payload).
#[local] Abbreviation zip_card_file := (zip_card_file safe_name payload).
#[local] Abbreviation bulk_card_file := (bulk_card_file safe_name payload).

Lemma bulk_base_base_name c : bulk_base c = base_name c.
Proof.
  unfold Archive.bulk_base, Archive.bulk_filename, Archive.base_name.
  destruct (negb _); [done|]. destruct (name c); try done. cbn. f_equal.
  apply strip_ext_append; by destruct (importFormat c).
Qed.

Lemma card_file_inv rendered c base png n d :
  card_file rendered c base png = Some (n, d) →
  (∃ buf out, png = true ∧ rendered = Some buf ∧
              createTavernPng payload buf c = inr out ∧
              d = PngData out ∧ n = base +:+ ".png")
  ∨ (∃ e, buildExportData c = Some e ∧ d = JsonData e ∧ n = base +:+ ".json").
Proof.
  unfold Archive.card_file.
  assert (Hjson : (buildExportData c ≫= λ e, Some (base +:+ ".json", JsonData e))
                  = Some (n, d) →
                  ∃ e, buildExportData c = Some e ∧ d = JsonData e
                       ∧ n = base +:+ ".json").
  { destruct (buildExportData c) as [e|]; [|done]. cbn. intros [= <- <-]. eauto. }
  destruct png; [|by right; apply Hjson].
  destruct rendered as [buf|]; [|by right; apply Hjson].
  destruct (createTavernPng payload buf c) as [err|out] eqn:Hpng;
    [by right; apply Hjson|].
  intros [= <- <-]. left. exists buf, out. done.
Qed.

(** X19: The two archive exports name a record's files alike: the base
    name [exportBulkCharacters] derives from the file name (or, without
    one, from the sanitised name and the format's extension) is the base
    name of [exportCharacterData], and the bulk export writes the same
    card file as the single archive export in the record's import
    format. *)
Theorem bulk_and_single_export_agree rendered c :
  bulk_base c = base_name c ∧
  bulk_card_file rendered c = zip_card_file rendered c (importFormat c).
Proof.
  split; [apply bulk_base_base_name|].
  unfold Archive.bulk_card_file, Archive.zip_card_file.
  fold (bulk_base c). rewrite bulk_base_base_name.
  by destruct (importFormat c).
Qed.

(** X20: The card file of an archive: it is missing exactly when
    [buildExportData] throws (a failure of the PNG encoder falls back to
    JSON); the name always ends with the extension of the content, png for
    the encoder's output and json for the envelope; and stripping the
    extension from the name gives back the base name. *)
Theorem archive_card_file_matches_its_name rendered c base png :
  (card_file rendered c base png = None ↔ buildExportData c = None) ∧
  ∀ n d, card_file rendered c base png = Some (n, d) →
    strip_ext n = base ∧
    ((∃ buf out, png = true ∧ rendered = Some buf ∧
                 createTavernPng payload buf c = inr out ∧
                 d = PngData out ∧ n = base +:+ ".png")
     ∨ (∃ e, buildExportData c = Some e ∧ d = JsonData e ∧
             n = base +:+ ".json")).
Proof.
  split.
  - unfold Archive.card_file, createTavernPng.
    destruct (buildExportData c) as [e|] eqn:He; cbn.
    + split; [|done]. destruct png; [|done]. destruct rendered; [|done].
      by destruct (tavern_chunk _); [destruct (splice _ _)|].
    + split; [done|]. intros _. destruct png; [|done]. by destruct rendered.
  - intros n d H. pose proof (card_file_inv _ _ _ _ _ _ H) as Hc.
    split; [|done].
    destruct Hc as [(buf & out & _ & _ & _ & _ & ->)|(e & _ & _ & ->)];
      by apply strip_ext_append.
Qed.

(** X21: File names are stable through an export and a later import: a
    record imported from the card file an archive export wrote has the
    base name of the exported record. *)
Theorem exported_name_is_stable rendered c fmt n d c' :
  zip_card_file rendered c fmt = Some (n, d) →
  originalFilename c' = n →
  base_name c' = base_name c.
Proof.
  unfold Archive.zip_card_file. intros H Hn.
  destruct (Archive.base_name safe_name c) as [base|] eqn:Hb; [|done].
  cbn in H. apply card_file_inv in H.
  unfold Archive.base_name at 1. rewrite Hn.
  destruct H as [(buf & out & _ & _ & _ & _ & ->)|(e & _ & _ & ->)].
  - destruct (String.eqb_spec (base +:+ ".png") "") as [E|_].
    { by destruct base. }
    cbn [negb]. f_equal. by apply strip_ext_append.
  - destruct (String.eqb_spec (base +:+ ".json") "") as [E|_].
    { by destruct base. }
    cbn [negb]. f_equal. by apply strip_ext_append.
Qed.

End file_names.

Section tx5_closed.

Import JS Card Png Archive.

(** The record with the cleared greeting, archived as JSON because no
    avatar could be rendered, and the record imported from that file. *)
Lemma exported_name_is_stable_witness :
  Archive.base_name (λ s, s) Sample.reimported
  = Archive.base_name (λ s, s) Sample.cleared_greeting.
Proof.
  apply (exported_name_is_stable (λ s, s) Sample.payload None
           Sample.cleared_greeting FmtPng "a.json"
           (JsonData Sample.cleared_export) Sample.reimported).
  - by vm_compute.
  - reflexivity.
Defined.

End tx5_closed.

Section editor_facts.
Import JS Card Editor.

Lemma rev_app_rev_app s : ∀ acc t,
  String.rev_app (String.rev_app s acc) t = String.rev_app acc (s +:+ t).
Proof.
  induction s as [|a s IH]; intros acc t; [done|].
  cbn [String.rev_app]. rewrite IH. by rewrite append_cons.
Qed.

Lemma append_nil_r s : s +:+ "" = s.
Proof. induction s as [|a s IH]; [done|]. by rewrite append_cons, IH. Qed.

Lemma append_assoc s t u : (s +:+ t) +:+ u = s +:+ t +:+ u.
Proof. induction s as [|a s IH]; [done|]. by rewrite !append_cons, IH. Qed.

Lemma rev_app_append acc : ∀ s, String.rev_app acc s = String.rev_app acc "" +:+ s.
Proof.
  induction acc as [|a acc IH]; intros s; [done|].
  cbn [String.rev_app]. rewrite (IH (String a s)), (IH (String a "")).
  by rewrite append_assoc.
Qed.

Lemma rev_rev_app s acc : String.rev (String.rev_app s acc) = String.rev acc +:+ s.
Proof.
  unfold String.rev. rewrite rev_app_rev_app, append_nil_r.
  apply rev_app_append.
Qed.

Lemma comma_free_cons a s :
  comma_free (String a s) ↔ a ≠ ","%char ∧ comma_free s.
Proof.
  unfold comma_free. cbn [String.list_ascii_of_string].
  rewrite not_elem_of_cons. split; intros [H1 H2]; (split; [congruence|done]).
Qed.

Lemma split_comma_aux_free s : ∀ cur t,
  comma_free s →
  split_comma_aux cur (s +:+ t) = split_comma_aux (String.rev_app s cur) t.
Proof.
  induction s as [|a s IH]; intros cur t Hs; [done|].
  apply comma_free_cons in Hs as [Ha Hs].
  rewrite append_cons. cbn [split_comma_aux String.rev_app].
  destruct (Ascii.eqb_spec a ","); [done|]. by apply IH.
Qed.

(** A piece without comma is split off whole. *)
Lemma split_comma_piece s t :
  comma_free s →
  split_comma (s +:+ "," +:+ t) = s :: split_comma t.
Proof.
  intros Hs. unfold split_comma. rewrite split_comma_aux_free by done.
  rewrite append_cons, append_nil_l. cbn [split_comma_aux].
  change (Ascii.eqb "," ",") with true. cbv iota.
  by rewrite rev_rev_app.
Qed.

Lemma split_comma_last s : comma_free s → split_comma s = [s].
Proof.
  intros Hs. unfold split_comma.
  rewrite <- (append_nil_r s) at 1. rewrite split_comma_aux_free by done.
  cbn [split_comma_aux]. by rewrite rev_rev_app.
Qed.

Lemma comma_free_space s : comma_free s → comma_free (" " +:+ s).
Proof. intros Hs. rewrite append_cons, append_nil_l. by apply comma_free_cons. Qed.

Lemma trim_space s : trim (" " +:+ s) = trim s.
Proof. reflexivity. Qed.

(** The items of a joined list, up to the space after each comma. *)
Lemma split_comma_join l : ∀ p,
  comma_free p → Forall comma_free l →
  split_comma (p +:+ join_with ", " l)
  = match l with
    | [] => [p]
    | x :: l' => (p +:+ x) :: ((fun y => " " +:+ y) <$> l')
    end.
Proof.
  induction l as [|x l IH]; intros p Hp Hl.
  - cbn [join_with]. rewrite append_nil_r. by apply split_comma_last.
  - apply Forall_cons in Hl as [Hx Hl].
    assert (Hpx : comma_free (p +:+ x)).
    { unfold comma_free in *. clear -Hp Hx.
      induction p as [|a p IHp]; [done|].
      rewrite append_cons. cbn [String.list_ascii_of_string] in *.
      apply not_elem_of_cons in Hp as [Ha Hp].
      apply not_elem_of_cons. split; [done|]. by apply IHp. }
    destruct l as [|y l].
    + cbn [join_with fmap list_fmap]. by apply split_comma_last.
    + change (join_with ", " (x :: y :: l))
        with (x +:+ ", " +:+ join_with ", " (y :: l)).
      assert (p +:+ x +:+ ", " +:+ join_with ", " (y :: l)
              = (p +:+ x) +:+ "," +:+ (" " +:+ join_with ", " (y :: l))) as ->.
      { clear. induction p as [|a p IHp].
        - rewrite !append_nil_l.
          induction x as [|b x IHx]; [done|]. rewrite !append_cons. by f_equal.
        - rewrite !append_cons. by f_equal. }
      rewrite split_comma_piece by done. f_equal.
      rewrite (IH " "%string); [done| |done].
      unfold comma_free. cbn. rewrite not_elem_of_cons. split; [done|].
      apply not_elem_of_nil.
Qed.

Lemma trim_clean s : clean_tag s → trim s = s.
Proof. by intros [? _]. Qed.

Lemma keys_of_joined l :
  Forall clean_tag l → Forall comma_free l →
  keys_of_input (VStr (join_with ", " l)) = Some (VArr (VStr <$> l)).
Proof.
  intros Hc Hf. unfold keys_of_input.
  assert (or_else (VStr (join_with ", " l)) (VStr "")
          = VStr (join_with ", " l)) as ->.
  { unfold or_else. cbn [truthy].
    destruct (String.eqb_spec (join_with ", " l) "") as [->|]; done. }
  do 3 f_equal.
  rewrite <- (append_nil_l (join_with ", " l)).
  rewrite split_comma_join; [|by (unfold comma_free; cbn; apply not_elem_of_nil)|done].
  destruct l as [|x l]; [done|].
  apply Forall_cons in Hc as [Hx Hc].
  rewrite append_nil_l. cbn [fmap list_fmap].
  rewrite (trim_clean x Hx).
  rewrite filter_cons_True by apply Hx. f_equal.
  clear Hf Hx. induction Hc as [|y l Hy _ IH]; [done|].
  cbn [fmap list_fmap]. rewrite trim_space, (trim_clean y Hy).
  rewrite filter_cons_True by apply Hy. by f_equal.
Qed.

Lemma join_strings sep l : join sep (VStr <$> l) = Some (join_with sep l).
Proof.
  unfold join.
  assert (mapM join_elem (VStr <$> l) = Some l) as ->; [|done].
  apply mapM_Some. induction l; by constructor.
Qed.

(** X22: The [keysInput] text an import derives from an entry's keys is
    read back by the editor as the same keys, provided every key is a
    trimmed, non-empty string without a comma: a lorebook entry that is
    opened and confirmed unchanged keeps its key list. *)
Theorem keysInput_round_trip e l :
  get e "keys" = Some (VArr (VStr <$> l)) →
  Forall clean_tag l → Forall comma_free l →
  ∃ e', add_keysInput e = Some e' ∧
        fld (spread e') "keysInput" = VStr (join_with ", " l) ∧
        keys_of_input (fld (spread e') "keysInput") = Some (VArr (VStr <$> l)) ∧
        ∀ patch, patch !! "keysInput" = Some (fld (spread e') "keysInput") →
          ∃ m, patched e' patch = Some (VObj m) ∧
               m !! "keys" = Some (VArr (VStr <$> l)).
Proof.
  intros Hk Hc Hf. unfold add_keysInput. rewrite Hk. cbn [mbind option_bind].
  rewrite join_strings. cbn [mbind option_bind].
  eexists. split; [done|]. cbn [spread]. unfold fld.
  rewrite lookup_insert_eq. cbn [default from_option Datatypes.id].
  split; [done|]. split; [by apply keys_of_joined|].
  intros patch Hp. unfold patched.
  destruct (decide (is_Some (patch !! "keysInput"))) as [_|Hn].
  2:{ destruct Hn. eauto. }
  unfold fld. rewrite Hp. cbn [default from_option Datatypes.id].
  rewrite keys_of_joined by done. cbn [mbind option_bind].
  eexists. split; [done|]. apply lookup_insert_eq.
Qed.

(** X23: Whatever text the editor receives as [keysInput], the keys it
    stores are trimmed, non-empty strings; a falsy input stores the empty
    array, a string stores the trimmed non-empty pieces between its
    commas, and only a truthy value that is not a string makes the update
    throw. *)
Theorem edited_keys_are_clean ki :
  match keys_of_input ki with
  | Some ks => ∃ l, ks = VArr (VStr <$> l) ∧ Forall clean_tag l
  | None => truthy ki = true ∧ isString ki = false
  end ∧
  (truthy ki = false → keys_of_input ki = Some (VArr [])) ∧
  (∀ s, ki = VStr s →
        keys_of_input ki
        = Some (VArr (VStr <$> filter nonempty (trim <$> split_comma s)))).
Proof.
  split; [|split].
  - unfold keys_of_input, or_else.
    destruct (truthy ki) eqn:Ht.
    + destruct ki; try done.
      eexists. split; [done|]. apply filter_trimmed_clean.
      apply Forall_fmap, Forall_true. intros x. apply trim_idem.
    + by exists [].
  - intros Ht. unfold keys_of_input, or_else. by rewrite Ht.
  - intros s ->. unfold keys_of_input, or_else.
    destruct (truthy (VStr s)) eqn:Ht; [done|].
    destruct s; [done|]. done.
Qed.

Lemma includes_tag_strings l val :
  includes_tag (VStr <$> l) val = bool_decide (val ∈ l).
Proof.
  unfold includes_tag. induction l as [|x l IH]; [done|].
  cbn [fmap list_fmap existsb str_eq]. rewrite IH.
  destruct (String.eqb_spec x val) as [->|Hne].
  - cbn. symmetry. apply bool_decide_eq_true. apply elem_of_cons. by left.
  - cbn. apply bool_decide_ext. rewrite elem_of_cons.
    split; [by right|]. by intros [E|?]; [symmetry in E|].
Qed.

Lemma filter_strings (P : string → Prop) `{∀ x, Decision (P x)}
    (Q : value → Prop) `{∀ x, Decision (Q x)} (l : list string) :
  (∀ s, Q (VStr s) ↔ P s) →
  filter Q (VStr <$> l) = VStr <$> filter P l.
Proof.
  intros HPQ. induction l as [|x l IH]; [done|]. cbn [fmap list_fmap].
  destruct (decide (P x)) as [Hx|Hx].
  - rewrite !filter_cons_True by (done || by apply HPQ).
    cbn [fmap list_fmap]. by f_equal.
  - rewrite !filter_cons_False by (done || by rewrite HPQ). done.
Qed.

(** X24: The tag handlers of the form keep a tag list in the shape an
    import gives it and free of duplicates: from an array of distinct,
    trimmed, non-empty strings, [handleAddTag] and [removeTag] again
    produce such an array; [handleAddTag] only ever appends the trimmed
    input, and leaves the list as it is when the trimmed input is empty or
    already present; [removeTag] leaves no occurrence of the removed tag;
    and the result is a fixed point of the import's tag conversion, so it
    survives an export and a later import unchanged. *)
Theorem tag_handlers_keep_clean_distinct_tags l input tag :
  Forall clean_tag l → NoDup l →
  (∃ l', handleAddTag (VArr (VStr <$> l)) input = VArr (VStr <$> l') ∧
         Forall clean_tag l' ∧ NoDup l' ∧
         (l' = l ∨
          (l' = l ++ [trim input] ∧ (trim input ∉ l) ∧ trim input ≠ "")) ∧
         tags_of (VArr (VStr <$> l')) = Some (VArr (VStr <$> l'))) ∧
  (∃ l', removeTag (VArr (VStr <$> l)) tag = VArr (VStr <$> l') ∧
         Forall clean_tag l' ∧ NoDup l' ∧ (tag ∉ l') ∧ l' ⊆ l ∧
         tags_of (VArr (VStr <$> l')) = Some (VArr (VStr <$> l'))).
Proof.
  intros Hc Hd. split.
  - unfold handleAddTag. cbn [tag_list]. rewrite includes_tag_strings.
    destruct (String.eqb_spec (trim input) "") as [He|He]; cbn [negb andb].
    { exists l. repeat split; try done; [by left | by apply tags_of_clean]. }
    destruct (bool_decide_reflect (trim input ∈ l)) as [Hin|Hin]; cbn [negb].
    { exists l. repeat split; try done; [by left | by apply tags_of_clean]. }
    exists (l ++ [trim input]).
    assert (Hc' : Forall clean_tag (l ++ [trim input])).
    { apply Forall_app. split; [done|]. constructor; [|done].
      split; [apply trim_idem|done]. }
    rewrite fmap_app. repeat split; try done.
    + apply NoDup_app. repeat split; [done| |apply NoDup_singleton].
      intros x Hx Hx'. apply list_elem_of_singleton in Hx' as ->. done.
    + by right.
    + rewrite <- fmap_app. by apply tags_of_clean.
  - unfold removeTag. cbn [tag_list].
    exists (filter (λ s, s ≠ tag) l).
    assert (Hc' : Forall clean_tag (filter (λ s, s ≠ tag) l)).
    { apply Forall_forall. intros x Hx. apply list_elem_of_filter in Hx as [_ Hx].
      by eapply Forall_forall in Hc. }
    split.
    { f_equal. apply filter_strings. intros s. cbn [str_eq].
      destruct (String.eqb_spec s tag); naive_solver. }
    repeat split; try done.
    + by apply NoDup_filter.
    + intros Hin. by apply list_elem_of_filter in Hin as [? _].
    + intros x Hx. by apply list_elem_of_filter in Hx as [_ ?].
    + by apply tags_of_clean.
Qed.

(** X25: Removing a tag that [handleAddTag] has just added gives back the
    tags as they were. *)
Theorem removeTag_undoes_handleAddTag l input :
  trim input ≠ "" → trim input ∉ l →
  removeTag (handleAddTag (VArr (VStr <$> l)) input) (trim input)
  = VArr (VStr <$> l).
Proof.
  intros He Hin. unfold handleAddTag. cbn [tag_list].
  rewrite includes_tag_strings.
  destruct (String.eqb_spec (trim input) ""); [done|].
  rewrite bool_decide_eq_false_2 by done. cbn [negb andb].
  unfold removeTag. cbn [tag_list]. f_equal.
  change [VStr (trim input)] with (VStr <$> [trim input]). rewrite <- fmap_app.
  rewrite (filter_strings (λ s, s ≠ trim input)).
  2:{ intros s. cbn [str_eq]. destruct (String.eqb_spec s (trim input)); naive_solver. }
  f_equal. rewrite filter_app, filter_cons_False, filter_nil, app_nil_r by naive_solver.
  clear He. induction l as [|x l IH]; [done|].
  apply not_elem_of_cons in Hin as [Hx Hin].
  rewrite filter_cons_True by done. f_equal. by apply IH.
Qed.

(** X26: [setAsMain] swaps the main greeting with the chosen alternate
    greeting: for a string main greeting and an index that holds a string,
    the chosen greeting becomes the main one, the old main greeting takes
    its place, the number of alternate greetings is unchanged, and
    choosing the same index again restores both. *)
Theorem setAsMain_swaps_and_restores m l idx s :
  l !! idx = Some (VStr s) →
  setAsMain (VStr m) (VArr l) idx
    = Some (VStr s, VArr (<[idx := VStr m]> l)) ∧
  length (<[idx := VStr m]> l) = length l ∧
  setAsMain (VStr s) (VArr (<[idx := VStr m]> l)) idx
    = Some (VStr m, VArr l).
Proof.
  intros Hl. pose proof (lookup_lt_Some _ _ _ Hl) as Hlt.
  assert (Hor : ∀ x, or_else (VStr x) (VStr "") = VStr x).
  { intros x. unfold or_else. cbn. by destruct (String.eqb_spec x "") as [->|]. }
  unfold setAsMain, greetings, assign_at.
  change (or_else (VArr l) (VArr [])) with (VArr l).
  change (or_else (VArr (<[idx:=VStr m]> l)) (VArr []))
    with (VArr (<[idx:=VStr m]> l)).
  cbn [mbind option_bind]. rewrite !Hor, Hl.
  rewrite length_insert, list_lookup_insert_eq by done.
  destruct (decide (idx < length l)); [|lia].
  cbn [default from_option Datatypes.id]. split; [done|]. split; [done|].
  rewrite list_insert_insert_eq. by rewrite list_insert_id.
Qed.

(** X27: Saving an imported card without editing it changes nothing:
    when the form is opened with a record an import returned (with a
    non-empty identifier and a non-zero import date) and left as it is,
    [getFullCharacter] gives back that record in every field an import
    fills; and whatever the form holds, the record [getFullCharacter]
    builds has a truthy name and the form's lorebook. *)
Theorem saving_an_unedited_import_changes_nothing
    root fileName avatar ident fmt now c uuid later :
  buildCharacter root fileName avatar ident fmt now = Some c →
  ident ≠ "" → now ≠ 0%Z →
  getFullCharacter (Some c) c uuid later = c ∧
  ∀ initialData formData,
    truthy (name (getFullCharacter initialData formData uuid later)) = true ∧
    character_book (getFullCharacter initialData formData uuid later)
    = character_book formData.
Proof.
  intros H Hid Hnow. split; [|by intros; split; [apply or_else_default_truthy|]].
  pose proof (buildCharacter_defaults _ _ _ _ _ _ _ H)
    as (Hf & Hag & Hqr & Hext).
  pose proof (buildCharacter_tags_array _ _ _ _ _ _ _ H) as (Hn & l & Ht).
  rewrite !Forall_cons in Hf.
  destruct Hf as (H1 & H2 & H3 & H4 & H5 & H6 & H7 & H8 & H9 & H10 & H11 & _).
  assert (Hi : id c = ident ∧ importDate c = now).
  { apply buildCharacter_inv in H as (d & tg & bk & _ & _ & _ & _ & ->). done. }
  destruct Hi as [Hi Hd].
  unfold getFullCharacter.
  rewrite (or_else_absorb _ _ H1), (or_else_absorb _ _ H2),
    (or_else_absorb _ _ H3), (or_else_absorb _ _ H4), (or_else_absorb _ _ H5),
    (or_else_absorb _ _ H6), (or_else_absorb _ _ H7), (or_else_absorb _ _ H8),
    (or_else_absorb _ _ H9), (or_else_absorb _ _ H10), (or_else_absorb _ _ H11).
  rewrite (or_else_truthy (name c)), (or_else_truthy (alternate_greetings c)),
    (or_else_truthy (qrList c)), (or_else_truthy (extensions c)) by done.
  rewrite (or_else_truthy (tags c)) by (by rewrite Ht).
  rewrite or_else_same.
  rewrite Hi, Hd.
  destruct (String.eqb_spec ident "") as [|_]; [done|].
  destruct (Z.eqb_spec now 0) as [|_]; [done|].
  rewrite <- Hi, <- Hd. by destruct c.
Qed.

End editor_facts.

Section tx6_closed.

Import JS Card Editor.

(** The lorebook entry of the sample card, and a small tag list. *)
Lemma keysInput_round_trip_witness :
  ∃ e', add_keysInput Sample.lore_entry = Some e' ∧
        fld (spread e') "keysInput" = VStr "k1, k2" ∧
        keys_of_input (fld (spread e') "keysInput")
        = Some (VArr [VStr "k1"; VStr "k2"]).
Proof.
  destruct (keysInput_round_trip Sample.lore_entry ["k1"; "k2"]%string)
    as (e' & H1 & H2 & H3 & _).
  - reflexivity.
  - repeat constructor; done.
  - repeat constructor; unfold comma_free;
      apply (bool_decide_unpack _); by vm_compute.
  - exists e'. split; [done|]. split; [done|]. done.
Defined.

Lemma tag_handlers_keep_clean_distinct_tags_witness :
  ∃ l', handleAddTag (VArr [VStr "a"]) " b " = VArr (VStr <$> l') ∧
        Forall clean_tag l' ∧ NoDup l'.
Proof.
  destruct (tag_handlers_keep_clean_distinct_tags ["a"%string] " b " "a")
    as [(l' & H1 & H2 & H3 & _) _].
  - repeat constructor; done.
  - apply (bool_decide_unpack _). by vm_compute.
  - exists l'. done.
Defined.

Lemma removeTag_undoes_handleAddTag_witness :
  removeTag (handleAddTag (VArr [VStr "a"]) " b ") "b" = VArr [VStr "a"].
Proof.
  apply (removeTag_undoes_handleAddTag ["a"%string] " b ").
  - done.
  - apply (bool_decide_unpack _). by vm_compute.
Defined.

Lemma setAsMain_swaps_and_restores_witness :
  setAsMain (VStr "main") (VArr [VStr "x"; VStr "y"]) 1
  = Some (VStr "y", VArr [VStr "x"; VStr "main"]).
Proof.
  destruct (setAsMain_swaps_and_restores "main" [VStr "x"; VStr "y"] 1 "y")
    as [H _]; [reflexivity|]. exact H.
Defined.

Lemma saving_an_unedited_import_changes_nothing_witness :
  getFullCharacter (Some Sample.imported_later) Sample.imported_later "2" 5
  = Sample.imported_later.
Proof.
  destruct (saving_an_unedited_import_changes_nothing (VObj Sample.cleared_raw)
              "a.json" "a.png" "1" FmtJson 1 Sample.imported_later "2" 5)
    as [H _].
  - by vm_compute.
  - done.
  - done.
  - exact H.
Defined.

End tx6_closed.

Section heap_sharing.
Import JS Heap.

#[local] Open Scope nat_scope.

Variable to_string_h : list hobj → hval → option string.

Lemma lookup_snoc {A} (h : list A) o : (h ++ [o]) !! length h = Some o.
Proof. by rewrite lookup_app_r, Nat.sub_diag by lia. Qed.

(** The array [tags] ends up with is the last one allocated, and holds
    strings. *)
Lemma tags_of_h_fresh t h v h1 :
  tags_of_h to_string_h t h = Some (v, h1) →
  ∃ l es, v = HRef l ∧ length h ≤ l ∧ h1 !! l = Some (HArray (HStr <$> es)).
Proof.
  unfold tags_of_h. intros H.
  apply bind_inv in H as (e & h0 & (-> & ->)%alloc_inv & H).
  assert (Hdef : ∀ v h1, mret (M := M) (HRef (length h)) (h ++ [HArray []])
                         = Some (v, h1) →
                 ∃ l es, v = HRef l ∧ length h ≤ l
                         ∧ h1 !! l = Some (HArray (HStr <$> es))).
  { intros ?? [= <- <-]. exists (length h), []. split; [done|]. split; [lia|].
    apply lookup_snoc. }
  destruct t as [| | | |s|r|]; try by apply Hdef.
  - apply bind_inv in H as (? & h2 & (-> & ->)%alloc_inv & H).
    apply bind_inv in H as (? & h3 & (-> & ->)%alloc_inv & H).
    apply alloc_inv in H as [-> ->].
    eexists _, _. split; [done|]. split; [rewrite !length_app; lia|].
    apply lookup_snoc.
  - apply bind_inv in H as (es & h2 & (Hes & ->)%read_inv & H).
    destruct es as [ts|]; [|by apply Hdef].
    apply bind_inv in H as (ss & h3 & (_ & ->)%read_inv & H).
    apply bind_inv in H as (? & h4 & (-> & ->)%alloc_inv & H).
    apply alloc_inv in H as [-> ->].
    eexists _, _. split; [done|]. split; [rewrite !length_app; lia|].
    apply lookup_snoc.
Qed.

Lemma or_alloc_inv a o h v h1 :
  or_alloc a o h = Some (v, h1) →
  if h_truthy a then v = a ∧ h1 = h
  else v = HRef (length h) ∧ h1 = h ++ [o].
Proof.
  unfold or_alloc. destruct (h_truthy a).
  - by intros [= <- <-].
  - by intros [-> ->]%alloc_inv.
Qed.

(** A value that is either the source's own or newly allocated as the
    given empty object. *)
Lemma or_alloc_shared_or_new a o (h0 h : list hobj) v h1 h' :
  length h0 ≤ length h → h1 `prefix_of` h' →
  or_alloc a o h = Some (v, h1) →
  if h_truthy a then v = a
  else ∃ l, v = HRef l ∧ length h0 ≤ l ∧ h' !! l = Some o.
Proof.
  intros Hlen Hp H. apply or_alloc_inv in H.
  destruct (h_truthy a); [by destruct H|]. destruct H as [-> ->].
  exists (length h). split; [done|]. split; [done|].
  eapply prefix_lookup_Some; [apply lookup_snoc|done].
Qed.

(** X28: What the imported record shares with the retained source:
    [tags] is always a newly allocated array of strings; [qrList] and
    [extensions] are the source's own objects when the source holds a
    truthy value there, and [alternate_greetings] is the source's own
    [alternate_greetings] or else its [alternate_greeting]; only where the
    source holds nothing is a new empty array or object allocated. *)
Theorem imported_fields_shared_or_new root fn av i f t h c h' :
  closed h → valid h root →
  buildCharacter_h to_string_h root fn av i f t h = Some (c, h') →
  (∃ l es, tags c = HRef l ∧ length h ≤ l ∧
           h' !! l = Some (HArray (HStr <$> es))) ∧
  (let src := h_or (h_get_opt h (rawData c) "alternate_greetings")
                   (h_get_opt h (rawData c) "alternate_greeting") in
   if h_truthy src then alternate_greetings c = src
   else ∃ l, alternate_greetings c = HRef l ∧ length h ≤ l ∧
             h' !! l = Some (HArray [])) ∧
  (let src := h_get_opt h (rawData c) "qrList" in
   if h_truthy src then qrList c = src
   else ∃ l, qrList c = HRef l ∧ length h ≤ l ∧ h' !! l = Some (HArray [])) ∧
  (let src := h_get_opt h (rawData c) "extensions" in
   if h_truthy src then extensions c = src
   else ∃ l, extensions c = HRef l ∧ length h ≤ l ∧
             h' !! l = Some (HObject ∅)).
Proof.
  intros Hcl Hroot H. unfold buildCharacter_h in H.
  apply bind_inv in H as (d & h0 & (Hd & ->)%read_inv & H).
  apply bind_inv in H as (d_tags & h0 & (_ & ->)%read_inv & H).
  apply bind_inv in H as (tgs & h1 & Htags & H).
  apply bind_inv in H as (cb & h1' & (Hcb & ->)%read_inv & H).
  apply bind_inv in H as (book & h2 & Hbook & H).
  apply bind_inv in H as (rd & h2' & ([= <-] & ->)%read_inv & H).
  apply bind_inv in H as (ag & h3 & Hag & H).
  apply bind_inv in H as (qr & h4 & Hqr & H).
  apply bind_inv in H as (ext & h5 & Hext & H).
  injection H as <- <-. cbn [tags alternate_greetings qrList extensions rawData].
  assert (H01 : h `prefix_of` h1) by (by eapply grows_tags_of_h).
  assert (H12 : h1 `prefix_of` h2) by (by eapply grows_book_of_h).
  assert (H23 : h2 `prefix_of` h3) by (by eapply grows_or_alloc).
  assert (H34 : h3 `prefix_of` h4) by (by eapply grows_or_alloc).
  assert (H45 : h4 `prefix_of` h5) by (by eapply grows_or_alloc).
  assert (H02 : h `prefix_of` h2) by (by etrans).
  pose proof (unwrap_h_valid h root _ Hcl Hroot Hd) as Hvd.
  assert (Hget : ∀ k, h_get_opt h2 d k = h_get_opt h d k).
  { intros k. unfold h_get_opt. destruct d as [| | | | |l|]; try done.
    simpl in Hvd. apply lookup_lt_is_Some_2 in Hvd as [o Ho]. simpl.
    by rewrite (prefix_lookup_Some _ _ _ _ Ho H02), Ho. }
  rewrite !Hget in *.
  pose proof (prefix_length _ _ H02) as L02.
  pose proof (prefix_length _ _ H23) as L23.
  pose proof (prefix_length _ _ H34) as L34.
  split; [|split; [|split]]; cbv zeta.
  - apply tags_of_h_fresh in Htags as (l & es & -> & Hl & Hes).
    exists l, es. split; [done|]. split; [done|].
    eapply prefix_lookup_Some; [done|].
    etrans; [done|]. etrans; [done|]. etrans; [done|]. by etrans.
  - apply (or_alloc_shared_or_new _ _ h h2 _ h3 h5); [lia| |done].
    etrans; [apply H34|apply H45].
  - apply (or_alloc_shared_or_new _ _ h h3 _ h4 h5); [lia|done|done].
  - apply (or_alloc_shared_or_new _ _ h h4 _ h5 h5); [lia|done|done].
Qed.

End heap_sharing.

Section tx7_closed.

Import JS Heap.

(** The import of the sample store: a card with a lorebook and no tags. *)
Lemma imported_fields_shared_or_new_witness :
  ∃ c h',
    buildCharacter_h Sample.to_string_h (HRef 0) "a.png" "blob:1" "1"
      Card.FmtPng 0 Sample.book_store = Some (c, h') ∧
    ∃ l es, tags c = HRef l ∧ (length Sample.book_store ≤ l)%nat ∧
            h' !! l = Some (HArray (HStr <$> es)).
Proof.
  destruct (buildCharacter_h Sample.to_string_h (HRef 0) "a.png" "blob:1" "1"
              Card.FmtPng 0 Sample.book_store) as [[c h']|] eqn:E;
    [|by vm_compute in E].
  exists c, h'. split; [done|].
  apply (imported_fields_shared_or_new Sample.to_string_h (HRef 0) "a.png"
           "blob:1" "1" Card.FmtPng 0 Sample.book_store c h').
  - apply (bool_decide_unpack _). by vm_compute.
  - apply (bool_decide_unpack _). by vm_compute.
  - done.
Defined.

End tx7_closed.

Section words.
Import JS Png.
#[local] Open Scope Z_scope.

(** X29: [DataView.setUint32] and [getUint32] as the encoder and the
    parser use them: a write fails exactly when the four bytes do not fit
    at the offset; otherwise the buffer keeps its length, every byte
    outside the four written ones is unchanged, and a read at the same
    offset gives the written value modulo 2^32. *)
Theorem setUint32_then_getUint32 buf off v :
  (setUint32 buf off v = None ↔ off < 0 ∨ Z.of_nat (length buf) < off + 4) ∧
  ∀ buf', setUint32 buf off v = Some buf' →
    length buf' = length buf ∧
    getUint32 buf' (Z.to_nat off) = v mod 2 ^ 32 ∧
    ∀ j, (j < Z.to_nat off ∨ Z.to_nat off + 4 ≤ j)%nat → buf' !! j = buf !! j.
Proof.
  unfold setUint32, ta_set. rewrite length_be32.
  destruct (Z.ltb_spec off 0) as [Hneg|Hpos]; cbn [orb].
  { split; [split; [by left|done]|done]. }
  destruct (Z.ltb_spec (Z.of_nat (length buf)) (off + Z.of_nat 4)) as [Hbig|Hfit].
  { split; [split; [right; lia|done]|done]. }
  split; [split; [done|lia]|].
  intros buf' Hb. apply (inj Some) in Hb. subst buf'.
  assert (Hlt : length (take (Z.to_nat off) buf) = Z.to_nat off).
  { rewrite length_take. lia. }
  split; [|split].
  - rewrite !length_app, length_take, length_be32, length_drop. lia.
  - pose proof (getUint32_be32 (take (Z.to_nat off) buf) (v mod 2 ^ 32)
                  (drop (Z.to_nat off + 4) buf)) as Hg.
    rewrite Hlt in Hg. apply Hg. apply Z.mod_pos_bound. lia.
  - intros j [Hj|Hj].
    + rewrite lookup_app_l by lia. apply lookup_take_lt. lia.
    + rewrite lookup_app_r by lia. rewrite lookup_app_r by (rewrite length_be32; lia).
      rewrite lookup_drop, Hlt, length_be32. f_equal. lia.
Qed.

End words.
